(** * JPEG-XL driver (frmts/jpegxl/jpegxl.cpp): orchestration logic

    A shallow embedding of the parts of the GDAL JPEG-XL driver that do not
    live inside libjxl: the bit-depth rescaling lambdas, the selection of the
    lossy distance in [CreateCopy], the marker-segment surgery on embedded
    JPEG codestreams, the event loops of [Open] and [GetDecodedImage], and
    the channel layout, bit depth and thread count of [CreateCopy].

    The first part holds the model, one module per concern ([Rescale],
    [Compression], [Jpeg], [OpenLoop], [Pixels], [Layout]); the second part
    holds the properties, in modules of the same names followed by [Facts].

    Conventions.
    - C [int] is 32-bit two's complement; [GByte], [uint16_t], [uint32_t]
      and [size_t] (64-bit) are unsigned.  Values are carried in [Z] and the
      casts of the source are written out ([cast_int], [cast_GByte], ...).
    - [a / b] on C integers truncates towards zero: [Z.quot].
    - Byte buffers are [list Z] with entries in [0, 255]; sample buffers are
      [list Z] with one entry per sample.
    - libjxl and the VSI file layer are the environment: every value they
      return is an input of the model. *)

From Stdlib Require Import String Ascii ZArith List Bool Lia.
From Stdlib Require Import Floats.SpecFloat.
Import ListNotations.

Local Open Scope Z_scope.

(** ** Machine integers *)

Definition cast_int (z : Z) : Z := (z + 2 ^ 31) mod 2 ^ 32 - 2 ^ 31.
Definition cast_GByte (z : Z) : Z := z mod 256.
Definition cast_uint16 (z : Z) : Z := z mod 65536.
Definition cast_uint32 (z : Z) : Z := z mod 2 ^ 32.
Definition SIZE_MAX : Z := 2 ^ 64 - 1.
Definition INT_MAX : Z := 2 ^ 31 - 1.

(** ** GDAL data types *)

Inductive GDALDataType : Set :=
| GDT_Unknown
| GDT_Byte
| GDT_UInt16
| GDT_Float32.

Definition GDALDataType_eqb (a b : GDALDataType) : bool :=
  match a, b with
  | GDT_Unknown, GDT_Unknown | GDT_Byte, GDT_Byte
  | GDT_UInt16, GDT_UInt16 | GDT_Float32, GDT_Float32 => true
  | _, _ => false
  end.

(** [GDALGetDataTypeSize]: width in bits. *)
Definition GDALGetDataTypeSize (eDT : GDALDataType) : Z :=
  match eDT with
  | GDT_Unknown => 0
  | GDT_Byte => 8
  | GDT_UInt16 => 16
  | GDT_Float32 => 32
  end.

Definition GDALGetDataTypeSizeBytes (eDT : GDALDataType) : Z :=
  GDALGetDataTypeSize eDT / 8.

(** * Bit-depth rescaling *)

Module Rescale.

(** Largest sample of the container type (the divisor, resp. multiplier, of
    the two lambdas). *)
Definition container_max (eDT : GDALDataType) : Z :=
  match eDT with
  | GDT_Byte => 255
  | GDT_UInt16 => 65535
  | _ => 0
  end.

(** [nHalfMaxWidth] of the decode lambda. *)
Definition nHalfMaxWidth (eDT : GDALDataType) : Z :=
  match eDT with
  | GDT_Byte => 127
  | GDT_UInt16 => 32767
  | _ => 0
  end.

(** [const int nMaxVal = (1 << nBits) - 1;] *)
Definition nMaxVal (nBits : Z) : Z := cast_int (cast_int (Z.shiftl 1 nBits) - 1).

(** Body of the loop of the [Rescale] lambda of
    [GetDecodedImage(void*, size_t)]:
    [panData[i] = (panData[i] * nMaxVal + nHalfMaxWidth) / 255] (resp. 65535). *)
Definition decode_sample (eDT : GDALDataType) (m_nBits : Z) (v : Z) : Z :=
  match eDT with
  | GDT_Byte =>
      cast_GByte (Z.quot (cast_int (cast_int (v * nMaxVal m_nBits) + 127)) 255)
  | GDT_UInt16 =>
      cast_uint16
        (Z.quot (cast_int (cast_int (v * nMaxVal m_nBits) + 32767)) 65535)
  | _ => v
  end.

(** Body of the loop of the [Rescale] lambda of [CreateCopy]:
    [panData[i] = (min(panData[i], nMaxVal) * 255 + nMavValHalf) / nMaxVal]. *)
Definition encode_sample (eDT : GDALDataType) (nBits : Z) (v : Z) : Z :=
  let nMavValHalf := Z.quot (nMaxVal nBits) 2 in
  match eDT with
  | GDT_Byte =>
      cast_GByte
        (Z.quot (cast_int (cast_int (Z.min v (nMaxVal nBits) * 255) + nMavValHalf))
                (nMaxVal nBits))
  | GDT_UInt16 =>
      cast_uint16
        (Z.quot (cast_int (cast_int (Z.min v (nMaxVal nBits) * 65535) + nMavValHalf))
                (nMaxVal nBits))
  | _ => v
  end.

(** A lambda walks the first [nSamples] entries of the buffer it is given and
    leaves the rest alone. *)
Definition over_samples (f : Z -> Z) (nSamples : Z) (pBuffer : list Z) : list Z :=
  map f (firstn (Z.to_nat nSamples) pBuffer) ++ skipn (Z.to_nat nSamples) pBuffer.

(** The decode lambda: [Rescale(pBuffer, nChannels)]. *)
Definition Rescale_decode (eDT : GDALDataType) (m_nBits nRasterXSize nRasterYSize : Z)
    (pBuffer : list Z) (nChannels : Z) : list Z :=
  over_samples (decode_sample eDT m_nBits)
               (nRasterXSize * nRasterYSize * nChannels) pBuffer.

(** The encode lambda, with its guard
    [(eDT == GDT_Byte && nBits < 8) || (eDT == GDT_UInt16 && nBits < 16)]. *)
Definition Rescale_encode (eDT : GDALDataType) (nBits nXSize nYSize : Z)
    (pBuffer : list Z) (nChannels : Z) : list Z :=
  if (GDALDataType_eqb eDT GDT_Byte && (nBits <? 8))
     || (GDALDataType_eqb eDT GDT_UInt16 && (nBits <? 16))
  then over_samples (encode_sample eDT nBits) (nXSize * nYSize * nChannels) pBuffer
  else pBuffer.

(** Tail of [GetDecodedImage(void*, size_t)]: the primary buffer with
    [nBands - m_nNonAlphaExtraChannels] channels, then each of the first
    [m_nNonAlphaExtraChannels] extra-channel buffers with one channel. *)
Definition rescale_decoded (eDT : GDALDataType)
    (m_nBits nRasterXSize nRasterYSize nBands m_nNonAlphaExtraChannels : Z)
    (pabyOutputData : list Z) (m_abyExtraChannels : list (list Z))
  : list Z * list (list Z) :=
  if m_nBits <? GDALGetDataTypeSize eDT then
    (Rescale_decode eDT m_nBits nRasterXSize nRasterYSize pabyOutputData
                    (nBands - m_nNonAlphaExtraChannels),
     map (fun ch => Rescale_decode eDT m_nBits nRasterXSize nRasterYSize ch 1)
         (firstn (Z.to_nat m_nNonAlphaExtraChannels) m_abyExtraChannels)
     ++ skipn (Z.to_nat m_nNonAlphaExtraChannels) m_abyExtraChannels)
  else (pabyOutputData, m_abyExtraChannels).

(** The mapping the specification describes for the decode side: the nearest
    integer (halves up) to [s * (2^target - 1) / (2^b - 1)]. *)
Definition spec_expand (target b s : Z) : Z :=
  (2 * s * (2 ^ target - 1) + (2 ^ b - 1)) / (2 * (2 ^ b - 1)).

(** Declared bit depths below the container width. *)
Definition sub_width (eDT : GDALDataType) (b : Z) : Prop :=
  (eDT = GDT_Byte /\ 1 <= b < 8) \/ (eDT = GDT_UInt16 /\ 1 <= b < 16).

End Rescale.

(** * Compression mode and distance selected by [CreateCopy] *)

Module Compression.

(** IEEE-754 values are [spec_float]; [double] is binary64 and [float] is
    binary32, every operation rounding to nearest even. *)
Definition double_of_Z (z : Z) : spec_float := binary_normalize 53 1024 z 0 false.
Definition float_of_Z (z : Z) : spec_float := binary_normalize 24 128 z 0 false.

Definition dadd := SFadd 53 1024.
Definition dsub := SFsub 53 1024.
Definition dmul := SFmul 53 1024.
Definition ddiv := SFdiv 53 1024.

(** A decimal literal [num/den] of type [double] resp. [float]: the nearest
    representable value. *)
Definition double_lit (num den : Z) : spec_float :=
  ddiv (double_of_Z num) (double_of_Z den).
Definition float_lit (num den : Z) : spec_float :=
  SFdiv 24 128 (float_of_Z num) (float_of_Z den).

(** [static_cast<float>(double)] and the implicit promotion of a [float]
    operand to [double]. *)
Definition float_of_double (x : spec_float) : spec_float :=
  match x with
  | S754_finite s m e => binary_normalize 24 128 (if s then Zneg m else Zpos m) e s
  | _ => x
  end.
Definition double_of_float (x : spec_float) : spec_float :=
  match x with
  | S754_finite s m e => binary_normalize 53 1024 (if s then Zneg m else Zpos m) e s
  | _ => x
  end.

(** [a >= b] and [a < b] on floating-point values (false on NaN). *)
Definition fge (a b : spec_float) : bool := SFleb b a.
Definition flt (a b : spec_float) : bool := SFltb a b.

(** [p != nullptr]. *)
Definition non_null {A : Type} (p : option A) : bool :=
  match p with
  | Some _ => true
  | None => false
  end.

(** Outcome of the option block of [CreateCopy]: an early return with an
    error, or the call made on the encoder options. *)
Inductive Compression : Set :=
| MutuallyExclusive (msg : string)
| SetLossless
| SetFrameDistance (fDistance : spec_float).

Section WithLibm.

(** [pow] of the C library, on doubles. *)
Variable pow : spec_float -> spec_float -> spec_float.

(** The three creation options after parsing: [pszLossLess] carries
    [CPLTestBool] of the LOSSLESS string, [pszDistance] and [pszQuality] carry
    [CPLAtof] of the DISTANCE and QUALITY strings; [None] is the null pointer
    [CSLFetchNameValue] returns for an absent option. *)
Definition bLossless (pszLossLess : option bool)
    (pszDistance pszQuality : option spec_float) : bool :=
  (match pszLossLess, pszDistance, pszQuality with
   | None, None, None => true
   | _, _, _ => false
   end)
  || (match pszLossLess with
      | Some b => b
      | None => false
      end).

(** The [if (pszQuality != nullptr)] block: "Formulas taken from cjxl.cc". *)
Definition quality_to_distance (quality : spec_float) : spec_float :=
  if fge quality (double_of_Z 100) then
    float_of_Z 0
  else if fge quality (double_of_Z 30) then
    float_of_double
      (dadd (double_lit 1 10)
            (dmul (dsub (double_of_Z 100) quality) (double_lit 9 100)))
  else
    float_of_double
      (dadd (double_lit 64 10)
            (ddiv (pow (double_lit 25 10)
                       (ddiv (dsub (double_of_Z 30) quality)
                             (double_of_float (float_of_Z 5))))
                  (double_of_float (float_lit 625 100)))).

(** The [else] branch of [if (bLossless)], up to the call of
    [JxlEncoderSetFrameDistance(opts, fDistance)]. *)
Definition lossy_distance (pszDistance pszQuality : option spec_float) : spec_float :=
  let fDistance :=
    match pszDistance with
    | Some d => float_of_double d
    | None => float_of_Z 1
    end in
  let fDistance :=
    match pszQuality with
    | Some quality => quality_to_distance quality
    | None => fDistance
    end in
  if fge fDistance (float_of_Z 0) && flt fDistance (float_lit 1 10)
  then float_lit 1 10
  else fDistance.

(** Lines 1828-1916 of [CreateCopy]. *)
Definition CreateCopy_compression (pszLossLess : option bool)
    (pszDistance pszQuality : option spec_float) : Compression :=
  let lossless := bLossless pszLossLess pszDistance pszQuality in
  if (non_null pszLossLess && lossless) && non_null pszDistance then
    MutuallyExclusive "DISTANCE and LOSSLESS=YES are mutually exclusive"
  else if (non_null pszLossLess && lossless) && non_null pszQuality then
    MutuallyExclusive "QUALITY and LOSSLESS=YES are mutually exclusive"
  else if non_null pszDistance && non_null pszQuality then
    MutuallyExclusive "QUALITY and DISTANCE are mutually exclusive"
  else if lossless then SetLossless
  else SetFrameDistance (lossy_distance pszDistance pszQuality).

End WithLibm.

(** A stand-in for [pow] where a closed term is needed; the branch that calls
    it is not taken for qualities of 30 and more. *)
Definition pow_nan (_ _ : spec_float) : spec_float := S754_nan.

End Compression.

(** * Marker segments of JPEG codestreams *)

Module Jpeg.

(** [v.size()], [v[i]] and the range [v.begin() + from, v.begin() + to)] of a
    byte vector.  The source only reads inside the vector; outside it [at_]
    answers 0. *)
Definition size (v : list Z) : Z := Z.of_nat (length v).
Definition at_ (v : list Z) (i : Z) : Z :=
  if (0 <=? i) && (i <? size v) then nth (Z.to_nat i) v 0 else 0.
Definition range (v : list Z) (from to : Z) : list Z :=
  firstn (Z.to_nat (to - from)) (skipn (Z.to_nat from) v).

Fixpoint bytes_eqb (a b : list Z) : bool :=
  match a, b with
  | [], [] => true
  | x :: a, y :: b => (x =? y) && bytes_eqb a b
  | _, _ => false
  end.

(** [memcmp(v.data() + off, SIG, sizeof(SIG)) == 0]. *)
Definition memcmp_eq (v : list Z) (off : Z) (SIG : list Z) : bool :=
  bytes_eqb (range v off (off + size SIG)) SIG.

Definition bytes_of_string (s : string) : list Z :=
  map (fun c => Z.of_N (N_of_ascii c)) (list_ascii_of_string s).

(** [EQUAL(a, b)]: comparison ignoring the case of ASCII letters. *)
Definition toupper (c : ascii) : ascii :=
  let n := N_of_ascii c in
  if ((97 <=? n) && (n <=? 122))%N then ascii_of_N (n - 32) else c.

Fixpoint EQUAL (a b : string) : bool :=
  match a, b with
  | EmptyString, EmptyString => true
  | String x a, String y b => Ascii.eqb (toupper x) (toupper y) && EQUAL a b
  | _, _ => false
  end.

(** The signatures with their terminating NUL bytes, as [sizeof] counts them. *)
Definition JFIF_SIGNATURE : list Z := [74; 70; 73; 70; 0].
Definition EXIF_SIGNATURE : list Z := [69; 120; 105; 102; 0; 0].
Definition APP1_XMP_SIGNATURE : list Z :=
  bytes_of_string "http://ns.adobe.com/xap/1.0/" ++ [0].

(** ** Re-inserting EXIF and XMP into a reconstructed codestream
    ([GetMetadataItem], domain JPEG) *)

(** The [while (nChunkLoc + 4 <= jpeg_bytes.size())] loop, shared by the EXIF
    and the XMP block up to the APP1 signature looked for.  It returns
    [(bFound, nInsertPos)].  Every turn advances [nChunkLoc] by at least 2,
    so [length jpeg_bytes] turns are enough. *)
Fixpoint scan_chunks (fuel : nat) (jpeg_bytes SIG : list Z)
    (nChunkLoc nInsertPos : Z) : bool * Z :=
  match fuel with
  | O => (false, nInsertPos)
  | S fuel =>
      if negb (nChunkLoc + 4 <=? size jpeg_bytes) then (false, nInsertPos)
      else if negb (at_ jpeg_bytes (nChunkLoc + 0) =? 0xFF)
              || (at_ jpeg_bytes (nChunkLoc + 1) =? 0xDA)
      then (false, nInsertPos)
      else
        let nChunkLength :=
          at_ jpeg_bytes (nChunkLoc + 2) * 256 + at_ jpeg_bytes (nChunkLoc + 3) in
        if (at_ jpeg_bytes (nChunkLoc + 0) =? 0xFF)
           && (at_ jpeg_bytes (nChunkLoc + 1) =? 0xE0)
           && (nChunkLoc + 4 + size JFIF_SIGNATURE <=? size jpeg_bytes)
           && memcmp_eq jpeg_bytes (nChunkLoc + 4) JFIF_SIGNATURE
        then scan_chunks fuel jpeg_bytes SIG (nChunkLoc + 2 + nChunkLength)
                         (nChunkLoc + 2 + nChunkLength)
        else if (at_ jpeg_bytes (nChunkLoc + 0) =? 0xFF)
                && (at_ jpeg_bytes (nChunkLoc + 1) =? 0xE1)
                && (nChunkLoc + 4 + size SIG <=? size jpeg_bytes)
                && memcmp_eq jpeg_bytes (nChunkLoc + 4) SIG
        then (true, nInsertPos)
        else scan_chunks fuel jpeg_bytes SIG (nChunkLoc + 2 + nChunkLength)
                         nInsertPos
  end.

(** The construction of [abyNew]: the bytes before [nInsertPos], the APP1
    marker, the two length bytes, the signature, the payload, the bytes from
    [nInsertPos] on. *)
Definition splice_APP1 (jpeg_bytes : list Z) (nInsertPos nMarkerSize : Z)
    (SIG payload : list Z) : list Z :=
  firstn (Z.to_nat nInsertPos) jpeg_bytes
  ++ [0xFF; 0xE1; cast_GByte (Z.shiftr nMarkerSize 8);
      cast_GByte (Z.land nMarkerSize 0xFF)]
  ++ SIG ++ payload
  ++ skipn (Z.to_nat nInsertPos) jpeg_bytes.

(** "Insert Exif box in JPEG codestream (if not already present)". *)
Definition insert_EXIF (pszName : string) (m_abyEXIFBox jpeg_bytes : list Z)
  : list Z :=
  let nEXIFMarkerSize := 2 + size EXIF_SIGNATURE + size m_abyEXIFBox in
  if negb (EQUAL pszName "CODESTREAM_WITHOUT_EXIF")
     && (nEXIFMarkerSize <=? 65535)
  then
    let '(bEXIFFound, nInsertPos) :=
      scan_chunks (length jpeg_bytes) jpeg_bytes EXIF_SIGNATURE 2 0 in
    if negb bEXIFFound && (0 <? nInsertPos)
    then splice_APP1 jpeg_bytes nInsertPos nEXIFMarkerSize EXIF_SIGNATURE
                     m_abyEXIFBox
    else jpeg_bytes
  else jpeg_bytes.

(** The XMP block that follows it. *)
Definition insert_XMP (m_osXMP jpeg_bytes : list Z) : list Z :=
  let nXMPMarkerSize := 2 + size APP1_XMP_SIGNATURE + size m_osXMP in
  if negb (size m_osXMP =? 0) && (nXMPMarkerSize <=? 65535)
  then
    let '(bXMPFound, nInsertPos) :=
      scan_chunks (length jpeg_bytes) jpeg_bytes APP1_XMP_SIGNATURE 2 0 in
    if negb bXMPFound && (0 <? nInsertPos)
    then splice_APP1 jpeg_bytes nInsertPos nXMPMarkerSize APP1_XMP_SIGNATURE
                     m_osXMP
    else jpeg_bytes
  else jpeg_bytes.

(** Post-processing of the reconstructed bytes, before base64 encoding;
    [None] when [GetMetadataItem] returns [nullptr]. *)
Definition reinsert_metadata (pszName : string) (m_abyEXIFBox m_osXMP : list Z)
    (jpeg_bytes : list Z) : option (list Z) :=
  if negb (size jpeg_bytes =? 0) && (size jpeg_bytes <? INT_MAX)
  then Some (insert_XMP m_osXMP (insert_EXIF pszName m_abyEXIFBox jpeg_bytes))
  else None.

(** ** Embedding a JPEG source losslessly ([CreateCopy]) *)

(** "Detect zlib compress mask band at end of file and remove it if found". *)
Definition remove_mask (abyJPEG : list Z) : list Z :=
  let nFileSize := size abyJPEG in
  if 4 <? nFileSize then
    let nImageSize :=
      at_ abyJPEG (nFileSize - 4) + 256 * at_ abyJPEG (nFileSize - 3)
      + 65536 * at_ abyJPEG (nFileSize - 2)
      + 16777216 * at_ abyJPEG (nFileSize - 1) in
    if (2 <? nImageSize) && (nFileSize / 2 <=? nImageSize)
       && (nImageSize <=? nFileSize - 4)
       && (at_ abyJPEG (nImageSize - 2) =? 0xFF)
       && (at_ abyJPEG (nImageSize - 1) =? 0xD9)
    then firstn (Z.to_nat nImageSize) abyJPEG
    else abyJPEG
  else abyJPEG.

(** The [while (i + 1 < abyJPEG.size())] loop that rebuilds the codestream in
    [abyJPEGMod].  Every turn that continues advances [i] by at least 2. *)
Fixpoint strip_markers (fuel : nat) (abyJPEG : list Z) (i : Z)
    (abyJPEGMod : list Z) : list Z :=
  match fuel with
  | O => abyJPEGMod
  | S fuel =>
      if negb (i + 1 <? size abyJPEG) then abyJPEGMod
      else if negb (at_ abyJPEG i =? 0xFF) then []
      else
        let bIsCOM := at_ abyJPEG (i + 1) =? 0xFE in
        if negb (Z.land (at_ abyJPEG (i + 1)) 0xF0 =? 0xE0) && negb bIsCOM
        then abyJPEGMod ++ skipn (Z.to_nat i) abyJPEG
        else
          let bIsAPP0 := at_ abyJPEG (i + 1) =? 0xE0 in
          let i := i + 2 in
          if size abyJPEG <=? i + 1 then []
          else
            let nChunkLength := at_ abyJPEG i * 256 + at_ abyJPEG (i + 1) in
            let abyJPEGMod :=
              if (bIsCOM || bIsAPP0) && (i + nChunkLength <=? size abyJPEG)
              then abyJPEGMod ++ range abyJPEG (i - 2) (i + nChunkLength)
              else abyJPEGMod in
            strip_markers fuel abyJPEG (i + nChunkLength) abyJPEGMod
  end.

(** The block guarded by [abyJPEG[0] == 0xff && abyJPEG[1] == 0xd8], given
    the bytes of the source file; the result is [abyJPEG] after the block. *)
Definition sanitize (file : list Z) : list Z :=
  if (at_ file 0 =? 0xFF) && (at_ file 1 =? 0xD8) then
    let abyJPEG := remove_mask file in
    strip_markers (length abyJPEG) abyJPEG 2 (firstn 2 abyJPEG)
  else file.

(** [abyJPEG] when [CreateCopy] reaches the encoder: empty unless the source
    driver is JPEG, its colour space is not CMYK, lossless mode is on, and the
    file could be opened ([fpJPEG]) and has between 3 and [SIZE_MAX / 2]
    bytes. *)
Definition CreateCopy_abyJPEG (bDriverIsJPEG : bool)
    (pszSourceColorSpace : option string) (bLossless : bool)
    (fpJPEG : option (list Z)) : list Z :=
  let bCMYK :=
    match pszSourceColorSpace with
    | Some cs => EQUAL cs "CMYK"
    | None => false
    end in
  if bDriverIsJPEG && negb bCMYK && bLossless then
    match fpJPEG with
    | Some file =>
        if (2 <? size file) && (size file <? SIZE_MAX / 2)
        then sanitize file
        else []
    | None => []
    end
  else [].

(** A marker segment: marker byte and payload; on the wire it is [FF], the
    marker, the big-endian length of length field plus payload, the payload. *)
Record segment : Set := { seg_marker : Z; seg_payload : list Z }.

Definition seg_bytes (s : segment) : list Z :=
  let n := 2 + size (seg_payload s) in
  [0xFF; seg_marker s; n / 256; n mod 256] ++ seg_payload s.

Definition is_APPn (m : Z) : bool := Z.land m 0xF0 =? 0xE0.
Definition is_COM (m : Z) : bool := m =? 0xFE.
Definition is_APP0 (m : Z) : bool := m =? 0xE0.

(** Segments the loop of [strip_markers] walks over, and those it copies. *)
Definition wf_segment (s : segment) : Prop :=
  (is_APPn (seg_marker s) || is_COM (seg_marker s)) = true
  /\ 2 + size (seg_payload s) <= 65535.

Definition kept (s : segment) : bool :=
  is_COM (seg_marker s) || is_APP0 (seg_marker s).

(** A reconstructed codestream with a JFIF APP0 segment and no APP1 segment:
    SOI, APP0 of length 16, SOS of length 2, EOI. *)
Definition jfif_codestream : list Z :=
  [0xFF; 0xD8;
   0xFF; 0xE0; 0; 16; 74; 70; 73; 70; 0; 1; 1; 0; 0; 1; 0; 1; 0; 0;
   0xFF; 0xDA; 0; 2;
   0xFF; 0xD9].

(** A JPEG file with a comment: SOI, COM "hi", APP1 of two bytes, APP0 with
    no payload, SOS of length 2, EOI. *)
Definition commented_file : list Z :=
  [0xFF; 0xD8;
   0xFF; 0xFE; 0; 4; 104; 105;
   0xFF; 0xE1; 0; 4; 1; 2;
   0xFF; 0xE0; 0; 2;
   0xFF; 0xDA; 0; 2;
   0xFF; 0xD9].


(** ** Codestreams seen as lists of segments *)

(** A segment with marker [mk] whose payload begins with the signature. *)
Definition has_signature (mk : Z) (SIG : list Z) (s : segment) : bool :=
  (seg_marker s =? mk) && bytes_eqb (firstn (length SIG) (seg_payload s)) SIG.

Definition is_JFIF (s : segment) : bool := has_signature 0xE0 JFIF_SIGNATURE s.

(** A segment the scan of [scan_chunks] walks over: not a start of scan, and
    with a length that fits its two-byte field. *)
Definition scannable (s : segment) : Prop :=
  seg_marker s <> 0xDA /\ 2 + size (seg_payload s) <= 65535.

(** A codestream: SOI, header segments, then the start of scan and what
    follows it. *)
Definition codestream (segs : list segment) (tail : list Z) : list Z :=
  [0xFF; 0xD8] ++ flat_map seg_bytes segs ++ 0xFF :: 0xDA :: tail.

(** The scan of [scan_chunks] told over the segments, [pos] being the offset
    of the first of them: a JFIF segment moves the insertion point behind
    itself, an APP1 segment with the signature ends the scan. *)
Fixpoint scan_segments (SIG : list Z) (segs : list segment)
    (pos nInsertPos : Z) : bool * Z :=
  match segs with
  | [] => (false, nInsertPos)
  | s :: segs =>
      let next := pos + size (seg_bytes s) in
      if is_JFIF s then scan_segments SIG segs next next
      else if has_signature 0xE1 SIG s then (true, nInsertPos)
      else scan_segments SIG segs next nInsertPos
  end.

(** What follows a segment in a codestream is empty or begins with [FF]. *)
Definition begins_FF (v : list Z) : Prop := v = [] \/ exists v', v = 0xFF :: v'.

(** The APP1 segment that carries a payload under a signature. *)
Definition APP1_segment (SIG payload : list Z) : segment :=
  {| seg_marker := 0xE1; seg_payload := SIG ++ payload |}.

(** The "Exif" box [CreateCopy] hands to the encoder, from the APP1 marker
    content [EXIFCreate] returns ("Exif\0\0", then the TIFF file):
    [std::vector<GByte> abyEXIF(4 + nMarkerSize - 6)], then
    [memcpy(&abyEXIF[4], pabyEXIF + 6, nMarkerSize - 6)]. *)
Definition CreateCopy_abyEXIF (pabyEXIF : list Z) (nMarkerSize : Z) : list Z :=
  repeat 0 4 ++ range pabyEXIF 6 nMarkerSize.



End Jpeg.

(** * The event loop of [Open] *)

Module OpenLoop.

(** The fields of [JxlBasicInfo] the driver reads. *)
Record JxlBasicInfo : Set := {
  xsize : Z;
  ysize : Z;
  bits_per_sample : Z;
  exponent_bits_per_sample : Z;
  num_color_channels : Z;
  num_extra_channels : Z;
  alpha_bits : Z;
  uses_original_profile : bool
}.

(** Messages sent through [CPLError], warnings and failures alike, without
    their formatting. *)
Inductive Message : Set :=
| W_NotEnoughMemory (szType : string)
| W_GetBoxTypeFailed
| W_BoxOverCeiling (szType : string) (nBytes nMaxBoxBufferSize : Z)
| W_SetBoxBufferFailed
| W_UnexpectedEvent (status : Z)
| E_SetInputFailed
| E_GetBasicInfoFailed
| E_TooBigRaster
| E_UnhandledDataType
| E_NoBasicInfo.

Definition is_warning (m : Message) : bool :=
  match m with
  | W_NotEnoughMemory _ | W_GetBoxTypeFailed | W_BoxOverCeiling _ _ _
  | W_SetBoxBufferFailed | W_UnexpectedEvent _ => true
  | _ => false
  end.

(** What [JxlDecoderReleaseBoxBuffer] leaves behind when a box is closed: the
    bytes of [abyBoxBuffer] as the engine wrote them, the count of unused
    bytes, and whether building the retained copy throws. *)
Record BoxRelease : Set := {
  box_bytes : list Z;
  nRemainingBytesInBuffer : Z;
  bThrows : bool
}.

(** One turn of the loop: the status [JxlDecoderProcessInput] returns, with
    the answers of the calls the branch of that status makes.
    - [Success]: JXL_DEC_SUCCESS;
    - [NeedMoreInput nRead bSetInputOk]: JXL_DEC_NEED_MORE_INPUT, the count
      [VSIFReadL] returns and whether [JxlDecoderSetInput] succeeds;
    - [BasicInfo bOk info]: JXL_DEC_BASIC_INFO with the result of
      [JxlDecoderGetBasicInfo];
    - [Box rel bTypeOk szType nRawSize bResizeThrows bSetBufferOk]:
      JXL_DEC_BOX with the results of [JxlDecoderGetBoxType],
      [JxlDecoderGetBoxSizeRaw], [abyBoxBuffer.resize] and
      [JxlDecoderSetBoxBuffer];
    - [ColorEncoding]: JXL_DEC_COLOR_ENCODING (it only sets the
      SOURCE_ICC_PROFILE metadata item, which is not part of this state);
    - [BoxNeedMoreOutput nRemaining bResizeThrows bSetBufferOk]:
      JXL_DEC_BOX_NEED_MORE_OUTPUT;
    - [Other status]: any other status. *)
Inductive Event : Set :=
| Success (rel : BoxRelease)
| NeedMoreInput (nRead : Z) (bSetInputOk : bool)
| BasicInfo (bOk : bool) (i : JxlBasicInfo)
| Box (rel : BoxRelease) (bTypeOk : bool) (szType : string) (nRawSize : Z)
      (bResizeThrows bSetBufferOk : bool)
| ColorEncoding
| BoxNeedMoreOutput (nRemaining : Z) (bResizeThrows bSetBufferOk : bool)
| Other (status : Z).

(** Locals and members of [Open] that the loop reads and writes.
    [box_allocs] records every size handed to [abyBoxBuffer.resize], in
    order; [messages] records the [CPLError] calls. *)
Record State : Set := {
  abyBoxBuffer_size : Z;
  osCurrentBox : string;
  m_osXMP : list Z;
  m_abyEXIFBox : list Z;
  m_aosEXIFMetadata : list string;
  abyJumbBoxBuffer : list Z;
  m_bHasJPEGReconstructionData : bool;
  bGotInfo : bool;
  info : JxlBasicInfo;
  eDT : GDALDataType;
  m_nBits : Z;
  l_nBands : Z;
  m_nNonAlphaExtraChannels : Z;
  box_allocs : list Z;
  messages : list Message
}.

Definition initial_state : State :=
  {| abyBoxBuffer_size := 1024 * 1024;
     osCurrentBox := "";
     m_osXMP := [];
     m_abyEXIFBox := [];
     m_aosEXIFMetadata := [];
     abyJumbBoxBuffer := [];
     m_bHasJPEGReconstructionData := false;
     bGotInfo := false;
     info := {| xsize := 0; ysize := 0; bits_per_sample := 0;
                exponent_bits_per_sample := 0; num_color_channels := 0;
                num_extra_channels := 0; alpha_bits := 0;
                uses_original_profile := false |};
     eDT := GDT_Unknown;
     m_nBits := 0;
     l_nBands := 0;
     m_nNonAlphaExtraChannels := 0;
     box_allocs := [];
     messages := [] |}.

Definition CPLError (m : Message) (st : State) : State :=
  {| abyBoxBuffer_size := abyBoxBuffer_size st;
     osCurrentBox := osCurrentBox st;
     m_osXMP := m_osXMP st;
     m_abyEXIFBox := m_abyEXIFBox st;
     m_aosEXIFMetadata := m_aosEXIFMetadata st;
     abyJumbBoxBuffer := abyJumbBoxBuffer st;
     m_bHasJPEGReconstructionData := m_bHasJPEGReconstructionData st;
     bGotInfo := bGotInfo st;
     info := info st;
     eDT := eDT st;
     m_nBits := m_nBits st;
     l_nBands := l_nBands st;
     m_nNonAlphaExtraChannels := m_nNonAlphaExtraChannels st;
     box_allocs := box_allocs st;
     messages := messages st ++ [m] |}.

Definition set_osCurrentBox (v : string) (st : State) : State :=
  {| abyBoxBuffer_size := abyBoxBuffer_size st;
     osCurrentBox := v;
     m_osXMP := m_osXMP st;
     m_abyEXIFBox := m_abyEXIFBox st;
     m_aosEXIFMetadata := m_aosEXIFMetadata st;
     abyJumbBoxBuffer := abyJumbBoxBuffer st;
     m_bHasJPEGReconstructionData := m_bHasJPEGReconstructionData st;
     bGotInfo := bGotInfo st;
     info := info st;
     eDT := eDT st;
     m_nBits := m_nBits st;
     l_nBands := l_nBands st;
     m_nNonAlphaExtraChannels := m_nNonAlphaExtraChannels st;
     box_allocs := box_allocs st;
     messages := messages st |}.

Definition set_m_osXMP (v : list Z) (st : State) : State :=
  {| abyBoxBuffer_size := abyBoxBuffer_size st;
     osCurrentBox := osCurrentBox st;
     m_osXMP := v;
     m_abyEXIFBox := m_abyEXIFBox st;
     m_aosEXIFMetadata := m_aosEXIFMetadata st;
     abyJumbBoxBuffer := abyJumbBoxBuffer st;
     m_bHasJPEGReconstructionData := m_bHasJPEGReconstructionData st;
     bGotInfo := bGotInfo st;
     info := info st;
     eDT := eDT st;
     m_nBits := m_nBits st;
     l_nBands := l_nBands st;
     m_nNonAlphaExtraChannels := m_nNonAlphaExtraChannels st;
     box_allocs := box_allocs st;
     messages := messages st |}.

Definition set_EXIF (box : list Z) (md : list string) (st : State) : State :=
  {| abyBoxBuffer_size := abyBoxBuffer_size st;
     osCurrentBox := osCurrentBox st;
     m_osXMP := m_osXMP st;
     m_abyEXIFBox := box;
     m_aosEXIFMetadata := md;
     abyJumbBoxBuffer := abyJumbBoxBuffer st;
     m_bHasJPEGReconstructionData := m_bHasJPEGReconstructionData st;
     bGotInfo := bGotInfo st;
     info := info st;
     eDT := eDT st;
     m_nBits := m_nBits st;
     l_nBands := l_nBands st;
     m_nNonAlphaExtraChannels := m_nNonAlphaExtraChannels st;
     box_allocs := box_allocs st;
     messages := messages st |}.

Definition set_abyJumbBoxBuffer (v : list Z) (st : State) : State :=
  {| abyBoxBuffer_size := abyBoxBuffer_size st;
     osCurrentBox := osCurrentBox st;
     m_osXMP := m_osXMP st;
     m_abyEXIFBox := m_abyEXIFBox st;
     m_aosEXIFMetadata := m_aosEXIFMetadata st;
     abyJumbBoxBuffer := v;
     m_bHasJPEGReconstructionData := m_bHasJPEGReconstructionData st;
     bGotInfo := bGotInfo st;
     info := info st;
     eDT := eDT st;
     m_nBits := m_nBits st;
     l_nBands := l_nBands st;
     m_nNonAlphaExtraChannels := m_nNonAlphaExtraChannels st;
     box_allocs := box_allocs st;
     messages := messages st |}.

Definition set_m_bHasJPEGReconstructionData (st : State) : State :=
  {| abyBoxBuffer_size := abyBoxBuffer_size st;
     osCurrentBox := osCurrentBox st;
     m_osXMP := m_osXMP st;
     m_abyEXIFBox := m_abyEXIFBox st;
     m_aosEXIFMetadata := m_aosEXIFMetadata st;
     abyJumbBoxBuffer := abyJumbBoxBuffer st;
     m_bHasJPEGReconstructionData := true;
     bGotInfo := bGotInfo st;
     info := info st;
     eDT := eDT st;
     m_nBits := m_nBits st;
     l_nBands := l_nBands st;
     m_nNonAlphaExtraChannels := m_nNonAlphaExtraChannels st;
     box_allocs := box_allocs st;
     messages := messages st |}.

(** [abyBoxBuffer.resize(n)]: the request is recorded, the size changes. *)
Definition resize_abyBoxBuffer (n : Z) (st : State) : State :=
  {| abyBoxBuffer_size := n;
     osCurrentBox := osCurrentBox st;
     m_osXMP := m_osXMP st;
     m_abyEXIFBox := m_abyEXIFBox st;
     m_aosEXIFMetadata := m_aosEXIFMetadata st;
     abyJumbBoxBuffer := abyJumbBoxBuffer st;
     m_bHasJPEGReconstructionData := m_bHasJPEGReconstructionData st;
     bGotInfo := bGotInfo st;
     info := info st;
     eDT := eDT st;
     m_nBits := m_nBits st;
     l_nBands := l_nBands st;
     m_nNonAlphaExtraChannels := m_nNonAlphaExtraChannels st;
     box_allocs := box_allocs st ++ [n];
     messages := messages st |}.

(** A [resize] that throws: the request is recorded, the vector keeps the
    size [keep] it had when the exception left it. *)
Definition failed_resize_abyBoxBuffer (n keep : Z) (st : State) : State :=
  {| abyBoxBuffer_size := keep;
     osCurrentBox := osCurrentBox st;
     m_osXMP := m_osXMP st;
     m_abyEXIFBox := m_abyEXIFBox st;
     m_aosEXIFMetadata := m_aosEXIFMetadata st;
     abyJumbBoxBuffer := abyJumbBoxBuffer st;
     m_bHasJPEGReconstructionData := m_bHasJPEGReconstructionData st;
     bGotInfo := bGotInfo st;
     info := info st;
     eDT := eDT st;
     m_nBits := m_nBits st;
     l_nBands := l_nBands st;
     m_nNonAlphaExtraChannels := m_nNonAlphaExtraChannels st;
     box_allocs := box_allocs st ++ [n];
     messages := messages st |}.

(** The assignments of the JXL_DEC_BASIC_INFO branch. *)
Definition set_info (got : bool) (i : JxlBasicInfo) (dt : GDALDataType)
    (bits bands extra : Z) (st : State) : State :=
  {| abyBoxBuffer_size := abyBoxBuffer_size st;
     osCurrentBox := osCurrentBox st;
     m_osXMP := m_osXMP st;
     m_abyEXIFBox := m_abyEXIFBox st;
     m_aosEXIFMetadata := m_aosEXIFMetadata st;
     abyJumbBoxBuffer := abyJumbBoxBuffer st;
     m_bHasJPEGReconstructionData := m_bHasJPEGReconstructionData st;
     bGotInfo := got;
     info := i;
     eDT := dt;
     m_nBits := bits;
     l_nBands := bands;
     m_nNonAlphaExtraChannels := extra;
     box_allocs := box_allocs st;
     messages := messages st |}.

(** How a turn ends: next turn, [break], or [return false]. *)
Inductive Control : Set :=
| Continue (st : State)
| Break (st : State)
| ReturnFalse (st : State).

(** What [Open] did: it returned, or the script of events ended before the
    loop did. *)
Inductive Outcome : Set :=
| Returned (ok : bool) (st : State)
| Starved (st : State).

Definition outcome_state (o : Outcome) : State :=
  match o with
  | Returned _ st => st
  | Starved st => st
  end.

Section WithEnvironment.

(** [GDAL_JPEGXL_MAX_BOX_BUFFER_SIZE], default 100000000. *)
Variable nMaxBoxBufferSize : Z.

(** The EXIF dictionary service: the name/value list [EXIFExtractMetadata]
    builds from the TIFF bytes of the box. *)
Variable EXIFExtractMetadata : list Z -> list string.

(** The lambda [ProcessCurrentBox], when nothing throws. *)
Definition ProcessCurrentBox (rel : BoxRelease) (st : State) : State :=
  let nSize := abyBoxBuffer_size st - nRemainingBytesInBuffer rel in
  let abyBoxBuffer := box_bytes rel in
  let st :=
    if String.eqb (osCurrentBox st) "xml " && (Jpeg.size (m_osXMP st) =? 0) then
      let osXML := firstn (Z.to_nat nSize) abyBoxBuffer in
      if Jpeg.bytes_eqb (firstn 9 osXML) (Jpeg.bytes_of_string "<?xpacket")
      then set_m_osXMP osXML st
      else st
    else if String.eqb (osCurrentBox st) "Exif"
            && (Nat.eqb (length (m_aosEXIFMetadata st)) 0) then
      if (12 <? nSize)
         && (Jpeg.at_ abyBoxBuffer 0 =? 0) && (Jpeg.at_ abyBoxBuffer 1 =? 0)
         && (Jpeg.at_ abyBoxBuffer 2 =? 0) && (Jpeg.at_ abyBoxBuffer 3 =? 0)
         && ((Jpeg.at_ abyBoxBuffer 4 =? 0x4d) || (Jpeg.at_ abyBoxBuffer 4 =? 0x49))
      then set_EXIF (m_abyEXIFBox st ++ Jpeg.range abyBoxBuffer 4 nSize)
                    (EXIFExtractMetadata (skipn 4 abyBoxBuffer)) st
      else st
    else if String.eqb (osCurrentBox st) "jumb" then
      set_abyJumbBoxBuffer abyBoxBuffer st
    else st in
  set_osCurrentBox "" st.

(** Head of the loop body: on JXL_DEC_SUCCESS and JXL_DEC_BOX a box that is
    still open is closed, inside [try]/[catch]. *)
Definition close_open_box (rel : BoxRelease) (st : State) : State :=
  if String.eqb (osCurrentBox st) "" then st
  else if bThrows rel then CPLError (W_NotEnoughMemory (osCurrentBox st)) st
  else ProcessCurrentBox rel st.

Definition recognized (szType : string) : bool :=
  String.eqb szType "xml " || String.eqb szType "Exif" || String.eqb szType "jumb".

(** The data type [Open] derives from the basic info, starting from the
    value [eDT] already has. *)
Definition derive_eDT (i : JxlBasicInfo) (dt : GDALDataType) : GDALDataType :=
  if exponent_bits_per_sample i =? 0 then
    if bits_per_sample i <=? 8 then GDT_Byte
    else if bits_per_sample i <=? 16 then GDT_UInt16
    else dt
  else if exponent_bits_per_sample i =? 8 then GDT_Float32
  else dt.

Definition derive_nNonAlphaExtraChannels (i : JxlBasicInfo) : Z :=
  if (num_extra_channels i =? 1)
     && ((num_color_channels i =? 1) || (num_color_channels i =? 3))
     && negb (alpha_bits i =? 0)
  then 0
  else num_extra_channels i.

(** One turn of [while (true)]. *)
Definition step (ev : Event) (st : State) : Control :=
  match ev with
  | Success rel => Break (close_open_box rel st)
  | NeedMoreInput nRead bSetInputOk =>
      if nRead =? 0 then Break st
      else if negb bSetInputOk then ReturnFalse (CPLError E_SetInputFailed st)
      else Continue st
  | BasicInfo bOk i =>
      let got st := set_info true (info st) (eDT st) (m_nBits st) (l_nBands st)
                             (m_nNonAlphaExtraChannels st) st in
      if negb bOk then ReturnFalse (CPLError E_GetBasicInfoFailed (got st))
      else if (INT_MAX <? xsize i) || (INT_MAX <? ysize i)
      then ReturnFalse
             (CPLError E_TooBigRaster
                (set_info true i (eDT st) (m_nBits st) (l_nBands st)
                          (m_nNonAlphaExtraChannels st) st))
      else
        let dt := derive_eDT i (eDT st) in
        if GDALDataType_eqb dt GDT_Unknown
        then ReturnFalse
               (CPLError E_UnhandledDataType
                  (set_info true i dt (bits_per_sample i) (l_nBands st)
                            (m_nNonAlphaExtraChannels st) st))
        else Continue
               (set_info true i dt (bits_per_sample i)
                         (num_color_channels i + num_extra_channels i)
                         (derive_nNonAlphaExtraChannels i) st)
  | Box rel bTypeOk szType nRawSize bResizeThrows bSetBufferOk =>
      let st := set_osCurrentBox "" (close_open_box rel st) in
      if negb bTypeOk then Continue (CPLError W_GetBoxTypeFailed st)
      else if recognized szType then
        if nMaxBoxBufferSize <? nRawSize
        then Continue
               (CPLError (W_BoxOverCeiling szType nRawSize nMaxBoxBufferSize) st)
        else
          let set_buffer st :=
            if negb bSetBufferOk then Continue (CPLError W_SetBoxBufferFailed st)
            else Continue (set_osCurrentBox szType st) in
          if abyBoxBuffer_size st <? nRawSize then
            if SIZE_MAX / 2 <? nRawSize
            then Continue (CPLError (W_NotEnoughMemory szType) st)
            else if bResizeThrows
            then Continue
                   (CPLError (W_NotEnoughMemory szType)
                      (resize_abyBoxBuffer (1024 * 1024)
                         (failed_resize_abyBoxBuffer nRawSize 0 st)))
            else set_buffer (resize_abyBoxBuffer nRawSize st)
          else set_buffer st
      else if String.eqb szType "jbrd"
      then Continue (set_m_bHasJPEGReconstructionData st)
      else Continue st
  | ColorEncoding => Continue st
  | BoxNeedMoreOutput nRemaining bResizeThrows bSetBufferOk =>
      if SIZE_MAX / 2 <? abyBoxBuffer_size st
      then Continue
             (set_osCurrentBox "" (CPLError (W_NotEnoughMemory (osCurrentBox st)) st))
      else
        let nNewBoxBufferSize := abyBoxBuffer_size st * 2 in
        if nMaxBoxBufferSize <? nNewBoxBufferSize
        then Continue
               (set_osCurrentBox ""
                  (CPLError (W_BoxOverCeiling (osCurrentBox st) nNewBoxBufferSize
                                              nMaxBoxBufferSize) st))
        else if bResizeThrows
        then Continue
               (set_osCurrentBox ""
                  (CPLError (W_NotEnoughMemory (osCurrentBox st))
                     (failed_resize_abyBoxBuffer nNewBoxBufferSize
                                                 (abyBoxBuffer_size st) st)))
        else
          let st := resize_abyBoxBuffer nNewBoxBufferSize st in
          if negb bSetBufferOk
          then Continue (set_osCurrentBox "" (CPLError W_SetBoxBufferFailed st))
          else Continue st
  | Other status => Break (CPLError (W_UnexpectedEvent status) st)
  end.

(** After the loop: [if (!bGotInfo) return false;]; the bands, the PAM
    initialisation and [return true] follow. *)
Definition after_loop (st : State) : Outcome :=
  if bGotInfo st then Returned true st
  else Returned false (CPLError E_NoBasicInfo st).

(** The loop, over the script of what the engine and the file answer. *)
Fixpoint Open_loop (events : list Event) (st : State) : Outcome :=
  match events with
  | [] => Starved st
  | ev :: events =>
      match step ev st with
      | Continue st => Open_loop events st
      | Break st => after_loop st
      | ReturnFalse st => Returned false st
      end
  end.

Definition Open (events : list Event) : Outcome := Open_loop events initial_state.

(** Metadata retained from boxes of a kind is absent. *)
Definition metadata_absent (szType : string) (st : State) : Prop :=
  (szType = "xml "%string -> m_osXMP st = [])
  /\ (szType = "Exif"%string ->
      m_aosEXIFMetadata st = [] /\ m_abyEXIFBox st = [])
  /\ (szType = "jumb"%string -> abyJumbBoxBuffer st = []).

(** The invariant behind the absence of metadata: no box of the type is open
    and nothing of that type has been retained. *)
Definition untouched (szType : string) (st : State) : Prop :=
  osCurrentBox st <> szType /\ metadata_absent szType st.

Definition control_state (c : Control) : State :=
  match c with
  | Continue st | Break st | ReturnFalse st => st
  end.

(** No request made to [abyBoxBuffer.resize] is larger than the ceiling, or
    than the default size of one MiB the buffer starts with and falls back
    to. *)
Definition allocs_bounded (st : State) : Prop :=
  Forall (fun n => n <= Z.max nMaxBoxBufferSize (1024 * 1024)) (box_allocs st).

(** Every box of type [szType] that the script announces has a raw size
    above the ceiling. *)
Definition over_ceiling (szType : string) (ev : Event) : Prop :=
  match ev with
  | Box _ _ ty nRawSize _ _ => ty = szType -> nMaxBoxBufferSize < nRawSize
  | _ => True
  end.

End WithEnvironment.



(** The retained XMP: nothing, or a string that begins with the packet
    header. *)
Definition is_packet (osXML : list Z) : Prop :=
  osXML = [] \/ firstn 9 osXML = Jpeg.bytes_of_string "<?xpacket".

(** The metadata [Open] has retained from boxes: the XMP string, the EXIF
    box and list, the georeferencing payload. *)
Definition retained (st : State)
  : list Z * list Z * list string * list Z :=
  (m_osXMP st, m_abyEXIFBox st, m_aosEXIFMetadata st, abyJumbBoxBuffer st).

(** The default of [GDAL_JPEGXL_MAX_BOX_BUFFER_SIZE]. *)
Definition default_nMaxBoxBufferSize : Z := 100000000.

(** The EXIF dictionary service that finds nothing. *)
Definition no_EXIF (_ : list Z) : list string := [].

Definition nothing_released : BoxRelease :=
  {| box_bytes := []; nRemainingBytesInBuffer := 0; bThrows := false |}.

(** A container whose only metadata box is an "xml " box that declares
    200,000,000 raw bytes. *)
Definition script_with_huge_xml (i : JxlBasicInfo) : list Event :=
  [BasicInfo true i;
   Box nothing_released true "xml " 200000000 false true;
   Success nothing_released].

(** The ten bytes of "<?xpacket>". *)
Definition xpacket : list Z := [60; 63; 120; 112; 97; 99; 107; 101; 116; 62].

(** A container with two "xml " boxes: the first declares 10 raw bytes and
    holds an XMP packet, which the engine has written to the box buffer when
    the second box is announced; the second declares 200,000,000 raw
    bytes. *)
Definition script_small_then_huge_xml (i : JxlBasicInfo) : list Event :=
  [BasicInfo true i;
   Box nothing_released true "xml " 10 false true;
   Box {| box_bytes := xpacket;
          nRemainingBytesInBuffer := 1024 * 1024 - 10;
          bThrows := false |}
       true "xml " 200000000 false true;
   Success nothing_released].

(** Basic info of an 8-bit gray image of 4 by 4 pixels. *)
Definition gray_4x4 : JxlBasicInfo :=
  {| xsize := 4; ysize := 4; bits_per_sample := 8;
     exponent_bits_per_sample := 0; num_color_channels := 1;
     num_extra_channels := 0; alpha_bits := 0;
     uses_original_profile := true |}.

End OpenLoop.

(** * Pixel access: [GetDecodedImage], [IReadBlock], [IRasterIO] *)

Module Pixels.

Inductive CPLErr : Set := CE_None | CE_Failure.

(** Members fixed by [Open]. *)
Record Geometry : Set := {
  nRasterXSize : Z;
  nRasterYSize : Z;
  nBands : Z;
  m_nNonAlphaExtraChannels : Z;
  m_nBits : Z;
  eDT : GDALDataType
}.

(** Members the pixel accessors change.  Buffers hold one entry per sample.
    [nEngineCalls] counts the calls of [JxlDecoderRewind] and
    [JxlDecoderProcessInput] made so far. *)
Record Dataset : Set := {
  geometry : Geometry;
  m_bDecodingFailed : bool;
  m_abyImage : list Z;
  m_abyExtraChannels : list (list Z);
  nEngineCalls : nat
}.

Definition set_m_bDecodingFailed (ds : Dataset) : Dataset :=
  {| geometry := geometry ds;
     m_bDecodingFailed := true;
     m_abyImage := m_abyImage ds;
     m_abyExtraChannels := m_abyExtraChannels ds;
     nEngineCalls := nEngineCalls ds |}.

Definition set_m_abyImage (v : list Z) (ds : Dataset) : Dataset :=
  {| geometry := geometry ds;
     m_bDecodingFailed := m_bDecodingFailed ds;
     m_abyImage := v;
     m_abyExtraChannels := m_abyExtraChannels ds;
     nEngineCalls := nEngineCalls ds |}.

Definition set_m_abyExtraChannels (v : list (list Z)) (ds : Dataset) : Dataset :=
  {| geometry := geometry ds;
     m_bDecodingFailed := m_bDecodingFailed ds;
     m_abyImage := m_abyImage ds;
     m_abyExtraChannels := v;
     nEngineCalls := nEngineCalls ds |}.

Definition engine_call (ds : Dataset) : Dataset :=
  {| geometry := geometry ds;
     m_bDecodingFailed := m_bDecodingFailed ds;
     m_abyImage := m_abyImage ds;
     m_abyExtraChannels := m_abyExtraChannels ds;
     nEngineCalls := S (nEngineCalls ds) |}.

(** Answers of the engine about one output buffer: the size
    [Jxl...BufferSize] reports in bytes ([None] when that call fails),
    whether [JxlDecoderSet...Buffer] succeeds, and the samples the engine
    leaves in the buffer once it is registered. *)
Record BufferAnswer : Set := {
  buffer_size : option Z;
  bSetOk : bool;
  pixels : list Z
}.

(** One turn of the loop of [GetDecodedImage(void*, size_t)]:
    JXL_DEC_ERROR; JXL_DEC_NEED_MORE_INPUT with the count [VSIFReadL] returns
    and the success of [JxlDecoderSetInput]; JXL_DEC_SUCCESS;
    JXL_DEC_FULL_IMAGE; JXL_DEC_NEED_IMAGE_OUT_BUFFER with the answers for
    the primary buffer and for the extra-channel buffers; any other status. *)
Inductive Event : Set :=
| Error
| NeedMoreInput (nRead : Z) (bSetInputOk : bool)
| Success
| FullImage
| NeedImageOutBuffer (primary : BufferAnswer) (extra : list BufferAnswer)
| Other (status : Z).

(** What the environment does during one pixel access: the engine
    ([bSubscribeOk], [events]) and the allocator ([bImageAllocOk] for
    [m_abyImage.resize], [extraAllocOk] for each [m_abyExtraChannels[i].resize]). *)
Record Environment : Set := {
  bSubscribeOk : bool;
  events : list Event;
  bImageAllocOk : bool;
  extraAllocOk : list bool
}.

(** A computation that runs the engine: it finishes, or the script of events
    ends before the loop does. *)
Inductive Run (A : Type) : Type :=
| Done (a : A)
| Starved.
Arguments Done {A} a.
Arguments Starved {A}.

Definition nDataSize (ds : Dataset) : Z :=
  GDALGetDataTypeSizeBytes (eDT (geometry ds)).

Definition nNonExtraBands (ds : Dataset) : Z :=
  nBands (geometry ds) - m_nNonAlphaExtraChannels (geometry ds).

(** Size in bytes of a buffer of samples. *)
Definition byte_size (ds : Dataset) (v : list Z) : Z :=
  Z.of_nat (length v) * nDataSize ds.

(** The [for] loop over the extra channels in the JXL_DEC_NEED_IMAGE_OUT_BUFFER
    branch: [done] holds the buffers already registered, [todo] those still
    to come.  A failed size query, a size that differs from the buffer's, or
    a refused buffer set the failure flag and leave the loop; a script with
    no answer left counts as a failed query. *)
Fixpoint register_extra (ds : Dataset) (answers : list BufferAnswer)
    (done todo : list (list Z)) {struct todo} : Dataset :=
  match todo with
  | [] => set_m_abyExtraChannels done ds
  | ch :: todo' =>
      match answers with
      | [] => set_m_bDecodingFailed (set_m_abyExtraChannels (done ++ todo) ds)
      | a :: answers =>
          match buffer_size a with
          | None => set_m_bDecodingFailed (set_m_abyExtraChannels (done ++ todo) ds)
          | Some n =>
              if negb (n =? byte_size ds ch) || negb (bSetOk a)
              then set_m_bDecodingFailed
                     (set_m_abyExtraChannels (done ++ todo) ds)
              else register_extra ds answers (done ++ [pixels a]) todo'
          end
      end
  end.

(** The loop of [GetDecodedImage(void*, size_t)] on the output buffer [out]
    of [nOutputDataSize] bytes.  [Done] carries the buffer and the state at
    [break]; the engine fills a buffer when it is registered. *)
Fixpoint decode_loop (evs : list Event) (nOutputDataSize : Z)
    (out : list Z) (ds : Dataset) : Run (list Z * Dataset) :=
  match evs with
  | [] => Starved
  | ev :: evs =>
      let ds := engine_call ds in
      match ev with
      | Error => Done (out, set_m_bDecodingFailed ds)
      | NeedMoreInput nRead bSetInputOk =>
          if nRead =? 0 then Done (out, set_m_bDecodingFailed ds)
          else if negb bSetInputOk then Done (out, set_m_bDecodingFailed ds)
          else decode_loop evs nOutputDataSize out ds
      | Success => Done (out, ds)
      | FullImage => decode_loop evs nOutputDataSize out ds
      | NeedImageOutBuffer primary extra =>
          match buffer_size primary with
          | None => Done (out, set_m_bDecodingFailed ds)
          | Some n =>
              if negb (n =? nOutputDataSize) || negb (bSetOk primary)
              then Done (out, set_m_bDecodingFailed ds)
              else
                let count := Z.to_nat (m_nNonAlphaExtraChannels (geometry ds)) in
                let ds' :=
                  register_extra ds extra []
                    (firstn count (m_abyExtraChannels ds)) in
                let ds' :=
                  set_m_abyExtraChannels
                    (m_abyExtraChannels ds'
                     ++ skipn count (m_abyExtraChannels ds)) ds' in
                if m_bDecodingFailed ds' then Done (pixels primary, ds')
                else decode_loop evs nOutputDataSize (pixels primary) ds'
          end
      | Other _ => decode_loop evs nOutputDataSize out ds
      end
  end.

(** [GetDecodedImage(void *pabyOutputData, size_t nOutputDataSize)]: rewind,
    subscribe, run the loop, rescale. *)
Definition GetDecodedImage_into (env : Environment) (nOutputDataSize : Z)
    (pabyOutputData : list Z) (ds : Dataset) : Run (list Z * Dataset) :=
  let ds := engine_call ds in
  if negb (bSubscribeOk env) then Done (pabyOutputData, ds)
  else
    match decode_loop (events env) nOutputDataSize pabyOutputData ds with
    | Starved => Starved
    | Done (out, ds) =>
        let g := geometry ds in
        let '(out, extra) :=
          Rescale.rescale_decoded (eDT g) (m_nBits g) (nRasterXSize g)
            (nRasterYSize g) (nBands g) (m_nNonAlphaExtraChannels g)
            out (m_abyExtraChannels ds) in
        Done (out, set_m_abyExtraChannels extra ds)
    end.

(** The loop [for (i = 0; i < m_nNonAlphaExtraChannels; ++i)] of
    [GetDecodedImage()] that sizes the extra-channel buffers; on an
    allocation failure it sets the failure flag and returns. *)
Fixpoint allocate_extra (nSamples : nat) (allocs : list bool)
    (done : list (list Z)) (count : nat) (ds : Dataset) {struct count}
  : Dataset * bool :=
  match count with
  | O => (set_m_abyExtraChannels done ds, true)
  | S count' =>
      match allocs with
      | true :: allocs =>
          allocate_extra nSamples allocs (done ++ [repeat 0 nSamples]) count' ds
      | _ =>
          (set_m_bDecodingFailed
             (set_m_abyExtraChannels (done ++ repeat [] count) ds), false)
      end
  end.

(** [const std::vector<GByte> &GetDecodedImage()]: the state afterwards;
    the vector returned is its [m_abyImage]. *)
Definition GetDecodedImage (env : Environment) (ds : Dataset) : Run Dataset :=
  if m_bDecodingFailed ds || negb (Jpeg.size (m_abyImage ds) =? 0) then Done ds
  else
    let g := geometry ds in
    if Z.quot (Z.quot (Z.quot SIZE_MAX (nRasterYSize g)) (nDataSize ds))
              (nNonExtraBands ds) <? nRasterXSize g
    then Done (set_m_bDecodingFailed ds)
    else if negb (bImageAllocOk env) then Done (set_m_bDecodingFailed ds)
    else
      let nPixels := nRasterXSize g * nRasterYSize g in
      let ds :=
        set_m_abyImage (repeat 0 (Z.to_nat (nPixels * nNonExtraBands ds))) ds in
      let '(ds, ok) :=
        allocate_extra (Z.to_nat nPixels) (extraAllocOk env) []
          (Z.to_nat (m_nNonAlphaExtraChannels g)) ds in
      if negb ok then Done ds
      else
        match GetDecodedImage_into env (byte_size ds (m_abyImage ds))
                (m_abyImage ds) ds with
        | Starved => Starved
        | Done (out, ds) =>
            let ds := set_m_abyImage out ds in
            if m_bDecodingFailed ds then Done (set_m_abyImage [] ds)
            else Done ds
        end.

(** What a block read leaves in [pData]: the samples copied, or
    [OutOfBounds] when the copy would read outside its source buffer.  The
    source makes no such test: there its behaviour is undefined, and the
    model gives the samples no value. *)
Inductive Copied : Set :=
| Samples (row : list Z)
| OutOfBounds.

(** The [count] samples at [first], [first + stride], ... lie inside [v]. *)
Definition strided_inside (v : list Z) (first stride count : Z) : bool :=
  (count <=? 0)
  || ((0 <=? first) && (first <? Jpeg.size v)
      && (0 <=? first + (count - 1) * stride)
      && (first + (count - 1) * stride <? Jpeg.size v)).

(** The copy of [IReadBlock] stays inside the buffer it reads: the strided
    [GDALCopyWords] over [m_abyImage] for a band that is not an extra
    channel, the [memcpy] out of [m_abyExtraChannels[nIndex]] otherwise. *)
Definition block_inside (nBand nBlockYOff : Z) (ds : Dataset) : bool :=
  let g := geometry ds in
  if nBand <=? nNonExtraBands ds then
    strided_inside (m_abyImage ds)
      ((nBand - 1) + nBlockYOff * nRasterXSize g * nNonExtraBands ds)
      (nNonExtraBands ds) (nRasterXSize g)
  else
    let nIndex := nBand - 1 - nNonExtraBands ds in
    (nIndex <? Z.of_nat (length (m_abyExtraChannels ds)))
    && strided_inside (nth (Z.to_nat nIndex) (m_abyExtraChannels ds) [])
         (nBlockYOff * nRasterXSize g) 1 (nRasterXSize g).

(** [JPEGXLRasterBand::IReadBlock] for band [nBand] and row [nBlockYOff]:
    the error code, what is copied into [pData] (nothing on failure), the
    state afterwards. *)
Definition IReadBlock (nBand nBlockYOff : Z) (env : Environment) (ds : Dataset)
  : Run (CPLErr * Copied * Dataset) :=
  match GetDecodedImage env ds with
  | Starved => Starved
  | Done ds =>
      if Jpeg.size (m_abyImage ds) =? 0 then Done (CE_Failure, Samples [], ds)
      else
        let g := geometry ds in
        let row :=
          if nBand <=? nNonExtraBands ds then
            map (fun x =>
                   Jpeg.at_ (m_abyImage ds)
                     ((nBand - 1)
                      + (nBlockYOff * nRasterXSize g + Z.of_nat x)
                        * nNonExtraBands ds))
                (seq 0 (Z.to_nat (nRasterXSize g)))
          else
            Jpeg.range
              (nth (Z.to_nat (nBand - 1 - nNonExtraBands ds))
                   (m_abyExtraChannels ds) [])
              (nBlockYOff * nRasterXSize g)
              (nBlockYOff * nRasterXSize g + nRasterXSize g) in
        Done (CE_None,
              if block_inside nBand nBlockYOff ds then Samples row
              else OutOfBounds,
              ds)
  end.

(** The arguments of [JPEGXLDataset::IRasterIO] that select its path. *)
Record RasterIOArgs : Set := {
  bRead : bool;
  nXOff : Z;
  nYOff : Z;
  nXSize : Z;
  nYSize : Z;
  nBufXSize : Z;
  nBufYSize : Z;
  eBufType : GDALDataType;
  panBandMap : list Z;
  nPixelSpace : Z;
  nLineSpace : Z;
  nBandSpace : Z
}.

Definition nBandCount (a : RasterIOArgs) : Z := Z.of_nat (length (panBandMap a)).

(** The lambda [AreSequentialBands]. *)
Fixpoint AreSequentialBands (panItems : list Z) (i : Z) : bool :=
  match panItems with
  | [] => true
  | b :: panItems => (b =? i + 1) && AreSequentialBands panItems (i + 1)
  end.

(** The test that opens the whole-image code path. *)
Definition whole_image (a : RasterIOArgs) (ds : Dataset) : bool :=
  bRead a && (nXOff a =? 0) && (nYOff a =? 0)
  && (nXSize a =? nRasterXSize (geometry ds))
  && (nYSize a =? nRasterYSize (geometry ds))
  && (nBufXSize a =? nXSize a) && (nBufYSize a =? nYSize a).

Definition bIsPixelInterleaveBuffer (a : RasterIOArgs) (ds : Dataset) : bool :=
  let nBufTypeSize := GDALGetDataTypeSizeBytes (eBufType a) in
  (((nBandSpace a =? 0) && (nBandCount a =? 1)) || (nBandSpace a =? nBufTypeSize))
  && (nPixelSpace a =? nBufTypeSize * nBandCount a)
  && (nLineSpace a =? nPixelSpace a * nRasterXSize (geometry ds)).

(** The outcome of [IRasterIO]: an error code of its own paths, or the call
    of [GDALPamDataset::IRasterIO] for a request that is not the whole
    image. *)
Inductive RasterIOResult : Set :=
| Result (e : CPLErr)
| Delegated.

(** [JPEGXLDataset::IRasterIO], up to the copies into [pData]. *)
Definition IRasterIO (a : RasterIOArgs) (env : Environment) (ds : Dataset)
  : Run (RasterIOResult * Dataset) :=
  if whole_image a ds then
    if m_bDecodingFailed ds then Done (Result CE_Failure, ds)
    else
      let g := geometry ds in
      let bIsBandSequential := AreSequentialBands (panBandMap a) 0 in
      if GDALDataType_eqb (eBufType a) (eDT g) && bIsBandSequential
         && (nBandCount a =? nBands g) && (m_nNonAlphaExtraChannels g =? 0)
         && bIsPixelInterleaveBuffer a ds
      then
        match GetDecodedImage_into env
                (nRasterXSize g * nRasterYSize g * nBands g * nDataSize ds)
                (repeat 0 (Z.to_nat (nRasterXSize g * nRasterYSize g * nBands g)))
                ds with
        | Starved => Starved
        | Done (_, ds) =>
            Done (Result (if m_bDecodingFailed ds then CE_Failure else CE_None), ds)
        end
      else
        match GetDecodedImage env ds with
        | Starved => Starved
        | Done ds =>
            if Jpeg.size (m_abyImage ds) =? 0 then Done (Result CE_Failure, ds)
            else Done (Result CE_None, ds)
        end
  else Done (Delegated, ds).

(** A pixel access made through this driver. *)
Inductive Request : Set :=
| ReadBlock (nBand nBlockYOff : Z)
| RasterIO (a : RasterIOArgs).

Definition serve (r : Request) (env : Environment) (ds : Dataset)
  : Run (RasterIOResult * Dataset) :=
  match r with
  | ReadBlock nBand nBlockYOff =>
      match IReadBlock nBand nBlockYOff env ds with
      | Starved => Starved
      | Done (e, _, ds) => Done (Result e, ds)
      end
  | RasterIO a => IRasterIO a env ds
  end.

(** The allocator grants the primary buffer and every extra-channel buffer
    of the dataset. *)
Definition allocations_succeed (env : Environment) (ds : Dataset) : Prop :=
  bImageAllocOk env = true
  /\ exists more,
      extraAllocOk env
      = repeat true (Z.to_nat (m_nNonAlphaExtraChannels (geometry ds))) ++ more.

(** Requests served one after the other, each with the environment of its
    turn. *)
Fixpoint serve_all (rs : list (Request * Environment)) (ds : Dataset)
  : Run (list RasterIOResult * Dataset) :=
  match rs with
  | [] => Done ([], ds)
  | (r, env) :: rs =>
      match serve r env ds with
      | Starved => Starved
      | Done (res, ds) =>
          match serve_all rs ds with
          | Starved => Starved
          | Done (ress, ds) => Done (res :: ress, ds)
          end
      end
  end.

(** What a request is answered once the failure flag is set. *)
Definition answer_after_failure (ds : Dataset) (r : Request) : RasterIOResult :=
  match r with
  | ReadBlock _ _ =>
      Result (if Jpeg.size (m_abyImage ds) =? 0 then CE_Failure else CE_None)
  | RasterIO a => if whole_image a ds then Result CE_Failure else Delegated
  end.

(** A dataset of one row of two Byte pixels with one gray band, freshly
    opened, an engine that decodes it, and a request for the whole image in
    the native layout. *)
Definition gray_dataset : Dataset :=
  {| geometry := {| nRasterXSize := 2; nRasterYSize := 1; nBands := 1;
                    m_nNonAlphaExtraChannels := 0; m_nBits := 8;
                    eDT := GDT_Byte |};
     m_bDecodingFailed := false;
     m_abyImage := [];
     m_abyExtraChannels := [];
     nEngineCalls := 0 |}.

Definition engine_decodes : Environment :=
  {| bSubscribeOk := true;
     events :=
       [NeedImageOutBuffer
          {| buffer_size := Some 2; bSetOk := true; pixels := [10; 20] |} [];
        FullImage; Success];
     bImageAllocOk := true;
     extraAllocOk := [] |}.

Definition input_runs_dry : Environment :=
  {| bSubscribeOk := true;
     events := [NeedMoreInput 0 true];
     bImageAllocOk := true;
     extraAllocOk := [] |}.

Definition whole_gray_image : RasterIOArgs :=
  {| bRead := true; nXOff := 0; nYOff := 0; nXSize := 2; nYSize := 1;
     nBufXSize := 2; nBufYSize := 1; eBufType := GDT_Byte; panBandMap := [1];
     nPixelSpace := 1; nLineSpace := 2; nBandSpace := 0 |}.

(** A dataset of one row of two Byte pixels with a gray band and one extra
    channel that is not alpha, freshly opened. *)
Definition two_band_dataset : Dataset :=
  {| geometry := {| nRasterXSize := 2; nRasterYSize := 1; nBands := 2;
                    m_nNonAlphaExtraChannels := 1; m_nBits := 8;
                    eDT := GDT_Byte |};
     m_bDecodingFailed := false;
     m_abyImage := [];
     m_abyExtraChannels := [];
     nEngineCalls := 0 |}.

(** The allocation of the primary buffer succeeds, that of the extra-channel
    buffer throws; the engine would decode without error. *)
Definition extra_alloc_fails : Environment :=
  {| bSubscribeOk := true;
     events :=
       [NeedImageOutBuffer
          {| buffer_size := Some 2; bSetOk := true; pixels := [10; 20] |}
          [{| buffer_size := Some 2; bSetOk := true; pixels := [30; 40] |}];
        FullImage; Success];
     bImageAllocOk := true;
     extraAllocOk := [false] |}.

(** The test of [IRasterIO] under which the engine decodes straight into the
    caller's buffer. *)
Definition bUseOutputBuffer (a : RasterIOArgs) (ds : Dataset) : bool :=
  GDALDataType_eqb (eBufType a) (eDT (geometry ds))
  && AreSequentialBands (panBandMap a) 0
  && (nBandCount a =? nBands (geometry ds))
  && (m_nNonAlphaExtraChannels (geometry ds) =? 0)
  && bIsPixelInterleaveBuffer a ds.

(** The samples a block read copies into [pData]; a read that fails, is
    starved or would leave its source buffer gives none. *)
Definition block_row (nBand nBlockYOff : Z) (env : Environment) (ds : Dataset)
  : list Z :=
  match IReadBlock nBand nBlockYOff env ds with
  | Done (_, Samples row, _) => row
  | _ => []
  end.

(** The pixel-interleaved image put together from block reads: row by row
    and pixel by pixel, the sample of each band that is not an extra
    channel. *)
Definition image_from_blocks (env : Environment) (ds : Dataset) : list Z :=
  let g := geometry ds in
  flat_map
    (fun iY =>
       flat_map
         (fun iX =>
            map (fun iBand =>
                   nth iX (block_row (Z.of_nat iBand + 1) (Z.of_nat iY) env ds) 0)
                (seq 0 (Z.to_nat (nNonExtraBands ds))))
         (seq 0 (Z.to_nat (nRasterXSize g))))
    (seq 0 (Z.to_nat (nRasterYSize g))).

End Pixels.

(** * Channel layout, bit depth and threads chosen by [CreateCopy] *)

Module Layout.

Inductive GDALColorInterp : Set :=
| GCI_Undefined
| GCI_GrayIndex
| GCI_PaletteIndex
| GCI_RedBand
| GCI_GreenBand
| GCI_BlueBand
| GCI_AlphaBand
| GCI_Other.

Definition is_RedBand (c : GDALColorInterp) : bool :=
  match c with GCI_RedBand => true | _ => false end.
Definition is_GreenBand (c : GDALColorInterp) : bool :=
  match c with GCI_GreenBand => true | _ => false end.
Definition is_BlueBand (c : GDALColorInterp) : bool :=
  match c with GCI_BlueBand => true | _ => false end.
Definition is_AlphaBand (c : GDALColorInterp) : bool :=
  match c with GCI_AlphaBand => true | _ => false end.

(** [poSrcDS->GetRasterBand(n)->GetColorInterpretation()], bands counted
    from 1; the source dataset is the list of the interpretations of its
    bands. *)
Definition GetColorInterpretation (bands : list GDALColorInterp) (n : Z)
  : GDALColorInterp :=
  nth (Z.to_nat (n - 1)) bands GCI_Undefined.

Definition GetRasterCount (bands : list GDALColorInterp) : Z :=
  Z.of_nat (length bands).

(** [nBits]: the NBITS creation option, else the NBITS item of band 1 (both
    after [atoi]), used for Byte and UInt16 only. *)
Definition CreateCopy_nBits (eDT : GDALDataType)
    (pszNBitsOption pszNBitsMetadata : option Z) : Z :=
  let pszNBits :=
    match pszNBitsOption with
    | Some n => Some n
    | None => pszNBitsMetadata
    end in
  match pszNBits with
  | Some n =>
      if GDALDataType_eqb eDT GDT_Byte || GDALDataType_eqb eDT GDT_UInt16
      then n
      else GDALGetDataTypeSize eDT
  | None => GDALGetDataTypeSize eDT
  end.

(** [basic_info] and [bHasInterleavedAlphaBand] once the channel layout is
    decided. *)
Record Channels : Set := {
  basic_info : OpenLoop.JxlBasicInfo;
  bHasInterleavedAlphaBand : bool
}.

Definition alpha_count (c : Channels) : Z :=
  if bHasInterleavedAlphaBand c then 1 else 0.

Definition nBaseChannels (c : Channels) : Z :=
  cast_int (OpenLoop.num_color_channels (basic_info c) + alpha_count c).

(** The head of [CreateCopy]: the checks on the source, then the fields of
    [basic_info], starting from what [JxlEncoderInitBasicInfo] leaves in it
    ([init]).  [None] is [return nullptr]. *)
Definition CreateCopy_channels (init : OpenLoop.JxlBasicInfo)
    (nXSize nYSize : Z) (eDT : GDALDataType) (nBits : Z)
    (bands : list GDALColorInterp) : option Channels :=
  let nSrcBands := GetRasterCount bands in
  if (nXSize <=? 0) || (nYSize <=? 0) || (nSrcBands =? 0) then None
  else if GDALDataType_eqb eDT GDT_Unknown then None
  else
    let bits := cast_uint32 nBits in
    let mk color extra alpha :=
      {| OpenLoop.xsize := nXSize;
         OpenLoop.ysize := nYSize;
         OpenLoop.bits_per_sample := bits;
         OpenLoop.exponent_bits_per_sample :=
           if GDALDataType_eqb eDT GDT_Float32 then 8
           else OpenLoop.exponent_bits_per_sample init;
         OpenLoop.num_color_channels := color;
         OpenLoop.num_extra_channels := extra;
         OpenLoop.alpha_bits := alpha;
         OpenLoop.uses_original_profile := OpenLoop.uses_original_profile init |} in
    let interp := GetColorInterpretation bands in
    Some
      (if nSrcBands =? 1 then
         {| basic_info := mk 1 (OpenLoop.num_extra_channels init)
                             (OpenLoop.alpha_bits init);
            bHasInterleavedAlphaBand := false |}
       else if nSrcBands =? 2 then
         if is_AlphaBand (interp 2)
         then {| basic_info := mk 1 1 bits; bHasInterleavedAlphaBand := true |}
         else {| basic_info := mk 1 1 (OpenLoop.alpha_bits init);
                 bHasInterleavedAlphaBand := false |}
       else if is_RedBand (interp 1) && is_GreenBand (interp 2)
               && is_BlueBand (interp 3) then
         if (4 <=? nSrcBands) && is_AlphaBand (interp 4)
         then {| basic_info := mk 3 (cast_uint32 (nSrcBands - 3)) bits;
                 bHasInterleavedAlphaBand := true |}
         else {| basic_info := mk 3 (cast_uint32 (nSrcBands - 3))
                                  (OpenLoop.alpha_bits init);
                 bHasInterleavedAlphaBand := false |}
       else {| basic_info := mk 1 (cast_uint32 (nSrcBands - 1))
                                (OpenLoop.alpha_bits init);
               bHasInterleavedAlphaBand := false |}).

(** The values [i] takes in [for (int i = lo; i < hi; ++i)]. *)
Definition for_range (lo hi : Z) : list Z :=
  map (fun k => lo + Z.of_nat k) (seq 0 (Z.to_nat (hi - lo))).

(** The extra channels declared to the encoder when no JPEG is embedded:
    per turn of the loop, [nIndex], the source band [nBand] whose
    interpretation and name describe the channel, and whether the channel
    type is JXL_CHANNEL_ALPHA. *)
Definition declared_extra_channels (c : Channels)
    (bands : list GDALColorInterp) : list (Z * Z * bool) :=
  let info := basic_info c in
  if 0 <? OpenLoop.num_extra_channels info then
    map (fun i =>
           let nBand := cast_int (1 + OpenLoop.num_color_channels info + i) in
           (cast_uint32 i, nBand,
            is_AlphaBand (GetColorInterpretation bands nBand)))
        (for_range (alpha_count c) (cast_int (OpenLoop.num_extra_channels info)))
  else [].

(** The extra-channel buffers handed to the encoder behind the image frame:
    per turn of the loop, the index given to
    [JxlEncoderSetExtraChannelBuffer] and the source band read. *)
Definition extra_channel_buffers (c : Channels)
    (bands : list GDALColorInterp) : list (Z * Z) :=
  map (fun i => (i - nBaseChannels c + alpha_count c, i + 1))
      (for_range (nBaseChannels c) (GetRasterCount bands)).

(** A bit depth that the data type can hold, in the half of the range that
    [Open] maps back to that type. *)
Definition NBITS_fits (eDT : GDALDataType) (nBits : Z) : Prop :=
  match eDT with
  | GDT_Byte => 0 <= nBits <= 8
  | GDT_UInt16 => 8 < nBits <= 16
  | _ => True
  end.

(** The NBITS item the constructor of [JPEGXLRasterBand] sets, if any;
    [Open] calls it with [static_cast<int>(info.bits_per_sample)]. *)
Definition JPEGXLRasterBand_NBITS (eDataType : GDALDataType)
    (nBitsPerSample : Z) : option Z :=
  if (GDALDataType_eqb eDataType GDT_Byte && (nBitsPerSample <? 8))
     || (GDALDataType_eqb eDataType GDT_UInt16 && (nBitsPerSample <? 16))
  then Some nBitsPerSample
  else None.

(** The thread count of [Open] and [CreateCopy]: [pszNumThreads] is the
    NUM_THREADS option or GDAL_NUM_THREADS (default "ALL_CPUS"), [nCPUs] is
    [CPLGetNumCPUs()], [atoi_pszNumThreads] is [atoi(pszNumThreads)], and
    [nSuggested] is [JxlResizableParallelRunnerSuggestThreads(xsize, ysize)]. *)
Definition nThreads (pszNumThreads : string)
    (nCPUs atoi_pszNumThreads nSuggested : Z) : Z :=
  let nMaxThreads :=
    cast_uint32 (if Jpeg.EQUAL pszNumThreads "ALL_CPUS" then nCPUs
                 else atoi_pszNumThreads) in
  let nMaxThreads := if 1024 <? nMaxThreads then 1024 else nMaxThreads in
  Z.min nMaxThreads nSuggested.

(** What [JxlEncoderInitBasicInfo] leaves in the fields the driver does not
    always set. *)
Definition initialized (init : OpenLoop.JxlBasicInfo) : Prop :=
  OpenLoop.num_extra_channels init = 0
  /\ OpenLoop.alpha_bits init = 0
  /\ OpenLoop.exponent_bits_per_sample init = 0.

(** An RGB source with an alpha band and one further band. *)
Definition rgba_plus_one : list GDALColorInterp :=
  [GCI_RedBand; GCI_GreenBand; GCI_BlueBand; GCI_AlphaBand; GCI_Undefined].

(** The defaults libjxl's [JxlEncoderInitBasicInfo] writes, as an instance
    of [init]. *)
Definition JxlEncoderInitBasicInfo : OpenLoop.JxlBasicInfo :=
  {| OpenLoop.xsize := 0; OpenLoop.ysize := 0;
     OpenLoop.bits_per_sample := 8;
     OpenLoop.exponent_bits_per_sample := 0;
     OpenLoop.num_color_channels := 3;
     OpenLoop.num_extra_channels := 0;
     OpenLoop.alpha_bits := 0;
     OpenLoop.uses_original_profile := false |}.

End Layout.

(** * Properties *)

(** ** Machine integers *)

Lemma cast_int_small z : - 2 ^ 31 <= z < 2 ^ 31 -> cast_int z = z.
Proof.
  intros H. unfold cast_int.
  rewrite Z.mod_small; lia.
Qed.

Lemma cast_GByte_small z : 0 <= z < 256 -> cast_GByte z = z.
Proof. intros H. unfold cast_GByte. now apply Z.mod_small. Qed.

Lemma cast_uint16_small z : 0 <= z < 65536 -> cast_uint16 z = z.
Proof. intros H. unfold cast_uint16. now apply Z.mod_small. Qed.

Lemma quot_div_nonneg a d : 0 <= a -> 0 < d -> Z.quot a d = a / d.
Proof. intros Ha Hd. apply Z.quot_div_nonneg; lia. Qed.

Lemma div_sandwich a d : 0 < d -> d * (a / d) <= a < d * (a / d) + d.
Proof.
  intros Hd. pose proof (Z.div_mod a d ltac:(lia)) as E.
  pose proof (Z.mod_pos_bound a d Hd). lia.
Qed.

(** ** Bit-depth rescaling *)

Module RescaleFacts.
Import Rescale.

Lemma pow2_bounds b hi : 1 <= b <= hi -> 2 <= 2 ^ b <= 2 ^ hi.
Proof.
  intros H. split.
  - change 2 with (2 ^ 1) at 1. apply Z.pow_le_mono_r; lia.
  - apply Z.pow_le_mono_r; lia.
Qed.

Lemma nMaxVal_eq b : 0 <= b < 31 -> nMaxVal b = 2 ^ b - 1.
Proof.
  intros H. unfold nMaxVal.
  rewrite Z.shiftl_1_l.
  assert (0 < 2 ^ b) by (apply Z.pow_pos_nonneg; lia).
  assert (2 ^ b < 2 ^ 31) by (apply Z.pow_lt_mono_r; lia).
  rewrite (cast_int_small (2 ^ b)) by lia.
  apply cast_int_small. lia.
Qed.

Lemma sub_width_max eDT b :
  sub_width eDT b ->
  nMaxVal b = 2 ^ b - 1 /\ 1 <= 2 ^ b - 1 /\ 2 * (2 ^ b - 1) < container_max eDT
  /\ container_max eDT = 2 * nHalfMaxWidth eDT + 1
  /\ (container_max eDT = 255 \/ container_max eDT = 65535).
Proof.
  intros [[-> Hb] | [-> Hb]]; cbn [container_max nHalfMaxWidth].
  - pose proof (pow2_bounds b 7 ltac:(lia)) as P. change (2 ^ 7) with 128 in P.
    rewrite nMaxVal_eq by lia. lia.
  - pose proof (pow2_bounds b 15 ltac:(lia)) as P. change (2 ^ 15) with 32768 in P.
    rewrite nMaxVal_eq by lia. lia.
Qed.

(** The decode lambda computes [(v * (2^b - 1) + half) / max] without any
    wrap-around. *)
Lemma decode_sample_eq eDT b v :
  sub_width eDT b -> 0 <= v <= container_max eDT ->
  decode_sample eDT b v
  = (v * (2 ^ b - 1) + nHalfMaxWidth eDT) / container_max eDT.
Proof.
  intros Hw Hv. destruct (sub_width_max eDT b Hw) as (EM & M1 & M2 & HT & _).
  set (M := 2 ^ b - 1) in *.
  assert (Hq : 0 <= (v * M + nHalfMaxWidth eDT) / container_max eDT < 2 ^ b).
  { pose proof (div_sandwich (v * M + nHalfMaxWidth eDT) (container_max eDT)
                             ltac:(lia)). nia. }
  destruct Hw as [[-> Hb] | [-> Hb]];
    cbn [decode_sample container_max nHalfMaxWidth] in *; rewrite EM.
  - pose proof (pow2_bounds b 7 ltac:(lia)) as P. change (2 ^ 7) with 128 in P.
    rewrite (cast_int_small (v * M)) by nia.
    rewrite cast_int_small by nia.
    rewrite quot_div_nonneg by nia.
    apply cast_GByte_small. lia.
  - pose proof (pow2_bounds b 15 ltac:(lia)) as P. change (2 ^ 15) with 32768 in P.
    rewrite (cast_int_small (v * M)) by nia.
    rewrite cast_int_small by nia.
    rewrite quot_div_nonneg by nia.
    apply cast_uint16_small. lia.
Qed.

(** The encode lambda computes [(min(v, 2^b - 1) * max + (2^b - 1) / 2) / (2^b - 1)]
    without any wrap-around. *)
Lemma encode_sample_eq eDT b v :
  sub_width eDT b -> 0 <= v ->
  encode_sample eDT b v
  = (Z.min v (2 ^ b - 1) * container_max eDT + (2 ^ b - 1) / 2) / (2 ^ b - 1).
Proof.
  intros Hw Hv. destruct (sub_width_max eDT b Hw) as (EM & M1 & M2 & HT & _).
  set (M := 2 ^ b - 1) in *.
  assert (Hh : 0 <= M / 2 /\ 2 * (M / 2) <= M).
  { pose proof (div_sandwich M 2 ltac:(lia)). lia. }
  assert (Hm : 0 <= Z.min v M <= M) by lia.
  assert (Hq : 0 <= (Z.min v M * container_max eDT + M / 2) / M <= container_max eDT).
  { pose proof (div_sandwich (Z.min v M * container_max eDT + M / 2) M ltac:(lia)).
    nia. }
  destruct Hw as [[-> Hb] | [-> Hb]];
    cbn [encode_sample container_max nHalfMaxWidth] in *; rewrite EM;
    fold M; rewrite (quot_div_nonneg M 2) by lia.
  - pose proof (pow2_bounds b 7 ltac:(lia)) as P. change (2 ^ 7) with 128 in P.
    rewrite (cast_int_small (Z.min v M * 255)) by nia.
    rewrite cast_int_small by nia.
    rewrite quot_div_nonneg by nia.
    apply cast_GByte_small. lia.
  - pose proof (pow2_bounds b 15 ltac:(lia)) as P. change (2 ^ 15) with 32768 in P.
    rewrite (cast_int_small (Z.min v M * 65535)) by nia.
    rewrite cast_int_small by nia.
    rewrite quot_div_nonneg by nia.
    apply cast_uint16_small. lia.
Qed.

(** Rounding: the decode lambda returns the integer nearest to
    [v * (2^b - 1) / max], which lies in [0, 2^b - 1]. *)
Lemma decode_sample_nearest eDT b v :
  sub_width eDT b -> 0 <= v <= container_max eDT ->
  0 <= decode_sample eDT b v <= 2 ^ b - 1
  /\ 2 * Z.abs (decode_sample eDT b v * container_max eDT - v * (2 ^ b - 1))
     < container_max eDT.
Proof.
  intros Hw Hv. rewrite decode_sample_eq by assumption.
  destruct (sub_width_max eDT b Hw) as (_ & M1 & M2 & HT & _).
  pose proof (div_sandwich (v * (2 ^ b - 1) + nHalfMaxWidth eDT)
                           (container_max eDT) ltac:(lia)) as D.
  set (r := (v * (2 ^ b - 1) + nHalfMaxWidth eDT) / container_max eDT) in *.
  split; [nia | lia].
Qed.

(** Decoding what the encode lambda produced gives the sample back. *)
Lemma decode_encode_sample eDT b s :
  sub_width eDT b -> 0 <= s <= 2 ^ b - 1 ->
  decode_sample eDT b (encode_sample eDT b s) = s.
Proof.
  intros Hw Hs. destruct (sub_width_max eDT b Hw) as (_ & M1 & M2 & HT & _).
  rewrite encode_sample_eq by (assumption || lia).
  rewrite Z.min_l by lia.
  set (M := 2 ^ b - 1) in *. set (T := container_max eDT) in *.
  set (H := nHalfMaxWidth eDT) in *.
  pose proof (div_sandwich M 2 ltac:(lia)) as Dh.
  pose proof (div_sandwich (s * T + M / 2) M ltac:(lia)) as De.
  set (e := (s * T + M / 2) / M) in *.
  assert (He : 0 <= e <= T) by nia.
  rewrite decode_sample_eq by (assumption || (subst T; lia)).
  fold M T H.
  symmetry. apply (Z.div_unique_pos _ _ s (e * M + H - s * T)); lia.
Qed.

Lemma over_samples_all f n (l : list Z) :
  length l = Z.to_nat n -> over_samples f n l = map f l.
Proof.
  intros E. unfold over_samples.
  now rewrite <- E, firstn_all, skipn_all, app_nil_r.
Qed.

Lemma map_ext_Forall (P : Z -> Prop) (f g : Z -> Z) l :
  (forall v, P v -> f v = g v) -> Forall P l -> map f l = map g l.
Proof.
  intros E F. apply map_ext_in. intros v Hv.
  apply E. rewrite Forall_forall in F. now apply F.
Qed.

Lemma Rescale_decode_all eDT b X Y nCh buf :
  sub_width eDT b ->
  Forall (fun v => 0 <= v <= container_max eDT) buf ->
  length buf = Z.to_nat (X * Y * nCh) ->
  Rescale_decode eDT b X Y buf nCh
  = map (fun v => (v * (2 ^ b - 1) + nHalfMaxWidth eDT) / container_max eDT) buf.
Proof.
  intros Hw Hr Hl. unfold Rescale_decode.
  rewrite over_samples_all by assumption.
  apply map_ext_Forall with (2 := Hr).
  intros v Hv. now apply decode_sample_eq.
Qed.

(** C3, as the specification states it, fails: for a 4-bit image in a Byte
    container the decode lambda sends the sample 15 to 1, where the formula
    [round(s * 255 / 15)] gives 255. *)
Lemma decode_is_not_expand :
  decode_sample GDT_Byte 4 15 = 1
  /\ spec_expand 8 4 15 = 255
  /\ decode_sample GDT_Byte 4 15 <> spec_expand 8 4 15.
Proof. repeat split. discriminate. Qed.

(** C3, amended: on decode, when the declared bit depth [b] is below the
    container width, the rescaling step maps every container sample
    [v] in [0, 2^target - 1] to [(v * (2^b - 1) + half) / (2^target - 1)]
    with [half] = 127 resp. 32767, that is to the integer of [0, 2^b - 1]
    nearest to [v * (2^b - 1) / (2^target - 1)]; it does so for every sample of
    the primary buffer and of each extra-channel buffer. *)
Theorem decode_rescale_compresses eDT b X Y nBands nExtra buf extras :
  sub_width eDT b ->
  Forall (fun v => 0 <= v <= container_max eDT) buf ->
  Forall (Forall (fun v => 0 <= v <= container_max eDT)) extras ->
  length buf = Z.to_nat (X * Y * (nBands - nExtra)) ->
  Forall (fun ch => length ch = Z.to_nat (X * Y * 1)) extras ->
  length extras = Z.to_nat nExtra ->
  let f v := (v * (2 ^ b - 1) + nHalfMaxWidth eDT) / container_max eDT in
  rescale_decoded eDT b X Y nBands nExtra buf extras
  = (map f buf, map (map f) extras)
  /\ forall v, 0 <= v <= container_max eDT ->
       0 <= f v <= 2 ^ b - 1
       /\ 2 * Z.abs (f v * container_max eDT - v * (2 ^ b - 1))
          < container_max eDT.
Proof.
  intros Hw Hbuf Hex Hlen Hlex Hn f. split.
  - unfold rescale_decoded.
    assert (Hlt : (b <? GDALGetDataTypeSize eDT) = true).
    { apply Z.ltb_lt. destruct Hw as [[-> ?] | [-> ?]]; cbn; lia. }
    rewrite Hlt, <- Hn, firstn_all, skipn_all, app_nil_r. f_equal.
    + now apply Rescale_decode_all.
    + apply map_ext_in. intros ch Hch.
      rewrite Forall_forall in Hex, Hlex.
      apply Rescale_decode_all; auto.
  - intros v Hv. subst f. cbv beta.
    rewrite <- decode_sample_eq by assumption.
    now apply decode_sample_nearest.
Qed.

Lemma decode_rescale_compresses_witness :
  Rescale.rescale_decoded GDT_Byte 4 2 1 2 1 [255; 128] [[17; 0]]
  = ([15; 8], [[1; 0]]).
Proof.
  refine (eq_trans
            (proj1 (decode_rescale_compresses GDT_Byte 4 2 1 2 1 [255; 128]
                      [[17; 0]] _ _ _ _ _ _)) _).
  - left. split; [reflexivity | lia].
  - repeat constructor; cbn; lia.
  - repeat constructor; cbn; lia.
  - reflexivity.
  - repeat constructor.
  - reflexivity.
  - reflexivity.
Defined.

(** C4: for every declared bit depth [b] in 1..7 over a Byte container and
    9..15 over a UInt16 container and every sample [s] in [0, 2^b - 1],
    widening [s] with the encode-side lambda and narrowing the result with the
    decode-side lambda gives a value within 1 of [s]. *)
Theorem rescale_round_trip eDT b s :
  (eDT = GDT_Byte /\ 1 <= b <= 7) \/ (eDT = GDT_UInt16 /\ 9 <= b <= 15) ->
  0 <= s <= 2 ^ b - 1 ->
  Z.abs (decode_sample eDT b (encode_sample eDT b s) - s) <= 1.
Proof.
  intros Hb Hs.
  rewrite decode_encode_sample; [lia | | assumption].
  destruct Hb as [[-> Hb] | [-> Hb]]; [left | right]; split; (reflexivity || lia).
Qed.

(** The order matters: narrowing first and widening afterwards does not give
    a 2-bit sample back (3 goes to 0), so the round trip of C4 is the one that
    widens first, which is also the order of an encode followed by a
    decode. *)
Remark widen_after_narrow_loses :
  encode_sample GDT_Byte 2 (decode_sample GDT_Byte 2 3) = 0.
Proof. reflexivity. Qed.

Lemma rescale_round_trip_witness :
  Z.abs (Rescale.decode_sample GDT_UInt16 12
           (Rescale.encode_sample GDT_UInt16 12 4095) - 4095) <= 1.
Proof.
  apply (rescale_round_trip GDT_UInt16 12 4095).
  - right. split; [reflexivity | lia].
  - cbn. lia.
Defined.

(** ** Further properties of the two lambdas *)

(** X1: The encode lambda keeps the scale: 0 stays 0, the largest declared
    sample and everything above it (clamped) become the largest container
    sample, the result never leaves the container range, and the order of
    samples is kept. *)
Theorem encode_sample_scale eDT b :
  sub_width eDT b ->
  encode_sample eDT b 0 = 0
  /\ (forall v, 2 ^ b - 1 <= v -> encode_sample eDT b v = container_max eDT)
  /\ (forall v, 0 <= v -> 0 <= encode_sample eDT b v <= container_max eDT)
  /\ (forall v w, 0 <= v <= w -> encode_sample eDT b v <= encode_sample eDT b w).
Proof.
  intros Hw. destruct (sub_width_max eDT b Hw) as (_ & M1 & M2 & HT & _).
  set (M := 2 ^ b - 1) in *. set (T := container_max eDT) in *.
  pose proof (div_sandwich M 2 ltac:(lia)) as Dh.
  assert (Hmono : forall v w, 0 <= v <= w ->
                              (Z.min v M * T + M / 2) / M
                              <= (Z.min w M * T + M / 2) / M).
  { intros v w Hvw. apply Z.div_le_mono; [lia|]. nia. }
  assert (H0 : (Z.min 0 M * T + M / 2) / M = 0).
  { rewrite Z.min_l by lia. apply Z.div_small. lia. }
  assert (Htop : forall v, M <= v -> (Z.min v M * T + M / 2) / M = T).
  { intros v Hv. rewrite Z.min_r by lia.
    symmetry. apply (Z.div_unique_pos _ _ T (M / 2)); lia. }
  split; [|split; [|split]].
  - rewrite encode_sample_eq by (assumption || lia). exact H0.
  - intros v Hv. rewrite encode_sample_eq by (assumption || lia). now apply Htop.
  - intros v Hv. rewrite encode_sample_eq by assumption. fold M T.
    pose proof (Hmono 0 v ltac:(lia)) as Hlo.
    pose proof (Hmono v (Z.max v M) ltac:(lia)) as Hhi.
    rewrite H0 in Hlo. rewrite (Htop (Z.max v M)) in Hhi by lia. lia.
  - intros v w Hvw. rewrite !encode_sample_eq by (assumption || lia).
    now apply Hmono.
Qed.

Lemma encode_sample_scale_witness :
  Rescale.encode_sample GDT_Byte 4 0 = 0
  /\ Rescale.encode_sample GDT_Byte 4 200 = 255.
Proof.
  assert (W : Rescale.sub_width GDT_Byte 4)
    by (left; split; [reflexivity | lia]).
  destruct (encode_sample_scale GDT_Byte 4 W) as (H0 & Htop & _).
  split; [exact H0|]. apply Htop. cbn. lia.
Defined.

(** X2: The decode lambda keeps the scale the other way: 0 stays 0, the largest
    container sample becomes the largest declared sample, and the order of
    samples is kept. *)
Theorem decode_sample_scale eDT b :
  sub_width eDT b ->
  decode_sample eDT b 0 = 0
  /\ decode_sample eDT b (container_max eDT) = 2 ^ b - 1
  /\ (forall v w, 0 <= v <= w -> w <= container_max eDT ->
                  decode_sample eDT b v <= decode_sample eDT b w).
Proof.
  intros Hw. destruct (sub_width_max eDT b Hw) as (_ & M1 & M2 & HT & _).
  set (M := 2 ^ b - 1) in *. set (T := container_max eDT) in *.
  set (H := nHalfMaxWidth eDT) in *.
  repeat split.
  - rewrite decode_sample_eq by (assumption || (fold T; lia)).
    fold M T H. apply Z.div_small. lia.
  - rewrite decode_sample_eq by (assumption || (fold T; lia)).
    fold M T H. symmetry. apply (Z.div_unique_pos _ _ M H); lia.
  - intros v w Hvw Hwt.
    rewrite !decode_sample_eq by (assumption || (fold T; lia)).
    fold M T H. apply Z.div_le_mono; [lia | nia].
Qed.

Lemma decode_sample_scale_witness :
  Rescale.decode_sample GDT_UInt16 12 0 = 0
  /\ Rescale.decode_sample GDT_UInt16 12 65535 = 4095.
Proof.
  assert (W : Rescale.sub_width GDT_UInt16 12)
    by (right; split; [reflexivity | lia]).
  destruct (decode_sample_scale GDT_UInt16 12 W) as (H0 & Htop & _).
  split; [exact H0 | exact Htop].
Defined.

(** X3: Whole buffers: a buffer of declared-depth samples that goes through the
    encode lambda and then through the decode lambda comes back unchanged. *)
Theorem Rescale_buffer_round_trip eDT b X Y nChannels buf :
  sub_width eDT b ->
  Forall (fun s => 0 <= s <= 2 ^ b - 1) buf ->
  length buf = Z.to_nat (X * Y * nChannels) ->
  Rescale_decode eDT b X Y (Rescale_encode eDT b X Y buf nChannels) nChannels
  = buf.
Proof.
  intros Hw Hbuf Hlen. unfold Rescale_encode, Rescale_decode.
  assert (G : (GDALDataType_eqb eDT GDT_Byte && (b <? 8))
              || (GDALDataType_eqb eDT GDT_UInt16 && (b <? 16)) = true).
  { destruct Hw as [[-> Hb] | [-> Hb]]; cbn [GDALDataType_eqb andb orb].
    - rewrite (proj2 (Z.ltb_lt b 8)) by lia. reflexivity.
    - rewrite (proj2 (Z.ltb_lt b 16)) by lia. reflexivity. }
  rewrite G.
  rewrite (over_samples_all (encode_sample eDT b)) by assumption.
  rewrite over_samples_all by (now rewrite length_map).
  rewrite map_map. rewrite <- (map_id buf) at 2.
  apply map_ext_Forall with (2 := Hbuf).
  intros s Hs. now apply decode_encode_sample.
Qed.

Lemma Rescale_buffer_round_trip_witness :
  Rescale.Rescale_decode GDT_Byte 4 2 1
    (Rescale.Rescale_encode GDT_Byte 4 2 1 [15; 7] 1) 1
  = [15; 7].
Proof.
  apply (Rescale_buffer_round_trip GDT_Byte 4 2 1 1 [15; 7]).
  - left. split; [reflexivity | lia].
  - repeat constructor; cbn; lia.
  - reflexivity.
Defined.

End RescaleFacts.

(** ** Compression mode and distance *)

Module CompressionFacts.
Import Compression.

(** The literals [0.1f], [1.0f] and [6.4f] as binary32 values. *)
Lemma float_lit_0_1 : float_lit 1 10 = S754_finite false 13421773 (-27).
Proof. reflexivity. Qed.

Lemma float_1 : float_of_Z 1 = S754_finite false 8388608 (-23).
Proof. reflexivity. Qed.

Lemma float_lit_6_4 : float_lit 64 10 = S754_finite false 13421773 (-21).
Proof. reflexivity. Qed.

(** C1, as stated, fails: with QUALITY=100 alone the distance handed to the
    encoder is not 0. *)
Lemma quality_100_distance_not_zero :
  CreateCopy_compression pow_nan None None (Some (double_of_Z 100))
  <> SetFrameDistance (float_of_Z 0)
  /\ CreateCopy_compression pow_nan None None (Some (double_of_Z 100))
     <> SetFrameDistance (S754_zero true).
Proof. split; discriminate. Qed.

(** C1, amended: with QUALITY=100 (and any quality of at least 100; no
    DISTANCE, no LOSSLESS) the formula gives 0, which the floor
    [0 <= fDistance < 0.1f] raises to [0.1f]; the distance configured on the
    encoder is [0.1f]. *)
Theorem quality_100_distance pow quality :
  fge quality (double_of_Z 100) = true ->
  quality_to_distance pow quality = float_of_Z 0
  /\ CreateCopy_compression pow None None (Some quality)
     = SetFrameDistance (float_lit 1 10).
Proof.
  intros H.
  assert (E : quality_to_distance pow quality = float_of_Z 0)
    by (unfold quality_to_distance; now rewrite H).
  split; [exact E|].
  unfold CreateCopy_compression, lossy_distance. cbn [bLossless non_null andb orb].
  now rewrite E.
Qed.

Lemma quality_100_distance_witness :
  Compression.CreateCopy_compression Compression.pow_nan None None
    (Some (Compression.double_of_Z 100))
  = Compression.SetFrameDistance (S754_finite false 13421773 (-27)).
Proof.
  apply (proj2 (quality_100_distance Compression.pow_nan
                  (Compression.double_of_Z 100) eq_refl)).
Defined.

(** C2, as stated, fails: with QUALITY=30 alone the distance is above 6, far
    from 0.1. *)
Lemma quality_30_distance_not_0_1 :
  exists d,
    CreateCopy_compression pow_nan None None (Some (double_of_Z 30))
    = SetFrameDistance d
    /\ flt (float_of_Z 6) d = true.
Proof. eexists. split; reflexivity. Qed.

(** C2, amended: with QUALITY=30 (no DISTANCE, no LOSSLESS) the computed
    distance is [0.1 + 70 * 0.09] rounded to binary32, which is the [float]
    nearest to 6.4, the upper end of the linear segment; the value 0.1 is the
    other end of that segment, reached as the quality approaches 100. *)
Theorem quality_30_distance pow :
  CreateCopy_compression pow None None (Some (double_of_Z 30))
  = SetFrameDistance (float_lit 64 10).
Proof. reflexivity. Qed.

(** C10: in lossy mode with neither DISTANCE nor QUALITY (that is LOSSLESS
    set to a false value and nothing else) the distance configured on the
    encoder is exactly [1.0f]. *)
Theorem default_lossy_distance pow pszLossLess :
  bLossless pszLossLess None None = false ->
  CreateCopy_compression pow pszLossLess None None
  = SetFrameDistance (float_of_Z 1).
Proof.
  destruct pszLossLess as [[|]|]; cbn; intros H; try discriminate.
  reflexivity.
Qed.

Lemma default_lossy_distance_witness :
  Compression.CreateCopy_compression Compression.pow_nan (Some false) None None
  = Compression.SetFrameDistance (S754_finite false 8388608 (-23)).
Proof.
  apply (default_lossy_distance Compression.pow_nan (Some false)).
  reflexivity.
Defined.

(** ** Further properties of the option block *)

(** X4: Which option sets are refused and which select the lossless mode:
    [CreateCopy] stops with a "mutually exclusive" error exactly when
    LOSSLESS is set to a true value together with DISTANCE or QUALITY, or
    when DISTANCE and QUALITY are both given; it selects the lossless mode
    exactly when neither DISTANCE nor QUALITY is given and LOSSLESS is absent
    or true.  LOSSLESS set to a false value never conflicts with anything. *)
Theorem option_sets pow pszLossLess pszDistance pszQuality :
  ((exists msg,
       CreateCopy_compression pow pszLossLess pszDistance pszQuality
       = MutuallyExclusive msg)
   <-> (pszLossLess = Some true
        /\ (non_null pszDistance = true \/ non_null pszQuality = true))
       \/ (non_null pszDistance = true /\ non_null pszQuality = true))
  /\ (CreateCopy_compression pow pszLossLess pszDistance pszQuality = SetLossless
      <-> (pszLossLess = None \/ pszLossLess = Some true)
          /\ pszDistance = None /\ pszQuality = None).
Proof.
  destruct pszLossLess as [[|]|], pszDistance as [d|], pszQuality as [q|];
    cbv [CreateCopy_compression bLossless non_null andb orb];
    (split; split;
     [ try (intros [msg Hmsg]; discriminate Hmsg); intuition auto
     | try (intros _; eexists; reflexivity);
       intuition (try discriminate; try congruence)
     | try discriminate; intuition auto
     | intuition (try discriminate; try congruence) ]).
Qed.

(** X5: Whatever the options, the distance handed to the encoder is never in
    [0, 0.1): such a value is replaced by [0.1f]. *)
Theorem distance_floor pow pszLossLess pszDistance pszQuality fDistance :
  CreateCopy_compression pow pszLossLess pszDistance pszQuality
  = SetFrameDistance fDistance ->
  fge fDistance (float_of_Z 0) && flt fDistance (float_lit 1 10) = false.
Proof.
  unfold CreateCopy_compression.
  repeat match goal with
         | |- context [if ?c then _ else _] =>
             lazymatch c with
             | context [lossy_distance] => fail
             | _ => destruct c
             end
         end; try discriminate.
  intros [= <-]. unfold lossy_distance.
  match goal with
  | |- context [if ?c then _ else _] => destruct c eqn:E
  end; [reflexivity | exact E].
Qed.

Lemma distance_floor_witness :
  Compression.fge (Compression.float_lit 1 10) (Compression.float_of_Z 0)
  && Compression.flt (Compression.float_lit 1 10) (Compression.float_lit 1 10)
  = false.
Proof.
  apply (distance_floor Compression.pow_nan None
           (Some (Compression.double_lit 5 100)) None
           (Compression.float_lit 1 10)).
  reflexivity.
Defined.

(** X6: On the integer qualities of the linear segment, 30 to 99, the floor is
    idle and one more point of quality gives a strictly smaller distance
    (down to 0 from the formula at 100). *)
Theorem linear_segment_decreases pow q :
  30 <= q <= 99 ->
  lossy_distance pow None (Some (double_of_Z q))
  = quality_to_distance pow (double_of_Z q)
  /\ flt (quality_to_distance pow (double_of_Z (q + 1)))
         (quality_to_distance pow (double_of_Z q)) = true.
Proof.
  intros Hq.
  set (check := fun k : nat =>
    let q := 30 + Z.of_nat k in
    negb (fge (quality_to_distance pow (double_of_Z q)) (float_of_Z 0)
          && flt (quality_to_distance pow (double_of_Z q)) (float_lit 1 10))
    && flt (quality_to_distance pow (double_of_Z (q + 1)))
           (quality_to_distance pow (double_of_Z q))).
  assert (All : forallb check (seq 0 70) = true) by (vm_compute; reflexivity).
  rewrite forallb_forall in All.
  specialize (All (Z.to_nat (q - 30))).
  assert (Hin : In (Z.to_nat (q - 30)) (seq 0 70)) by (apply in_seq; lia).
  specialize (All Hin). subst check. cbv beta zeta in All.
  replace (30 + Z.of_nat (Z.to_nat (q - 30))) with q in All by lia.
  apply andb_true_iff in All as [Hfloor Hdec].
  split; [|exact Hdec].
  unfold lossy_distance.
  apply negb_true_iff in Hfloor. now rewrite Hfloor.
Qed.

Lemma linear_segment_decreases_witness :
  Compression.flt
    (Compression.quality_to_distance Compression.pow_nan
       (Compression.double_of_Z (90 + 1)))
    (Compression.quality_to_distance Compression.pow_nan
       (Compression.double_of_Z 90)) = true.
Proof.
  assert (H : 30 <= 90 <= 99) by lia.
  exact (proj2 (linear_segment_decreases Compression.pow_nan 90 H)).
Defined.

End CompressionFacts.

(** ** Marker segments of JPEG codestreams *)

Module JpegFacts.
Import Jpeg.

Lemma size_nonneg v : 0 <= size v.
Proof. unfold size. lia. Qed.

Lemma size_app a b : size (a ++ b) = size a + size b.
Proof. unfold size. rewrite length_app. lia. Qed.

Lemma size_cons x v : size (x :: v) = 1 + size v.
Proof. unfold size. cbn [length]. lia. Qed.

Lemma size_nil : size [] = 0.
Proof. reflexivity. Qed.

Lemma at_nth v i : 0 <= i < size v -> at_ v i = nth (Z.to_nat i) v 0.
Proof.
  intros H. unfold at_.
  destruct (Z.leb_spec 0 i); [|lia].
  destruct (Z.ltb_spec i (size v)); [reflexivity | lia].
Qed.

Lemma at_outside v i : size v <= i -> at_ v i = 0.
Proof.
  intros H. unfold at_.
  destruct (Z.ltb_spec i (size v)); [lia|].
  now rewrite andb_false_r.
Qed.

(** Reading [k] bytes after a prefix. *)
Lemma at_app_off pre v i k :
  i = size pre + k -> 0 <= k -> at_ (pre ++ v) i = at_ v k.
Proof.
  intros -> Hk. pose proof (size_nonneg pre) as Hp.
  destruct (Z.ltb_spec k (size v)) as [Hlt | Hge].
  - rewrite !at_nth by (rewrite ?size_app; lia).
    replace (Z.to_nat (size pre + k)) with (length pre + Z.to_nat k)%nat
      by (unfold size; lia).
    apply app_nth2_plus.
  - rewrite !at_outside by (rewrite ?size_app; lia). reflexivity.
Qed.

Lemma at_app_l pre v i : 0 <= i < size pre -> at_ (pre ++ v) i = at_ pre i.
Proof.
  intros H. rewrite !at_nth by (rewrite ?size_app; pose proof (size_nonneg v); lia).
  apply app_nth1. unfold size in H. lia.
Qed.

Lemma at_cons_0 x v : at_ (x :: v) 0 = x.
Proof.
  rewrite at_nth; [reflexivity|].
  rewrite size_cons. pose proof (size_nonneg v). lia.
Qed.

Lemma at_cons_S x v i : 1 <= i -> at_ (x :: v) i = at_ v (i - 1).
Proof.
  intros H. apply (at_app_off [x] v). rewrite size_cons, size_nil; lia. lia.
Qed.

Lemma skipn_size_app pre v i :
  i = size pre -> skipn (Z.to_nat i) (pre ++ v) = v.
Proof.
  intros ->. unfold size. rewrite Nat2Z.id.
  rewrite skipn_app, skipn_all, Nat.sub_diag. reflexivity.
Qed.

Lemma firstn_size_app pre v i :
  i = size pre -> firstn (Z.to_nat i) (pre ++ v) = pre.
Proof.
  intros ->. unfold size. rewrite Nat2Z.id.
  rewrite firstn_app, firstn_all, Nat.sub_diag. cbn. apply app_nil_r.
Qed.

Lemma range_app pre mid v from to :
  from = size pre -> to = size pre + size mid ->
  range (pre ++ mid ++ v) from to = mid.
Proof.
  intros -> ->. unfold range.
  rewrite skipn_size_app by reflexivity.
  apply firstn_size_app. lia.
Qed.

Lemma bytes_eqb_eq a b : bytes_eqb a b = true <-> a = b.
Proof.
  revert b. induction a as [|x a IH]; intros [|y b]; cbn; split;
    try congruence; try discriminate.
  - intros H. apply andb_true_iff in H as [Hx Hab].
    apply Z.eqb_eq in Hx. apply IH in Hab. congruence.
  - intros [= -> ->]. rewrite Z.eqb_refl. now apply IH.
Qed.

(** The length field of a segment reads back as its length. *)
Lemma length_field n :
  0 <= n <= 65535 ->
  0 <= n / 256 < 256 /\ 0 <= n mod 256 < 256 /\ n / 256 * 256 + n mod 256 = n.
Proof.
  intros H. pose proof (div_sandwich n 256 ltac:(lia)).
  pose proof (Z.div_mod n 256 ltac:(lia)).
  pose proof (Z.mod_pos_bound n 256 ltac:(lia)). lia.
Qed.

Lemma size_seg_bytes s : size (seg_bytes s) = 4 + size (seg_payload s).
Proof. unfold seg_bytes. cbn [app]. rewrite !size_cons. lia. Qed.

Lemma length_flat_map_seg_bytes segs :
  (length segs <= length (flat_map seg_bytes segs))%nat.
Proof.
  induction segs as [|s segs IH]; [apply Nat.le_refl|].
  cbn [flat_map]. rewrite length_app.
  assert (4 <= length (seg_bytes s))%nat by (unfold seg_bytes; cbn [app length]; lia).
  cbn [length]. lia.
Qed.

(** The loop over a run of APPn/COM segments followed by another marker:
    COM and APP0 segments are copied, the other APPn segments are dropped,
    and everything from the first other marker on is copied verbatim. *)
Lemma strip_markers_segments segs :
  forall pre acc fuel i m tail,
    Forall wf_segment segs ->
    (is_APPn m || is_COM m) = false ->
    i = size pre ->
    (length segs < fuel)%nat ->
    strip_markers fuel (pre ++ flat_map seg_bytes segs ++ 0xFF :: m :: tail) i acc
    = acc ++ flat_map seg_bytes (filter kept segs) ++ 0xFF :: m :: tail.
Proof.
  induction segs as [|s segs IH]; intros pre acc fuel i m tail Hwf Hm Hi Hfuel;
    (destruct fuel as [|fuel]; [cbn in Hfuel; lia|]); cbn [strip_markers].
  - cbn [flat_map filter app].
    set (S := pre ++ 0xFF :: m :: tail).
    assert (Esz : size S = size pre + 2 + size tail)
      by (subst S; rewrite size_app, !size_cons; lia).
    pose proof (size_nonneg tail) as Ht.
    assert (E0 : at_ S i = 0xFF)
      by (subst S; rewrite (at_app_off pre _ i 0) by lia; apply at_cons_0).
    assert (E1 : at_ S (i + 1) = m).
    { subst S. rewrite (at_app_off pre _ _ 1) by lia.
      rewrite at_cons_S by lia. apply at_cons_0. }
    assert (T : (i + 1 <? size S) = true) by (apply Z.ltb_lt; lia).
    rewrite T, E0, E1, Z.eqb_refl. cbn [negb].
    apply orb_false_iff in Hm as [Ha Hc]. unfold is_APPn, is_COM in Ha, Hc.
    rewrite Ha, Hc. cbn [negb andb].
    subst S. now rewrite skipn_size_app.
  - inversion Hwf as [|? ? [Hmk Hlen] Hwf']; subst.
    cbn [flat_map filter]. rewrite <- app_assoc.
    set (rest := flat_map seg_bytes segs ++ 0xFF :: m :: tail).
    set (n := 2 + size (seg_payload s)) in *.
    pose proof (size_nonneg (seg_payload s)) as Hp.
    destruct (length_field n ltac:(lia)) as (Hhi & Hlo & Hn).
    assert (Hrest : 2 <= size rest).
    { subst rest. rewrite size_app, !size_cons.
      pose proof (size_nonneg (flat_map seg_bytes segs)).
      pose proof (size_nonneg tail). lia. }
    set (S := pre ++ seg_bytes s ++ rest).
    assert (Esz : size S = size pre + 4 + size (seg_payload s) + size rest)
      by (subst S; rewrite !size_app, size_seg_bytes; lia).
    assert (E0 : at_ S (size pre) = 0xFF).
    { subst S. rewrite (at_app_off pre _ _ 0) by lia. apply at_cons_0. }
    assert (E1 : at_ S (size pre + 1) = seg_marker s).
    { subst S. rewrite (at_app_off pre _ _ 1) by lia. unfold seg_bytes.
      cbn [app]. rewrite at_cons_S by lia. apply at_cons_0. }
    assert (E2 : at_ S (size pre + 2) = n / 256).
    { subst S. rewrite (at_app_off pre _ _ 2) by lia. unfold seg_bytes.
      cbn [app]. rewrite !at_cons_S by lia. apply at_cons_0. }
    assert (E3 : at_ S (size pre + 2 + 1) = n mod 256).
    { subst S. rewrite (at_app_off pre _ _ 3) by lia. unfold seg_bytes.
      cbn [app]. rewrite !at_cons_S by lia. apply at_cons_0. }
    assert (T1 : (size pre + 1 <? size S) = true) by (apply Z.ltb_lt; lia).
    assert (T2 : (size S <=? size pre + 2 + 1) = false) by (apply Z.leb_gt; lia).
    rewrite T1, E0, E1, T2, E2, E3, Hn, Z.eqb_refl. cbn [negb].
    assert (T3 : negb (Z.land (seg_marker s) 0xF0 =? 0xE0)
                 && negb (seg_marker s =? 0xFE) = false).
    { unfold is_APPn, is_COM in Hmk.
      destruct (Z.land (seg_marker s) 0xF0 =? 0xE0), (seg_marker s =? 0xFE);
        cbn in *; congruence. }
    rewrite T3.
    assert (T4 : (size pre + 2 + n <=? size S) = true) by (apply Z.leb_le; lia).
    rewrite T4, andb_true_r.
    assert (R : range S (size pre + 2 - 2) (size pre + 2 + n) = seg_bytes s).
    { subst S. apply range_app; [lia | rewrite size_seg_bytes; lia]. }
    rewrite R.
    subst S. rewrite app_assoc. subst rest.
    rewrite IH; try assumption.
    + change (seg_marker s =? 0xFE) with (is_COM (seg_marker s)).
      change (seg_marker s =? 0xE0) with (is_APP0 (seg_marker s)).
      fold (kept s). destruct (kept s); [|reflexivity].
      cbn [flat_map]. now rewrite <- !app_assoc.
    + rewrite size_app, size_seg_bytes. lia.
    + cbn [length] in Hfuel. lia.
Qed.



Lemma at_nonneg v i : Forall (fun b => 0 <= b) v -> 0 <= at_ v i.
Proof.
  intros H. unfold at_. destruct ((0 <=? i) && (i <? size v)); [|lia].
  destruct (nth_in_or_default (Z.to_nat i) v 0) as [Hin | ->]; [|lia].
  rewrite Forall_forall in H. now apply H.
Qed.

(** Both loops advance by at least two bytes a turn, so the result does not
    depend on the fuel once it exceeds the distance to the end of the
    vector; [length v] turns, the fuel they are run with, are enough. *)
Lemma scan_chunks_fuel jpeg_bytes SIG :
  Forall (fun b => 0 <= b) jpeg_bytes ->
  forall fuel1 fuel2 nChunkLoc nInsertPos,
    size jpeg_bytes - nChunkLoc < Z.of_nat fuel1 ->
    size jpeg_bytes - nChunkLoc < Z.of_nat fuel2 ->
    scan_chunks fuel1 jpeg_bytes SIG nChunkLoc nInsertPos
    = scan_chunks fuel2 jpeg_bytes SIG nChunkLoc nInsertPos.
Proof.
  intros Hpos. induction fuel1 as [|fuel1 IH]; intros fuel2 loc ip H1 H2;
    destruct fuel2 as [|fuel2]; cbn [scan_chunks].
  - reflexivity.
  - destruct (Z.leb_spec (loc + 4) (size jpeg_bytes)); [lia | reflexivity].
  - destruct (Z.leb_spec (loc + 4) (size jpeg_bytes)); [lia | reflexivity].
  - pose proof (at_nonneg jpeg_bytes (loc + 2) Hpos).
    pose proof (at_nonneg jpeg_bytes (loc + 3) Hpos).
    destruct (Z.leb_spec (loc + 4) (size jpeg_bytes)); cbn [negb];
      [|reflexivity].
    repeat match goal with
           | |- context [if ?c then _ else _] => destruct c
           end; try reflexivity; apply IH; lia.
Qed.

Lemma strip_markers_fuel abyJPEG :
  Forall (fun b => 0 <= b) abyJPEG ->
  forall fuel1 fuel2 i abyJPEGMod,
    size abyJPEG - i < Z.of_nat fuel1 ->
    size abyJPEG - i < Z.of_nat fuel2 ->
    strip_markers fuel1 abyJPEG i abyJPEGMod
    = strip_markers fuel2 abyJPEG i abyJPEGMod.
Proof.
  intros Hpos. induction fuel1 as [|fuel1 IH]; intros fuel2 i acc H1 H2;
    destruct fuel2 as [|fuel2]; cbn [strip_markers].
  - reflexivity.
  - destruct (Z.ltb_spec (i + 1) (size abyJPEG)); [lia | reflexivity].
  - destruct (Z.ltb_spec (i + 1) (size abyJPEG)); [lia | reflexivity].
  - pose proof (at_nonneg abyJPEG (i + 2) Hpos).
    pose proof (at_nonneg abyJPEG (i + 2 + 1) Hpos).
    destruct (Z.ltb_spec (i + 1) (size abyJPEG)); cbn [negb];
      [|reflexivity].
    destruct (negb (at_ abyJPEG i =? 255)); [reflexivity|].
    destruct (negb _ && negb _); [reflexivity|].
    destruct (size abyJPEG <=? i + 2 + 1); [reflexivity|].
    destruct (_ && _); apply IH; lia.
Qed.

(** The two length bytes written by [splice_APP1] are the big-endian marker
    size. *)
Lemma splice_length_prefix n :
  0 <= n <= 65535 ->
  cast_GByte (Z.shiftr n 8) * 256 + cast_GByte (Z.land n 0xFF) = n.
Proof.
  intros H. rewrite Z.shiftr_div_pow2 by lia.
  change 0xFF with (Z.ones 8). rewrite Z.land_ones by lia.
  change (2 ^ 8) with 256.
  destruct (length_field n H) as (Hhi & Hlo & Hn).
  unfold cast_GByte. rewrite (Z.mod_small (n / 256)) by lia.
  rewrite Z.mod_mod by lia. exact Hn.
Qed.

(** The XMP block changes the codestream only when there is a non-empty XMP
    packet whose segment fits in 65535 bytes, the scan met no XMP APP1
    segment, and it recorded an insertion point behind a JFIF APP0 segment. *)
Lemma insert_XMP_only_if m_osXMP jpeg_bytes :
  insert_XMP m_osXMP jpeg_bytes <> jpeg_bytes ->
  m_osXMP <> []
  /\ 2 + size APP1_XMP_SIGNATURE + size m_osXMP <= 65535
  /\ exists nInsertPos,
      scan_chunks (length jpeg_bytes) jpeg_bytes APP1_XMP_SIGNATURE 2 0
      = (false, nInsertPos)
      /\ 0 < nInsertPos
      /\ insert_XMP m_osXMP jpeg_bytes
         = splice_APP1 jpeg_bytes nInsertPos
             (2 + size APP1_XMP_SIGNATURE + size m_osXMP)
             APP1_XMP_SIGNATURE m_osXMP.
Proof.
  unfold insert_XMP.
  destruct (Z.eqb_spec (size m_osXMP) 0) as [E | NE]; cbn [negb andb];
    [congruence|].
  destruct (Z.leb_spec (2 + size APP1_XMP_SIGNATURE + size m_osXMP) 65535)
    as [Hle | Hgt]; [|congruence].
  destruct (scan_chunks _ _ _ _ _) as [bFound nInsertPos].
  destruct bFound; cbn [negb andb]; [congruence|].
  destruct (Z.ltb_spec 0 nInsertPos); [|congruence].
  intros _. split; [|split; [assumption|]].
  - intros ->. now apply NE.
  - exists nInsertPos. auto.
Qed.

(** The EXIF block has the same conditions but one: it does not look at
    [m_abyEXIFBox] being empty. *)
Lemma insert_EXIF_only_if pszName m_abyEXIFBox jpeg_bytes :
  insert_EXIF pszName m_abyEXIFBox jpeg_bytes <> jpeg_bytes ->
  EQUAL pszName "CODESTREAM_WITHOUT_EXIF" = false
  /\ 2 + size EXIF_SIGNATURE + size m_abyEXIFBox <= 65535
  /\ exists nInsertPos,
      scan_chunks (length jpeg_bytes) jpeg_bytes EXIF_SIGNATURE 2 0
      = (false, nInsertPos)
      /\ 0 < nInsertPos
      /\ insert_EXIF pszName m_abyEXIFBox jpeg_bytes
         = splice_APP1 jpeg_bytes nInsertPos
             (2 + size EXIF_SIGNATURE + size m_abyEXIFBox)
             EXIF_SIGNATURE m_abyEXIFBox.
Proof.
  unfold insert_EXIF.
  destruct (EQUAL pszName _); cbn [negb andb]; [congruence|].
  destruct (Z.leb_spec (2 + size EXIF_SIGNATURE + size m_abyEXIFBox) 65535)
    as [Hle | Hgt]; [|congruence].
  destruct (scan_chunks _ _ _ _ _) as [bFound nInsertPos].
  destruct bFound; cbn [negb andb]; [congruence|].
  destruct (Z.ltb_spec 0 nInsertPos); [|congruence].
  intros _. split; [reflexivity|]. split; [assumption|].
  exists nInsertPos. auto.
Qed.

(** C7 at its failing input: no EXIF box was retained ([m_abyEXIFBox] is
    empty, as is the XMP packet), the reconstructed codestream has a JFIF
    segment and no APP1 segment, and CODESTREAM is asked for.  An APP1 "Exif"
    segment of length 8 with no payload is spliced in behind the JFIF
    segment. *)
Theorem exif_spliced_without_metadata :
  reinsert_metadata "CODESTREAM" [] [] jfif_codestream
  = Some (firstn 20 jfif_codestream
          ++ [0xFF; 0xE1; 0; 8; 69; 120; 105; 102; 0; 0]
          ++ skipn 20 jfif_codestream)
  /\ insert_XMP [] jfif_codestream = jfif_codestream.
Proof. split; vm_compute; reflexivity. Qed.

(** ** The scan of [GetMetadataItem] on well-formed codestreams *)

Lemma bytes_eqb_refl a : bytes_eqb a a = true.
Proof. now apply bytes_eqb_eq. Qed.

Lemma begins_FF_segments segs tail :
  begins_FF (flat_map seg_bytes segs ++ 0xFF :: 0xDA :: tail).
Proof.
  right. destruct segs as [|s segs]; cbn [flat_map app]; eauto.
  unfold seg_bytes. cbn [app]. eauto.
Qed.

(** The signature test of the scan at a segment: the bounds check and the
    [memcmp] together say that the payload begins with the signature.  A
    payload shorter than the signature cannot pass by borrowing bytes from
    what follows, because that begins with [FF] and no signature holds
    [FF]. *)
Lemma chunk_signature pre s v SIG loc :
  loc = size pre ->
  Forall (fun b => b <> 0xFF) SIG ->
  begins_FF v ->
  (loc + 4 + size SIG <=? size (pre ++ seg_bytes s ++ v))
  && memcmp_eq (pre ++ seg_bytes s ++ v) (loc + 4) SIG
  = bytes_eqb (firstn (length SIG) (seg_payload s)) SIG.
Proof.
  intros -> Hsig Hv. set (P := seg_payload s). set (n := length SIG).
  assert (ES : pre ++ seg_bytes s ++ v
               = (pre ++ [0xFF; seg_marker s; (2 + size P) / 256;
                          (2 + size P) mod 256]) ++ P ++ v).
  { unfold seg_bytes. fold P. now rewrite <- !app_assoc. }
  assert (Esz : size (pre ++ seg_bytes s ++ v) = size pre + 4 + size P + size v).
  { rewrite !size_app, size_seg_bytes. fold P. lia. }
  assert (Em : memcmp_eq (pre ++ seg_bytes s ++ v) (size pre + 4) SIG
               = bytes_eqb (firstn n (P ++ v)) SIG).
  { unfold memcmp_eq, range. rewrite ES.
    rewrite skipn_size_app by (rewrite size_app, !size_cons, size_nil; lia).
    f_equal. f_equal. unfold size, n. lia. }
  rewrite Em, Esz. clear Em ES Esz.
  destruct (Nat.le_gt_cases n (length P)) as [Hle | Hgt].
  - rewrite firstn_app.
    replace (n - length P)%nat with 0%nat by lia.
    cbn [firstn]. rewrite app_nil_r.
    assert (T : (size pre + 4 + size SIG <=? size pre + 4 + size P + size v) = true).
    { apply Z.leb_le. pose proof (size_nonneg v). unfold size. fold n. lia. }
    now rewrite T.
  - assert (R : bytes_eqb (firstn n P) SIG = false).
    { destruct (bytes_eqb (firstn n P) SIG) eqn:E; [|reflexivity].
      apply bytes_eqb_eq in E. apply (f_equal (@length Z)) in E.
      rewrite length_firstn in E. fold n in E. lia. }
    rewrite R.
    destruct (Z.leb_spec (size pre + 4 + size SIG)
                         (size pre + 4 + size P + size v)) as [Hb | Hb];
      [|reflexivity].
    cbn [andb].
    destruct (bytes_eqb (firstn n (P ++ v)) SIG) eqn:E; [|reflexivity].
    exfalso. apply bytes_eqb_eq in E.
    destruct Hv as [-> | [v' ->]].
    + rewrite size_nil in Hb. unfold size in Hb. fold n in Hb. lia.
    + rewrite firstn_app in E.
      rewrite (firstn_all2 (n := n) P) in E by lia.
      destruct (n - length P)%nat as [|k] eqn:Ek; [lia|].
      cbn [firstn] in E.
      rewrite Forall_forall in Hsig. apply (Hsig 0xFF); [|reflexivity].
      rewrite <- E. apply in_or_app. right. now left.
Qed.

(** On a codestream the byte-level scan and the segment-level scan agree. *)
Lemma scan_chunks_segments SIG tail segs :
  Forall (fun b => b <> 0xFF) SIG ->
  forall pre fuel loc nInsertPos,
    Forall scannable segs ->
    loc = size pre ->
    (length segs <= fuel)%nat ->
    scan_chunks fuel (pre ++ flat_map seg_bytes segs ++ 0xFF :: 0xDA :: tail) SIG
                loc nInsertPos
    = scan_segments SIG segs loc nInsertPos.
Proof.
  intros Hsig.
  assert (HJ : Forall (fun b => b <> 0xFF) JFIF_SIGNATURE)
    by (repeat constructor; discriminate).
  induction segs as [|s segs IH]; intros pre fuel loc ip Hwf Hloc Hfuel.
  - cbn [flat_map app scan_segments]. destruct fuel as [|fuel]; [reflexivity|].
    cbn [scan_chunks].
    destruct (Z.leb_spec (loc + 4) (size (pre ++ 0xFF :: 0xDA :: tail)));
      cbn [negb]; [|reflexivity].
    assert (E1 : at_ (pre ++ 0xFF :: 0xDA :: tail) (loc + 1) = 0xDA).
    { rewrite (at_app_off pre _ _ 1) by lia.
      rewrite at_cons_S by lia. apply at_cons_0. }
    rewrite E1, Z.eqb_refl, orb_true_r. reflexivity.
  - inversion Hwf as [|? ? [Hmk Hlen] Hwf']; subst.
    destruct fuel as [|fuel]; [cbn in Hfuel; lia|].
    cbn [flat_map scan_segments scan_chunks]. rewrite <- app_assoc.
    set (rest := flat_map seg_bytes segs ++ 0xFF :: 0xDA :: tail).
    set (n := 2 + size (seg_payload s)) in *.
    pose proof (size_nonneg (seg_payload s)) as Hp.
    pose proof (size_nonneg rest) as Hr.
    destruct (length_field n ltac:(lia)) as (Hhi & Hlo & Hn).
    set (S := pre ++ seg_bytes s ++ rest).
    assert (Esz : size S = size pre + 4 + size (seg_payload s) + size rest)
      by (subst S; rewrite !size_app, size_seg_bytes; lia).
    assert (E0 : at_ S (size pre + 0) = 0xFF).
    { subst S. rewrite (at_app_off pre _ _ 0) by lia. apply at_cons_0. }
    assert (E1 : at_ S (size pre + 1) = seg_marker s).
    { subst S. rewrite (at_app_off pre _ _ 1) by lia. unfold seg_bytes.
      cbn [app]. rewrite at_cons_S by lia. apply at_cons_0. }
    assert (E2 : at_ S (size pre + 2) = n / 256).
    { subst S. rewrite (at_app_off pre _ _ 2) by lia. unfold seg_bytes.
      cbn [app]. rewrite !at_cons_S by lia. apply at_cons_0. }
    assert (E3 : at_ S (size pre + 3) = n mod 256).
    { subst S. rewrite (at_app_off pre _ _ 3) by lia. unfold seg_bytes.
      cbn [app]. rewrite !at_cons_S by lia. apply at_cons_0. }
    assert (T1 : (size pre + 4 <=? size S) = true) by (apply Z.leb_le; lia).
    assert (T2 : (seg_marker s =? 0xDA) = false) by (now apply Z.eqb_neq).
    rewrite T1, E0, E1, E2, E3, Hn, T2, Z.eqb_refl. cbn [negb orb andb].
    assert (Hb : begins_FF rest) by apply begins_FF_segments.
    rewrite <- !andb_assoc.
    subst S.
    rewrite (chunk_signature pre s rest JFIF_SIGNATURE (size pre) eq_refl HJ Hb).
    rewrite (chunk_signature pre s rest SIG (size pre) eq_refl Hsig Hb).
    fold (has_signature 0xE0 JFIF_SIGNATURE s). fold (is_JFIF s).
    fold (has_signature 0xE1 SIG s).
    assert (Enext : size pre + 2 + n = size pre + size (seg_bytes s))
      by (rewrite size_seg_bytes; lia).
    rewrite Enext.
    assert (Eassoc : pre ++ seg_bytes s ++ rest = (pre ++ seg_bytes s) ++ rest)
      by now rewrite app_assoc.
    rewrite Eassoc. subst rest.
    destruct (is_JFIF s); [|destruct (has_signature 0xE1 SIG s); [reflexivity|]];
      apply IH; try assumption; try (rewrite size_app; reflexivity);
      cbn [length] in Hfuel; lia.
Qed.

Lemma JFIF_is_not_APP1 SIG s : is_JFIF s = true -> has_signature 0xE1 SIG s = false.
Proof.
  unfold is_JFIF, has_signature. intros H.
  apply andb_true_iff in H as [H _]. apply Z.eqb_eq in H. now rewrite H.
Qed.

Lemma scan_segments_found SIG segs :
  forall pos nInsertPos,
    existsb (has_signature 0xE1 SIG) segs = true ->
    fst (scan_segments SIG segs pos nInsertPos) = true.
Proof.
  induction segs as [|s segs IH]; intros pos ip; cbn [existsb scan_segments];
    [discriminate|].
  destruct (is_JFIF s) eqn:J.
  - rewrite (JFIF_is_not_APP1 SIG s J). cbn [orb]. apply IH.
  - destruct (has_signature 0xE1 SIG s); [reflexivity|]. cbn [orb]. apply IH.
Qed.

Lemma scan_segments_no_JFIF SIG segs :
  forall pos nInsertPos,
    existsb (has_signature 0xE1 SIG) segs = false ->
    forallb (fun s => negb (is_JFIF s)) segs = true ->
    scan_segments SIG segs pos nInsertPos = (false, nInsertPos).
Proof.
  induction segs as [|s segs IH]; intros pos ip; cbn [existsb forallb scan_segments];
    [reflexivity|].
  intros Hx Hj. apply orb_false_iff in Hx as [Hs Hx].
  apply andb_true_iff in Hj as [Hj Hjs]. apply negb_true_iff in Hj.
  rewrite Hj, Hs. now apply IH.
Qed.

Lemma scan_segments_last_JFIF SIG before j after :
  forall pos nInsertPos,
    existsb (has_signature 0xE1 SIG) (before ++ j :: after) = false ->
    is_JFIF j = true ->
    forallb (fun s => negb (is_JFIF s)) after = true ->
    scan_segments SIG (before ++ j :: after) pos nInsertPos
    = (false, pos + size (flat_map seg_bytes (before ++ [j]))).
Proof.
  induction before as [|b before IH]; intros pos ip Hx Hj Hafter.
  - cbn [app existsb] in Hx. apply orb_false_iff in Hx as [_ Hx].
    cbn [app scan_segments flat_map]. rewrite Hj, app_nil_r.
    now apply scan_segments_no_JFIF.
  - cbn [app existsb] in Hx. apply orb_false_iff in Hx as [Hb Hx].
    cbn [app scan_segments flat_map]. rewrite Hb, size_app.
    destruct (is_JFIF b); rewrite IH by assumption; f_equal; lia.
Qed.

(** Every list of segments has a last JFIF segment or none. *)
Lemma last_JFIF_or_none segs :
  forallb (fun s => negb (is_JFIF s)) segs = true
  \/ exists before j after,
      segs = before ++ j :: after
      /\ is_JFIF j = true
      /\ forallb (fun s => negb (is_JFIF s)) after = true.
Proof.
  induction segs as [|s segs IH]; [now left|].
  destruct IH as [Hnone | (before & j & after & -> & Hj & Hafter)].
  - destruct (is_JFIF s) eqn:J.
    + right. exists [], s, segs. auto.
    + left. cbn [forallb]. now rewrite J.
  - right. exists (s :: before), j, after. auto.
Qed.

(** Splicing behind the last JFIF segment adds one APP1 segment to the list
    of segments; its two length bytes are the big-endian length. *)
Lemma splice_APP1_codestream before j after tail SIG payload :
  2 + size SIG + size payload <= 65535 ->
  splice_APP1 (codestream (before ++ j :: after) tail)
              (2 + size (flat_map seg_bytes (before ++ [j])))
              (2 + size SIG + size payload) SIG payload
  = codestream (before ++ j :: APP1_segment SIG payload :: after) tail.
Proof.
  intros Hfit. unfold splice_APP1, codestream.
  set (n := 2 + size SIG + size payload).
  pose proof (size_nonneg SIG). pose proof (size_nonneg payload).
  assert (Ehi : cast_GByte (Z.shiftr n 8) = n / 256).
  { rewrite Z.shiftr_div_pow2 by lia. change (2 ^ 8) with 256.
    destruct (length_field n ltac:(lia)) as (Hhi & _). now apply cast_GByte_small. }
  assert (Elo : cast_GByte (Z.land n 0xFF) = n mod 256).
  { change 0xFF with (Z.ones 8). rewrite Z.land_ones by lia.
    change (2 ^ 8) with 256. unfold cast_GByte. apply Z.mod_mod. lia. }
  rewrite Ehi, Elo.
  assert (Enew : seg_bytes (APP1_segment SIG payload)
                 = [0xFF; 0xE1; n / 256; n mod 256] ++ SIG ++ payload).
  { unfold seg_bytes, APP1_segment. cbn [seg_marker seg_payload].
    rewrite size_app. subst n. rewrite Z.add_assoc. reflexivity. }
  assert (Esplit : [0xFF; 0xD8] ++ flat_map seg_bytes (before ++ j :: after)
                   ++ 0xFF :: 0xDA :: tail
                   = ([0xFF; 0xD8] ++ flat_map seg_bytes (before ++ [j]))
                     ++ flat_map seg_bytes after ++ 0xFF :: 0xDA :: tail).
  { replace (before ++ j :: after) with ((before ++ [j]) ++ after)
      by (now rewrite <- app_assoc).
    rewrite flat_map_app, <- !app_assoc. reflexivity. }
  rewrite Esplit.
  rewrite firstn_size_app, skipn_size_app
    by (rewrite size_app; reflexivity).
  replace (before ++ j :: APP1_segment SIG payload :: after)
    with ((before ++ [j]) ++ APP1_segment SIG payload :: after)
    by (now rewrite <- app_assoc).
  rewrite (flat_map_app seg_bytes (before ++ [j])). cbn [flat_map].
  rewrite Enew, <- !app_assoc. reflexivity.
Qed.

Lemma scan_chunks_codestream SIG segs tail :
  Forall (fun b => b <> 0xFF) SIG ->
  Forall scannable segs ->
  scan_chunks (length (codestream segs tail)) (codestream segs tail) SIG 2 0
  = scan_segments SIG segs 2 0.
Proof.
  intros Hsig Hwf. unfold codestream.
  apply scan_chunks_segments; try assumption; [reflexivity|].
  pose proof (length_flat_map_seg_bytes segs).
  rewrite !length_app. lia.
Qed.

Lemma XMP_signature_no_FF : Forall (fun b => b <> 0xFF) APP1_XMP_SIGNATURE.
Proof.
  apply Forall_forall. intros b Hb ->.
  assert (F : forallb (fun b => negb (b =? 0xFF)) APP1_XMP_SIGNATURE = true)
    by reflexivity.
  rewrite forallb_forall in F. specialize (F _ Hb). discriminate F.
Qed.

Lemma EXIF_signature_no_FF : Forall (fun b => b <> 0xFF) EXIF_SIGNATURE.
Proof. repeat constructor; discriminate. Qed.

Lemma scan_codestream_last_JFIF SIG before j after tail :
  Forall (fun b => b <> 0xFF) SIG ->
  Forall scannable (before ++ j :: after) ->
  existsb (has_signature 0xE1 SIG) (before ++ j :: after) = false ->
  is_JFIF j = true ->
  forallb (fun s => negb (is_JFIF s)) after = true ->
  scan_chunks (length (codestream (before ++ j :: after) tail))
              (codestream (before ++ j :: after) tail) SIG 2 0
  = (false, 2 + size (flat_map seg_bytes (before ++ [j]))).
Proof.
  intros Hsig Hwf Hx Hj Hafter.
  rewrite scan_chunks_codestream by assumption.
  now apply scan_segments_last_JFIF.
Qed.

Lemma scan_codestream_unchanged SIG segs tail :
  Forall (fun b => b <> 0xFF) SIG ->
  Forall scannable segs ->
  existsb (has_signature 0xE1 SIG) segs = true
  \/ forallb (fun s => negb (is_JFIF s)) segs = true ->
  exists bFound nInsertPos,
    scan_chunks (length (codestream segs tail)) (codestream segs tail) SIG 2 0
    = (bFound, nInsertPos)
    /\ negb bFound && (0 <? nInsertPos) = false.
Proof.
  intros Hsig Hwf Hcase.
  rewrite scan_chunks_codestream by assumption.
  destruct (existsb (has_signature 0xE1 SIG) segs) eqn:Hx.
  - pose proof (scan_segments_found SIG segs 2 0 Hx) as Hf.
    destruct (scan_segments SIG segs 2 0) as [bFound ip]. cbn [fst] in Hf.
    subst bFound. now exists true, ip.
  - destruct Hcase as [Hcase | Hnone]; [discriminate|].
    rewrite scan_segments_no_JFIF by assumption. now exists false, 0.
Qed.

(** ** Re-inserting XMP and EXIF: placement, no duplication *)

Lemma insert_XMP_splices m_osXMP before j after tail :
  Forall scannable (before ++ j :: after) ->
  m_osXMP <> [] ->
  2 + size APP1_XMP_SIGNATURE + size m_osXMP <= 65535 ->
  existsb (has_signature 0xE1 APP1_XMP_SIGNATURE) (before ++ j :: after) = false ->
  is_JFIF j = true ->
  forallb (fun s => negb (is_JFIF s)) after = true ->
  insert_XMP m_osXMP (codestream (before ++ j :: after) tail)
  = codestream (before ++ j :: APP1_segment APP1_XMP_SIGNATURE m_osXMP :: after)
               tail.
Proof.
  intros Hwf Hne Hfit Hx Hj Hafter. unfold insert_XMP.
  assert (G : negb (size m_osXMP =? 0) = true).
  { apply negb_true_iff, Z.eqb_neq. destruct m_osXMP; [congruence|].
    rewrite size_cons. pose proof (size_nonneg m_osXMP). lia. }
  rewrite G, (proj2 (Z.leb_le _ _) Hfit). cbn [andb].
  rewrite (scan_codestream_last_JFIF APP1_XMP_SIGNATURE before j after tail
             XMP_signature_no_FF Hwf Hx Hj Hafter).
  pose proof (size_nonneg (flat_map seg_bytes (before ++ [j]))) as Hpos.
  rewrite (proj2 (Z.ltb_lt 0 _)) by lia. cbn [negb andb].
  now apply splice_APP1_codestream.
Qed.

Lemma insert_XMP_keeps m_osXMP segs tail :
  Forall scannable segs ->
  existsb (has_signature 0xE1 APP1_XMP_SIGNATURE) segs = true
  \/ forallb (fun s => negb (is_JFIF s)) segs = true ->
  insert_XMP m_osXMP (codestream segs tail) = codestream segs tail.
Proof.
  intros Hwf Hcase. unfold insert_XMP.
  destruct (negb (size m_osXMP =? 0) && _); [|reflexivity].
  destruct (scan_codestream_unchanged APP1_XMP_SIGNATURE segs tail
              XMP_signature_no_FF Hwf Hcase) as (bFound & ip & -> & ->).
  reflexivity.
Qed.

(** X7: The XMP block of [GetMetadataItem]: when the codestream has no XMP
    segment yet and has a JFIF segment, a retained XMP packet that fits is
    inserted as one well-formed APP1 segment (signature, then the packet)
    directly behind the last JFIF segment, and the block changes nothing
    else.  For CODESTREAM_WITHOUT_EXIF, where the Exif block before it is
    skipped, this is all that [GetMetadataItem] does to the codestream. *)
Theorem insert_XMP_behind_JFIF pszName m_abyEXIFBox m_osXMP before j after tail :
  Forall scannable (before ++ j :: after) ->
  m_osXMP <> [] ->
  2 + size APP1_XMP_SIGNATURE + size m_osXMP <= 65535 ->
  existsb (has_signature 0xE1 APP1_XMP_SIGNATURE) (before ++ j :: after) = false ->
  is_JFIF j = true ->
  forallb (fun s => negb (is_JFIF s)) after = true ->
  insert_XMP m_osXMP (codestream (before ++ j :: after) tail)
  = codestream (before ++ j :: APP1_segment APP1_XMP_SIGNATURE m_osXMP :: after)
               tail
  /\ (EQUAL pszName "CODESTREAM_WITHOUT_EXIF" = true ->
      size (codestream (before ++ j :: after) tail) < INT_MAX ->
      reinsert_metadata pszName m_abyEXIFBox m_osXMP
        (codestream (before ++ j :: after) tail)
      = Some (codestream
                (before ++ j :: APP1_segment APP1_XMP_SIGNATURE m_osXMP :: after)
                tail)).
Proof.
  intros Hwf Hne Hfit Hx Hj Hafter.
  assert (E : insert_XMP m_osXMP (codestream (before ++ j :: after) tail)
              = codestream
                  (before ++ j :: APP1_segment APP1_XMP_SIGNATURE m_osXMP :: after)
                  tail).
  { unfold insert_XMP.
    assert (G : negb (size m_osXMP =? 0) = true).
    { apply negb_true_iff, Z.eqb_neq. destruct m_osXMP; [congruence|].
      rewrite size_cons. pose proof (size_nonneg m_osXMP). lia. }
    rewrite G, (proj2 (Z.leb_le _ _) Hfit). cbn [andb].
    rewrite (scan_codestream_last_JFIF APP1_XMP_SIGNATURE before j after tail
               XMP_signature_no_FF Hwf Hx Hj Hafter).
    pose proof (size_nonneg (flat_map seg_bytes (before ++ [j]))) as Hpos.
    rewrite (proj2 (Z.ltb_lt 0 _)) by lia. cbn [negb andb].
    now apply splice_APP1_codestream. }
  split; [exact E|].
  intros Hname Hsize. unfold reinsert_metadata.
  assert (Hnz : (size (codestream (before ++ j :: after) tail) =? 0) = false).
  { apply Z.eqb_neq. unfold codestream. rewrite size_app.
    pose proof (size_nonneg
                  (flat_map seg_bytes (before ++ j :: after)
                   ++ 0xFF :: 0xDA :: tail)).
    change (size [0xFF; 0xD8]) with 2. lia. }
  rewrite Hnz, (proj2 (Z.ltb_lt _ _) Hsize). cbn [negb andb]. f_equal.
  unfold insert_EXIF. rewrite Hname. cbn [negb andb]. exact E.
Qed.

Lemma insert_XMP_behind_JFIF_witness :
  Jpeg.reinsert_metadata "CODESTREAM_WITHOUT_EXIF" [77; 77] [60; 63]
    Jpeg.jfif_codestream
  = Some (Jpeg.codestream
            [ {| Jpeg.seg_marker := 0xE0;
                 Jpeg.seg_payload :=
                   [74; 70; 73; 70; 0; 1; 1; 0; 0; 1; 0; 1; 0; 0] |};
              Jpeg.APP1_segment Jpeg.APP1_XMP_SIGNATURE [60; 63] ]
            [0; 2; 0xFF; 0xD9]).
Proof.
  refine (proj2 (insert_XMP_behind_JFIF "CODESTREAM_WITHOUT_EXIF" [77; 77]
                   [60; 63] []
                   {| Jpeg.seg_marker := 0xE0;
                      Jpeg.seg_payload :=
                        [74; 70; 73; 70; 0; 1; 1; 0; 0; 1; 0; 1; 0; 0] |}
                   [] [0; 2; 0xFF; 0xD9] _ _ _ _ _ _) _ _).
  - repeat constructor; cbn; (discriminate || lia).
  - discriminate.
  - cbn. lia.
  - reflexivity.
  - reflexivity.
  - reflexivity.
  - reflexivity.
  - reflexivity.
Defined.

(** X8: No duplication and no insertion without an anchor: a codestream that
    already has an XMP APP1 segment, or that has no JFIF segment, is returned
    as it is. *)
Theorem insert_XMP_unchanged m_osXMP segs tail :
  Forall scannable segs ->
  existsb (has_signature 0xE1 APP1_XMP_SIGNATURE) segs = true
  \/ forallb (fun s => negb (is_JFIF s)) segs = true ->
  insert_XMP m_osXMP (codestream segs tail) = codestream segs tail.
Proof.
  intros Hwf Hcase. unfold insert_XMP.
  destruct (negb (size m_osXMP =? 0) && _); [|reflexivity].
  destruct (scan_codestream_unchanged APP1_XMP_SIGNATURE segs tail
              XMP_signature_no_FF Hwf Hcase) as (bFound & ip & -> & ->).
  reflexivity.
Qed.

Lemma insert_XMP_unchanged_witness :
  Jpeg.insert_XMP [60; 63]
    (Jpeg.codestream [ {| Jpeg.seg_marker := 0xDB; Jpeg.seg_payload := [0; 1] |} ]
                     [0; 2; 0xFF; 0xD9])
  = Jpeg.codestream [ {| Jpeg.seg_marker := 0xDB; Jpeg.seg_payload := [0; 1] |} ]
                    [0; 2; 0xFF; 0xD9].
Proof.
  apply insert_XMP_unchanged.
  - repeat constructor; cbn; (discriminate || lia).
  - right. reflexivity.
Defined.

Lemma APP1_segment_has_signature SIG payload :
  has_signature 0xE1 SIG (APP1_segment SIG payload) = true.
Proof.
  unfold has_signature, APP1_segment. cbn [seg_marker seg_payload].
  rewrite firstn_app, firstn_all, Nat.sub_diag. cbn [firstn].
  now rewrite app_nil_r, bytes_eqb_refl.
Qed.

(** X9: Re-inserting is idempotent on every well-formed codestream: a second
    pass over the result of the first changes nothing, so a stream is never
    given two XMP segments. *)
Theorem insert_XMP_idempotent m_osXMP segs tail :
  Forall scannable segs ->
  insert_XMP m_osXMP (insert_XMP m_osXMP (codestream segs tail))
  = insert_XMP m_osXMP (codestream segs tail).
Proof.
  intros Hwf.
  destruct (negb (size m_osXMP =? 0)
            && (2 + size APP1_XMP_SIGNATURE + size m_osXMP <=? 65535)) eqn:G.
  2: { assert (E : forall v, insert_XMP m_osXMP v = v)
         by (intros v; unfold insert_XMP; now rewrite G).
       now rewrite !E. }
  apply andb_true_iff in G as [Gne Gfit].
  apply Z.leb_le in Gfit.
  assert (Hne : m_osXMP <> []).
  { intros ->. discriminate Gne. }
  destruct (existsb (has_signature 0xE1 APP1_XMP_SIGNATURE) segs) eqn:Hx.
  - rewrite !(insert_XMP_keeps m_osXMP segs tail) by auto. reflexivity.
  - destruct (last_JFIF_or_none segs)
      as [Hnone | (before & j & after & -> & Hj & Hafter)].
    + rewrite !(insert_XMP_keeps m_osXMP segs tail) by auto. reflexivity.
    + rewrite (insert_XMP_splices m_osXMP before j after tail) by assumption.
      apply insert_XMP_keeps.
      * apply Forall_app in Hwf as [Hb Hja].
        inversion Hja as [|? ? Hjw Haw]; subst.
        apply Forall_app. split; [assumption|].
        constructor; [assumption|]. constructor; [|assumption].
        split; [discriminate|].
        unfold APP1_segment. cbn [seg_payload]. rewrite size_app. lia.
      * left. rewrite existsb_app. cbn [existsb].
        rewrite APP1_segment_has_signature.
        cbn [orb]. now rewrite !orb_true_r.
Qed.

Lemma insert_XMP_idempotent_witness :
  Jpeg.insert_XMP [60; 63] (Jpeg.insert_XMP [60; 63] Jpeg.jfif_codestream)
  = Jpeg.insert_XMP [60; 63] Jpeg.jfif_codestream.
Proof.
  apply (insert_XMP_idempotent [60; 63]
           [ {| Jpeg.seg_marker := 0xE0;
                Jpeg.seg_payload := [74; 70; 73; 70; 0; 1; 1; 0; 0; 1; 0; 1; 0; 0] |} ]
           [0; 2; 0xFF; 0xD9]).
  repeat constructor; cbn; (discriminate || lia).
Defined.

Lemma insert_EXIF_splices pszName m_abyEXIFBox before j after tail :
  EQUAL pszName "CODESTREAM_WITHOUT_EXIF" = false ->
  Forall scannable (before ++ j :: after) ->
  2 + size EXIF_SIGNATURE + size m_abyEXIFBox <= 65535 ->
  existsb (has_signature 0xE1 EXIF_SIGNATURE) (before ++ j :: after) = false ->
  is_JFIF j = true ->
  forallb (fun s => negb (is_JFIF s)) after = true ->
  insert_EXIF pszName m_abyEXIFBox (codestream (before ++ j :: after) tail)
  = codestream (before ++ j :: APP1_segment EXIF_SIGNATURE m_abyEXIFBox :: after)
               tail.
Proof.
  intros Hname Hwf Hfit Hx Hj Hafter. unfold insert_EXIF.
  rewrite Hname, (proj2 (Z.leb_le _ _) Hfit). cbn [negb andb].
  rewrite (scan_codestream_last_JFIF EXIF_SIGNATURE before j after tail
             EXIF_signature_no_FF Hwf Hx Hj Hafter).
  pose proof (size_nonneg (flat_map seg_bytes (before ++ [j]))) as Hpos.
  rewrite (proj2 (Z.ltb_lt 0 _)) by lia. cbn [negb andb].
  now apply splice_APP1_codestream.
Qed.

Lemma EXIF_segment_is_not_XMP payload :
  has_signature 0xE1 APP1_XMP_SIGNATURE (APP1_segment EXIF_SIGNATURE payload)
  = false.
Proof. reflexivity. Qed.

Lemma APP1_segment_scannable SIG payload :
  2 + size SIG + size payload <= 65535 -> scannable (APP1_segment SIG payload).
Proof.
  intros Hfit. split; [discriminate|].
  unfold APP1_segment. cbn [seg_payload]. rewrite size_app. lia.
Qed.

Lemma scannable_insert before j s after :
  Forall scannable (before ++ j :: after) -> scannable s ->
  Forall scannable (before ++ j :: s :: after).
Proof.
  intros Hwf Hs. apply Forall_app in Hwf as [Hb Hja].
  inversion Hja as [|? ? Hjw Haw]; subst.
  apply Forall_app. split; [assumption|].
  constructor; [assumption|]. constructor; assumption.
Qed.

(** X10: Both kinds of metadata together: on a codestream with a JFIF segment and
    neither an Exif nor an XMP APP1 segment, [GetMetadataItem] yields the
    codestream with the XMP segment directly behind the last JFIF segment and
    the Exif segment directly behind the XMP segment, every other byte in
    place. *)
Theorem reinsert_metadata_order pszName m_abyEXIFBox m_osXMP before j after tail :
  EQUAL pszName "CODESTREAM_WITHOUT_EXIF" = false ->
  Forall scannable (before ++ j :: after) ->
  size (codestream (before ++ j :: after) tail) < INT_MAX ->
  2 + size EXIF_SIGNATURE + size m_abyEXIFBox <= 65535 ->
  m_osXMP <> [] ->
  2 + size APP1_XMP_SIGNATURE + size m_osXMP <= 65535 ->
  existsb (has_signature 0xE1 EXIF_SIGNATURE) (before ++ j :: after) = false ->
  existsb (has_signature 0xE1 APP1_XMP_SIGNATURE) (before ++ j :: after) = false ->
  is_JFIF j = true ->
  forallb (fun s => negb (is_JFIF s)) after = true ->
  reinsert_metadata pszName m_abyEXIFBox m_osXMP
    (codestream (before ++ j :: after) tail)
  = Some (codestream
            (before ++ j :: APP1_segment APP1_XMP_SIGNATURE m_osXMP
                         :: APP1_segment EXIF_SIGNATURE m_abyEXIFBox :: after)
            tail).
Proof.
  intros Hname Hwf Hsize HfitE Hne HfitX HxE HxX Hj Hafter.
  unfold reinsert_metadata.
  assert (Hnz : (size (codestream (before ++ j :: after) tail) =? 0) = false).
  { apply Z.eqb_neq. unfold codestream. rewrite size_app.
    pose proof (size_nonneg
                  (flat_map seg_bytes (before ++ j :: after)
                   ++ 0xFF :: 0xDA :: tail)).
    change (size [0xFF; 0xD8]) with 2. lia. }
  rewrite Hnz, (proj2 (Z.ltb_lt _ _) Hsize). cbn [negb andb]. f_equal.
  rewrite insert_EXIF_splices by assumption.
  apply (insert_XMP_splices m_osXMP before j
           (APP1_segment EXIF_SIGNATURE m_abyEXIFBox :: after) tail);
    try assumption.
  - apply scannable_insert; [assumption|].
    now apply APP1_segment_scannable.
  - rewrite existsb_app in HxX |- *. cbn [existsb] in HxX |- *.
    now rewrite EXIF_segment_is_not_XMP.
Qed.

Lemma reinsert_metadata_order_witness :
  Jpeg.reinsert_metadata "CODESTREAM" [77; 77] [60; 63] Jpeg.jfif_codestream
  = Some (Jpeg.codestream
            [ {| Jpeg.seg_marker := 0xE0;
                 Jpeg.seg_payload :=
                   [74; 70; 73; 70; 0; 1; 1; 0; 0; 1; 0; 1; 0; 0] |};
              Jpeg.APP1_segment Jpeg.APP1_XMP_SIGNATURE [60; 63];
              Jpeg.APP1_segment Jpeg.EXIF_SIGNATURE [77; 77] ]
            [0; 2; 0xFF; 0xD9]).
Proof.
  apply (reinsert_metadata_order "CODESTREAM" [77; 77] [60; 63] []
           {| Jpeg.seg_marker := 0xE0;
              Jpeg.seg_payload := [74; 70; 73; 70; 0; 1; 1; 0; 0; 1; 0; 1; 0; 0] |}
           [] [0; 2; 0xFF; 0xD9]).
  - reflexivity.
  - repeat constructor; cbn; (discriminate || lia).
  - reflexivity.
  - cbn. lia.
  - discriminate.
  - cbn. lia.
  - reflexivity.
  - reflexivity.
  - reflexivity.
  - reflexivity.
Defined.

(** ** The sanitising pass of [CreateCopy]: bounds, corrupt input, fixpoint *)

Lemma size_firstn_le n v : size (firstn n v) <= size v.
Proof. unfold size. rewrite length_firstn. lia. Qed.

Lemma size_firstn_le_n n v : size (firstn n v) <= Z.of_nat n.
Proof. unfold size. rewrite length_firstn. lia. Qed.

Lemma size_skipn v i : 0 <= i <= size v -> size (skipn (Z.to_nat i) v) = size v - i.
Proof. intros H. unfold size in *. rewrite length_skipn. lia. Qed.

Lemma Forall_firstn_nonneg n v :
  Forall (fun b => 0 <= b) v -> Forall (fun b => 0 <= b) (firstn n v).
Proof.
  intros H. rewrite <- (firstn_skipn n v) in H.
  now apply Forall_app in H as [H _].
Qed.

Lemma strip_markers_bound fuel abyJPEG :
  Forall (fun b => 0 <= b) abyJPEG ->
  forall i abyJPEGMod,
    0 <= i -> size abyJPEGMod <= i -> size abyJPEGMod <= size abyJPEG ->
    size (strip_markers fuel abyJPEG i abyJPEGMod) <= size abyJPEG.
Proof.
  intros Hb. induction fuel as [|fuel IH]; intros i acc Hi Hacc Hsz;
    cbn [strip_markers]; [assumption|].
  destruct (Z.ltb_spec (i + 1) (size abyJPEG)) as [Hin|_]; cbn [negb];
    [|assumption].
  destruct (at_ abyJPEG i =? 0xFF); cbn [negb];
    [|rewrite size_nil; apply size_nonneg].
  destruct (negb (Z.land (at_ abyJPEG (i + 1)) 0xF0 =? 0xE0)
            && negb (at_ abyJPEG (i + 1) =? 0xFE)).
  { rewrite size_app, size_skipn by lia. lia. }
  destruct (Z.leb_spec (size abyJPEG) (i + 2 + 1)) as [_|Hlen];
    [rewrite size_nil; apply size_nonneg|].
  pose proof (at_nonneg abyJPEG (i + 2) Hb) as H0.
  pose proof (at_nonneg abyJPEG (i + 2 + 1) Hb) as H1.
  set (n := at_ abyJPEG (i + 2) * 256 + at_ abyJPEG (i + 2 + 1)) in *.
  assert (Hn : 0 <= n) by (subst n; lia).
  apply IH; [lia| |].
  - destruct ((_ || _) && _); [|lia].
    rewrite size_app. unfold range.
    pose proof (size_firstn_le_n (Z.to_nat (i + 2 + n - (i + 2 - 2)))
                  (skipn (Z.to_nat (i + 2 - 2)) abyJPEG)). lia.
  - destruct (Z.leb_spec (i + 2 + n) (size abyJPEG)) as [Hfit|_];
      [|rewrite andb_false_r; assumption].
    destruct (_ || _); cbn [andb]; [|assumption].
    rewrite size_app. unfold range.
    pose proof (size_firstn_le_n (Z.to_nat (i + 2 + n - (i + 2 - 2)))
                  (skipn (Z.to_nat (i + 2 - 2)) abyJPEG)). lia.
Qed.

Lemma remove_mask_prefix abyJPEG :
  exists n, remove_mask abyJPEG = firstn n abyJPEG.
Proof.
  unfold remove_mask.
  destruct (4 <? size abyJPEG); [|exists (length abyJPEG); now rewrite firstn_all].
  destruct (_ && _); [eexists; reflexivity|].
  exists (length abyJPEG). now rewrite firstn_all.
Qed.

Lemma sanitize_size_le file :
  Forall (fun b => 0 <= b) file ->
  size (sanitize file) <= size file.
Proof.
  intros Hb. unfold sanitize.
  destruct (_ && _); [|lia].
  destruct (remove_mask_prefix file) as [n ->].
  pose proof (size_firstn_le n file) as Hle.
  etransitivity; [|exact Hle].
  apply strip_markers_bound.
  - now apply Forall_firstn_nonneg.
  - lia.
  - apply (size_firstn_le_n 2).
  - apply size_firstn_le.
Qed.

(** X11: The sanitising pass never lengthens the file: whatever the bytes of the
    source file are, the bitstream kept for embedding has at most as many
    bytes as the file. *)
Theorem sanitize_never_grows file :
  Forall (fun b => 0 <= b) file ->
  size (sanitize file) <= size file.
Proof.
  intros Hb. unfold sanitize.
  destruct (_ && _); [|lia].
  destruct (remove_mask_prefix file) as [n ->].
  pose proof (size_firstn_le n file) as Hle.
  etransitivity; [|exact Hle].
  apply strip_markers_bound.
  - now apply Forall_firstn_nonneg.
  - lia.
  - apply (size_firstn_le_n 2).
  - apply size_firstn_le.
Qed.

Lemma sanitize_never_grows_witness :
  Jpeg.size (Jpeg.sanitize Jpeg.commented_file) <= Jpeg.size Jpeg.commented_file.
Proof.
  apply sanitize_never_grows.
  unfold Jpeg.commented_file. repeat constructor; lia.
Defined.

(** The walk of the loop over a run of APPn/COM segments, whatever follows
    them: the index reaches the end of the run with the COM and APP0 segments
    copied. *)
Lemma strip_markers_walk segs :
  forall pre acc fuel i j rest,
    Forall wf_segment segs ->
    2 <= size rest ->
    i = size pre ->
    j = i + size (flat_map seg_bytes segs) ->
    (length segs <= fuel)%nat ->
    strip_markers fuel (pre ++ flat_map seg_bytes segs ++ rest) i acc
    = strip_markers (fuel - length segs)
        (pre ++ flat_map seg_bytes segs ++ rest) j
        (acc ++ flat_map seg_bytes (filter kept segs)).
Proof.
  induction segs as [|s segs IH]; intros pre acc fuel i j rest Hwf Hrest2 Hi Hj Hfuel.
  - cbn [flat_map filter length app] in *. rewrite size_nil in Hj.
    rewrite Nat.sub_0_r, app_nil_r. f_equal. lia.
  - destruct fuel as [|fuel]; [cbn in Hfuel; lia|].
    cbn [length]. rewrite Nat.sub_succ. cbn [strip_markers].
    inversion Hwf as [|? ? [Hmk Hlen] Hwf']; subst.
    cbn [flat_map filter]. rewrite <- app_assoc.
    set (tl := flat_map seg_bytes segs ++ rest).
    set (n := 2 + size (seg_payload s)) in *.
    pose proof (size_nonneg (seg_payload s)) as Hp.
    destruct (length_field n ltac:(lia)) as (Hhi & Hlo & Hn).
    assert (Htl : 2 <= size tl).
    { subst tl. rewrite size_app.
      pose proof (size_nonneg (flat_map seg_bytes segs)). lia. }
    set (S := pre ++ seg_bytes s ++ tl).
    assert (Esz : size S = size pre + 4 + size (seg_payload s) + size tl)
      by (subst S; rewrite !size_app, size_seg_bytes; lia).
    assert (E0 : at_ S (size pre) = 0xFF).
    { subst S. rewrite (at_app_off pre _ _ 0) by lia. apply at_cons_0. }
    assert (E1 : at_ S (size pre + 1) = seg_marker s).
    { subst S. rewrite (at_app_off pre _ _ 1) by lia. unfold seg_bytes.
      cbn [app]. rewrite at_cons_S by lia. apply at_cons_0. }
    assert (E2 : at_ S (size pre + 2) = n / 256).
    { subst S. rewrite (at_app_off pre _ _ 2) by lia. unfold seg_bytes.
      cbn [app]. rewrite !at_cons_S by lia. apply at_cons_0. }
    assert (E3 : at_ S (size pre + 2 + 1) = n mod 256).
    { subst S. rewrite (at_app_off pre _ _ 3) by lia. unfold seg_bytes.
      cbn [app]. rewrite !at_cons_S by lia. apply at_cons_0. }
    assert (T1 : (size pre + 1 <? size S) = true) by (apply Z.ltb_lt; lia).
    assert (T2 : (size S <=? size pre + 2 + 1) = false) by (apply Z.leb_gt; lia).
    rewrite T1, E0, E1, T2, E2, E3, Hn, Z.eqb_refl. cbn [negb].
    assert (T3 : negb (Z.land (seg_marker s) 0xF0 =? 0xE0)
                 && negb (seg_marker s =? 0xFE) = false).
    { unfold is_APPn, is_COM in Hmk.
      destruct (Z.land (seg_marker s) 0xF0 =? 0xE0), (seg_marker s =? 0xFE);
        cbn in *; congruence. }
    rewrite T3.
    assert (T4 : (size pre + 2 + n <=? size S) = true) by (apply Z.leb_le; lia).
    rewrite T4, andb_true_r.
    assert (R : range S (size pre + 2 - 2) (size pre + 2 + n) = seg_bytes s).
    { subst S. apply range_app; [lia | rewrite size_seg_bytes; lia]. }
    rewrite R.
    subst S. rewrite app_assoc. subst tl.
    rewrite (IH (pre ++ seg_bytes s) _ fuel (size pre + 2 + n)
               (size pre + size (seg_bytes s ++ flat_map seg_bytes segs)) rest);
      try assumption.
    + f_equal.
      change (seg_marker s =? 0xFE) with (is_COM (seg_marker s)).
      change (seg_marker s =? 0xE0) with (is_APP0 (seg_marker s)).
      fold (kept s). destruct (kept s); [|reflexivity].
      cbn [flat_map]. now rewrite <- !app_assoc.
    + rewrite size_app, size_seg_bytes. lia.
    + rewrite !size_app, size_seg_bytes. lia.
    + cbn [length] in Hfuel. lia.
Qed.

Lemma remove_mask_plain body :
  Forall (fun b => 0 <= b) body ->
  size body + 2 < 2 ^ 31 ->
  remove_mask (body ++ [0xFF; 0xD9]) = body ++ [0xFF; 0xD9].
Proof.
  intros Hb Hsz. unfold remove_mask.
  set (file := body ++ [0xFF; 0xD9]).
  assert (Esz : size file = size body + 2)
    by (subst file; rewrite size_app, !size_cons, size_nil; lia).
  pose proof (size_nonneg body) as Hn.
  destruct (4 <? size file); [|reflexivity].
  assert (Hf : Forall (fun b => 0 <= b) file).
  { subst file. apply Forall_app. split; [assumption|].
    repeat constructor; lia. }
  pose proof (at_nonneg file (size file - 4) Hf) as H0.
  pose proof (at_nonneg file (size file - 3) Hf) as H1.
  assert (A2 : at_ file (size file - 2) = 0xFF).
  { subst file. rewrite (at_app_off body _ _ 0) by lia. apply at_cons_0. }
  assert (A3 : at_ file (size file - 1) = 0xD9).
  { subst file. rewrite (at_app_off body _ _ 1) by lia.
    rewrite at_cons_S by lia. apply at_cons_0. }
  rewrite A2, A3.
  set (nImageSize := at_ file (size file - 4) + 256 * at_ file (size file - 3)
                     + 65536 * 255 + 16777216 * 217).
  assert (T : (nImageSize <=? size file - 4) = false).
  { apply Z.leb_gt. subst nImageSize.
    change (2 ^ 31) with 2147483648 in Hsz. lia. }
  rewrite T, andb_false_r. reflexivity.
Qed.

(** X12: A stream whose byte at a marker position is not [FF] is given up: when a
    non-CMYK JPEG source in lossless mode has, behind its leading APPn and
    COM segments, a byte other than [FF] where a marker must start, no JPEG
    bitstream is embedded at all. *)
Theorem corrupt_marker_clears cs segs b rest :
  match cs with Some c => EQUAL c "CMYK" | None => false end = false ->
  Forall wf_segment segs ->
  b <> 0xFF ->
  let file :=
    [0xFF; 0xD8] ++ flat_map seg_bytes segs ++ b :: rest ++ [0xFF; 0xD9] in
  Forall (fun x => 0 <= x) file ->
  size file < 2 ^ 31 ->
  CreateCopy_abyJPEG true cs true (Some file) = [].
Proof.
  intros Hcs Hwf Hb file Hbytes Hsz.
  pose proof (size_nonneg rest) as Hr.
  pose proof (size_nonneg (flat_map seg_bytes segs)) as Hs.
  assert (En : size file = 2 + size (flat_map seg_bytes segs) + 1 + size rest + 2).
  { subst file. rewrite !size_app, !size_cons, size_app, !size_cons, size_nil. lia. }
  unfold CreateCopy_abyJPEG. rewrite Hcs. cbn [negb andb].
  assert (T0 : (2 <? size file) = true) by (apply Z.ltb_lt; lia).
  assert (T1 : (size file <? SIZE_MAX / 2) = true).
  { apply Z.ltb_lt. change (SIZE_MAX / 2) with 9223372036854775807.
    change (2 ^ 31) with 2147483648 in Hsz. lia. }
  rewrite T0, T1. cbn [andb]. unfold sanitize.
  assert (S0 : at_ file 0 = 0xFF) by apply at_cons_0.
  assert (S1 : at_ file 1 = 0xD8)
    by (subst file; cbn [app]; rewrite at_cons_S by lia; apply at_cons_0).
  rewrite S0, S1, !Z.eqb_refl. cbn [andb].
  assert (Ef : file
               = ([0xFF; 0xD8] ++ flat_map seg_bytes segs ++ b :: rest)
                 ++ [0xFF; 0xD9]).
  { subst file. rewrite <- !app_assoc. do 2 f_equal. }
  assert (R : remove_mask file = file).
  { rewrite Ef. apply remove_mask_plain.
    - rewrite Ef in Hbytes. now apply Forall_app in Hbytes as [H _].
    - rewrite Ef, size_app in Hsz. change (size [0xFF; 0xD9]) with 2 in Hsz. lia. }
  rewrite R.
  change (firstn 2 file) with [0xFF; 0xD8].
  set (tl := b :: rest ++ [0xFF; 0xD9]).
  assert (Etl : size tl = 1 + size rest + 2)
    by (subst tl; rewrite size_cons, size_app, !size_cons, size_nil; lia).
  change file with ([0xFF; 0xD8] ++ flat_map seg_bytes segs ++ tl) at 2.
  assert (Hlen : (length segs < length file)%nat).
  { pose proof (length_flat_map_seg_bytes segs).
    subst file. rewrite !length_app. cbn [length]. lia. }
  rewrite (strip_markers_walk segs [0xFF; 0xD8] [0xFF; 0xD8] (length file) 2
             (2 + size (flat_map seg_bytes segs)) tl);
    [|assumption|lia|reflexivity|reflexivity|lia].
  destruct (length file - length segs)%nat as [|fuel] eqn:Ef'; [lia|].
  cbn [strip_markers].
  change ([0xFF; 0xD8] ++ flat_map seg_bytes segs ++ tl) with file.
  assert (T2 : (2 + size (flat_map seg_bytes segs) + 1 <? size file) = true)
    by (apply Z.ltb_lt; lia).
  assert (Ab : at_ file (2 + size (flat_map seg_bytes segs)) = b).
  { subst file. rewrite app_assoc.
    rewrite (at_app_off ([0xFF; 0xD8] ++ flat_map seg_bytes segs) _ _ 0);
      [apply at_cons_0 | rewrite size_app; change (size [0xFF; 0xD8]) with 2; lia | lia]. }
  rewrite T2, Ab. cbn [negb].
  now rewrite (proj2 (Z.eqb_neq b 0xFF) Hb).
Qed.

Lemma corrupt_marker_clears_witness :
  Jpeg.CreateCopy_abyJPEG true None true
    (Some [0xFF; 0xD8; 0xFF; 0xE0; 0; 2; 0x41; 0xFF; 0xDA; 0xFF; 0xD9]) = [].
Proof.
  apply (corrupt_marker_clears None
           [ {| seg_marker := 0xE0; seg_payload := [] |} ]
           0x41 [0xFF; 0xDA]).
  - reflexivity.
  - repeat constructor; cbn; lia.
  - discriminate.
  - cbn. repeat constructor; lia.
  - cbn. lia.
Defined.

Lemma filter_kept_idem segs : filter kept (filter kept segs) = filter kept segs.
Proof.
  induction segs as [|s segs IH]; [reflexivity|].
  cbn [filter]. destruct (kept s) eqn:E; [|assumption].
  cbn [filter]. now rewrite E, IH.
Qed.

Lemma Forall_filter_wf segs :
  Forall wf_segment segs -> Forall wf_segment (filter kept segs).
Proof.
  induction 1 as [|s segs Hs _ IH]; [constructor|].
  cbn [filter]. destruct (kept s); [constructor|]; assumption.
Qed.

Lemma Forall_nonneg_filter_kept segs :
  Forall (fun b => 0 <= b) (flat_map seg_bytes segs) ->
  Forall (fun b => 0 <= b) (flat_map seg_bytes (filter kept segs)).
Proof.
  induction segs as [|s segs IH]; [constructor|].
  cbn [flat_map filter]. intros H. apply Forall_app in H as [Hs Hr].
  destruct (kept s); [|now apply IH].
  cbn [flat_map]. apply Forall_app. split; [assumption | now apply IH].
Qed.

Lemma sanitize_plain segs m mid :
  Forall wf_segment segs ->
  (is_APPn m || is_COM m) = false ->
  let file :=
    [0xFF; 0xD8] ++ flat_map seg_bytes segs ++ [0xFF; m] ++ mid ++ [0xFF; 0xD9] in
  Forall (fun x => 0 <= x) file ->
  size file < 2 ^ 31 ->
  sanitize file
  = [0xFF; 0xD8] ++ flat_map seg_bytes (filter kept segs)
    ++ [0xFF; m] ++ mid ++ [0xFF; 0xD9].
Proof.
  intros Hwf Hm file Hbytes Hsz. unfold sanitize.
  assert (S0 : at_ file 0 = 0xFF) by apply at_cons_0.
  assert (S1 : at_ file 1 = 0xD8)
    by (subst file; cbn [app]; rewrite at_cons_S by lia; apply at_cons_0).
  rewrite S0, S1, !Z.eqb_refl. cbn [andb].
  assert (Ef : file
               = ([0xFF; 0xD8] ++ flat_map seg_bytes segs ++ [0xFF; m] ++ mid)
                 ++ [0xFF; 0xD9]).
  { subst file. now rewrite <- !app_assoc. }
  assert (R : remove_mask file = file).
  { rewrite Ef. apply remove_mask_plain.
    - rewrite Ef in Hbytes. now apply Forall_app in Hbytes as [H _].
    - rewrite Ef, size_app in Hsz. change (size [0xFF; 0xD9]) with 2 in Hsz. lia. }
  rewrite R.
  change file with
    ([0xFF; 0xD8] ++ flat_map seg_bytes segs ++ 0xFF :: m :: mid ++ [0xFF; 0xD9]).
  change (firstn 2 ([0xFF; 0xD8] ++ ?x)) with [0xFF; 0xD8].
  apply strip_markers_segments; try assumption.
  - reflexivity.
  - pose proof (length_flat_map_seg_bytes segs).
    rewrite !length_app. cbn [length]. lia.
Qed.

(** X13: Sanitising is a projection on plain JPEG files: a file with no mask
    trailer loses its APPn segments other than APP0 and keeps everything
    else, and sanitising the result again gives the result back. *)
Theorem sanitize_fixed_point segs m mid :
  Forall wf_segment segs ->
  (is_APPn m || is_COM m) = false ->
  let file :=
    [0xFF; 0xD8] ++ flat_map seg_bytes segs ++ [0xFF; m] ++ mid ++ [0xFF; 0xD9] in
  Forall (fun x => 0 <= x) file ->
  size file < 2 ^ 31 ->
  sanitize file
  = [0xFF; 0xD8] ++ flat_map seg_bytes (filter kept segs)
    ++ [0xFF; m] ++ mid ++ [0xFF; 0xD9]
  /\ sanitize (sanitize file) = sanitize file.
Proof.
  intros Hwf Hm file Hbytes Hsz.
  pose proof (sanitize_plain segs m mid Hwf Hm Hbytes Hsz) as E.
  fold file in E. split; [exact E|].
  pose proof (sanitize_size_le file Hbytes) as Hle.
  rewrite E in Hle |- *.
  rewrite (sanitize_plain (filter kept segs) m mid).
  - now rewrite filter_kept_idem.
  - now apply Forall_filter_wf.
  - assumption.
  - subst file. apply Forall_app in Hbytes as [Hsoi Hrest].
    apply Forall_app in Hrest as [Hsegs Htail].
    apply Forall_app. split; [assumption|].
    apply Forall_app. split; [now apply Forall_nonneg_filter_kept | assumption].
  - lia.
Qed.

Lemma sanitize_fixed_point_witness :
  Jpeg.sanitize Jpeg.commented_file
  = [0xFF; 0xD8; 0xFF; 0xFE; 0; 4; 104; 105; 0xFF; 0xE0; 0; 2;
     0xFF; 0xDA; 0; 2; 0xFF; 0xD9]
  /\ Jpeg.sanitize (Jpeg.sanitize Jpeg.commented_file)
     = Jpeg.sanitize Jpeg.commented_file.
Proof.
  apply (sanitize_fixed_point
           [ {| seg_marker := 0xFE; seg_payload := [104; 105] |};
             {| seg_marker := 0xE1; seg_payload := [1; 2] |};
             {| seg_marker := 0xE0; seg_payload := [] |} ]
           0xDA [0; 2]).
  - repeat constructor; cbn; lia.
  - reflexivity.
  - cbn. repeat constructor; lia.
  - cbn. lia.
Defined.

(** ** The bitstream embedded by [CreateCopy] *)







End JpegFacts.

(** ** The event loop of [Open] *)

Module OpenLoopFacts.
Import OpenLoop.

Section WithEnvironment.

Variable nMaxBoxBufferSize : Z.
Variable EXIFExtractMetadata : list Z -> list string.

Local Abbreviation ProcessCurrentBox :=
  (OpenLoop.ProcessCurrentBox EXIFExtractMetadata).
Local Abbreviation close_open_box :=
  (OpenLoop.close_open_box EXIFExtractMetadata).
Local Abbreviation step :=
  (OpenLoop.step nMaxBoxBufferSize EXIFExtractMetadata).
Local Abbreviation Open_loop :=
  (OpenLoop.Open_loop nMaxBoxBufferSize EXIFExtractMetadata).

Lemma recognized_cases szType :
  recognized szType = true ->
  szType = "xml "%string \/ szType = "Exif"%string \/ szType = "jumb"%string.
Proof.
  unfold recognized. intros H.
  apply orb_true_iff in H as [H | H]; [apply orb_true_iff in H as [H | H]|];
    apply String.eqb_eq in H; auto.
Qed.

Lemma recognized_not_empty szType : recognized szType = true -> szType <> ""%string.
Proof. intros H ->. discriminate. Qed.

(** Closing a box never touches the box buffer. *)
Lemma close_open_box_buffer rel st :
  box_allocs (close_open_box rel st) = box_allocs st
  /\ abyBoxBuffer_size (close_open_box rel st) = abyBoxBuffer_size st.
Proof.
  unfold OpenLoop.close_open_box, OpenLoop.ProcessCurrentBox.
  repeat match goal with
         | |- context [if ?c then _ else _] => destruct c
         end; cbn; auto.
Qed.

Lemma untouched_CPLError szType m st :
  untouched szType st -> untouched szType (CPLError m st).
Proof. intros H. exact H. Qed.

Lemma untouched_ProcessCurrentBox szType rel st :
  szType <> ""%string ->
  untouched szType st -> untouched szType (ProcessCurrentBox rel st).
Proof.
  intros Hne [Hcur Habs]. unfold OpenLoop.ProcessCurrentBox.
  repeat match goal with
         | |- context [if ?c then _ else _] => destruct c eqn:?
         end.
  all: repeat match goal with
              | H : (_ && _) = true |- _ => apply andb_true_iff in H as [? ?]
              | H : String.eqb _ _ = true |- _ => apply String.eqb_eq in H
              end.
  all: split; [cbn; congruence|].
  all: unfold metadata_absent in *; cbn;
    intuition (subst; try congruence; auto).
Qed.

Lemma untouched_close_open_box szType rel st :
  szType <> ""%string ->
  untouched szType st -> untouched szType (close_open_box rel st).
Proof.
  intros Hne H. unfold OpenLoop.close_open_box.
  destruct (String.eqb (osCurrentBox st) ""); [assumption|].
  destruct (bThrows rel); [assumption|].
  now apply untouched_ProcessCurrentBox.
Qed.

Lemma untouched_step szType ev st :
  recognized szType = true ->
  over_ceiling nMaxBoxBufferSize szType ev ->
  untouched szType st -> untouched szType (control_state (step ev st)).
Proof.
  intros Hrec Hov Hst. pose proof (recognized_not_empty _ Hrec) as Hne.
  destruct ev as [rel | nRead ok | ok i | rel tok ty raw rt sb | | nrem rt sb | n];
    cbn [OpenLoop.step].
  - now apply untouched_close_open_box.
  - destruct (nRead =? 0); [assumption|]. destruct ok; assumption.
  - destruct Hst as [Hcur Habs].
    repeat match goal with
           | |- context [if ?c then _ else _] => destruct c
           end; split; assumption.
  - pose proof (untouched_close_open_box szType rel st Hne Hst) as [_ Habs].
    assert (H0 : untouched szType (set_osCurrentBox "" (close_open_box rel st)))
      by (split; [cbn; congruence | exact Habs]).
    set (st0 := set_osCurrentBox "" (close_open_box rel st)) in *.
    destruct tok; cbn [negb]; [|exact H0].
    destruct (recognized ty) eqn:Hty.
    + destruct (Z.ltb_spec nMaxBoxBufferSize raw) as [Hlt | Hge]; [exact H0|].
      assert (Hdiff : ty <> szType) by (intros E; cbn in Hov; specialize (Hov E); lia).
      destruct H0 as [_ Habs0].
      repeat match goal with
             | |- context [if ?c then _ else _] => destruct c
             end; split; cbn; auto.
    + destruct (String.eqb ty "jbrd"); destruct H0; split; assumption.
  - assumption.
  - destruct Hst as [Hcur Habs].
    repeat match goal with
           | |- context [if ?c then _ else _] => destruct c
           end; split; cbn; auto.
  - assumption.
Qed.

Lemma untouched_Open_loop szType events :
  recognized szType = true ->
  Forall (over_ceiling nMaxBoxBufferSize szType) events ->
  forall st, untouched szType st ->
             untouched szType (outcome_state (Open_loop events st)).
Proof.
  intros Hrec Hall. induction Hall as [|ev events Hev Hall IH]; intros st Hst.
  - exact Hst.
  - cbn [OpenLoop.Open_loop].
    pose proof (untouched_step szType ev st Hrec Hev Hst) as Hstep.
    destruct (step ev st) as [st' | st' | st']; cbn [control_state] in Hstep.
    + now apply IH.
    + unfold after_loop. destruct (bGotInfo st'); exact Hstep.
    + exact Hstep.
Qed.

Lemma allocs_bounded_step ev st :
  allocs_bounded nMaxBoxBufferSize st ->
  allocs_bounded nMaxBoxBufferSize (control_state (step ev st)).
Proof.
  unfold allocs_bounded. intros H.
  destruct ev as [rel | nRead ok | ok i | rel tok ty raw rt sb | | nrem rt sb | n];
    cbn [OpenLoop.step];
    try rewrite <- (proj1 (close_open_box_buffer rel st)) in H.
  all: repeat match goal with
              | |- context [if ?c then _ else _] => destruct c eqn:?
              end;
    cbn [control_state]; try exact H.
  all: cbn; rewrite ?Forall_app; repeat split; try exact H;
    repeat constructor.
  all: repeat match goal with
              | E : (_ <? _) = false |- _ => apply Z.ltb_ge in E
              end; cbn in *; lia.
Qed.

Lemma allocs_bounded_Open_loop events :
  forall st, allocs_bounded nMaxBoxBufferSize st ->
             allocs_bounded nMaxBoxBufferSize (outcome_state (Open_loop events st)).
Proof.
  induction events as [|ev events IH]; intros st Hst; [exact Hst|].
  cbn [OpenLoop.Open_loop].
  pose proof (allocs_bounded_step ev st Hst) as Hstep.
  destruct (step ev st) as [st' | st' | st']; cbn [control_state] in Hstep.
  - now apply IH.
  - unfold after_loop. destruct (bGotInfo st'); exact Hstep.
  - exact Hstep.
Qed.

Lemma untouched_initial szType :
  recognized szType = true -> untouched szType initial_state.
Proof.
  intros Hrec. split.
  - cbn. intros E. now apply (recognized_not_empty szType).
  - repeat split; reflexivity.
Qed.

End WithEnvironment.

(** The scenario of a 200,000,000-byte box against the default ceiling:
    [Open] succeeds, nothing was allocated for the box, no XMP is retained,
    and the only message is the warning. *)
Lemma huge_xml_box_scenario :
  exists st,
    Open default_nMaxBoxBufferSize no_EXIF (script_with_huge_xml gray_4x4)
    = Returned true st
    /\ box_allocs st = []
    /\ abyBoxBuffer_size st = 1024 * 1024
    /\ m_osXMP st = []
    /\ messages st
       = [W_BoxOverCeiling "xml " 200000000 default_nMaxBoxBufferSize].
Proof. eexists. repeat split. Qed.

(** C6, as stated, fails: a box over the ceiling does not leave the metadata
    of its type absent when an earlier box of that type was within the
    ceiling.  Here the first "xml " box is retained, the second one is
    skipped with the warning, [Open] returns true and the XMP is present. *)
Lemma metadata_present_after_oversized_box :
  exists st,
    Open default_nMaxBoxBufferSize no_EXIF (script_small_then_huge_xml gray_4x4)
    = Returned true st
    /\ m_osXMP st = xpacket
    /\ messages st
       = [W_BoxOverCeiling "xml " 200000000 default_nMaxBoxBufferSize]
    /\ ~ metadata_absent "xml " st.
Proof.
  eexists. repeat split.
  intros [Hxml _]. specialize (Hxml eq_refl). discriminate Hxml.
Qed.

(** C6, amended: for a box of a recognized type ("xml ", "Exif", "jumb")
    whose raw size exceeds the ceiling, the turn of the loop requests no
    allocation and leaves the box buffer as it is, emits a warning, retains
    nothing (what is retained afterwards is what was retained once the box
    open before it was closed), opens no box, so that no later closing can
    retain anything of this box, and goes on with the rest of the stream;
    over the whole of [Open] no allocation request for the box buffer
    exceeds the ceiling (or the default size of one MiB); and when every box
    of that type exceeds the ceiling, the metadata of that type is absent
    when [Open] is done. *)
Theorem box_over_ceiling_skipped nMaxBoxBufferSize EXIFExtractMetadata szType :
  recognized szType = true ->
  (forall rel nRawSize bResizeThrows bSetBufferOk st,
      nMaxBoxBufferSize < nRawSize ->
      exists st',
        step nMaxBoxBufferSize EXIFExtractMetadata
          (Box rel true szType nRawSize bResizeThrows bSetBufferOk) st
        = Continue st'
        /\ box_allocs st' = box_allocs st
        /\ abyBoxBuffer_size st' = abyBoxBuffer_size st
        /\ messages st'
           = messages (close_open_box EXIFExtractMetadata rel st)
             ++ [W_BoxOverCeiling szType nRawSize nMaxBoxBufferSize]
        /\ is_warning (W_BoxOverCeiling szType nRawSize nMaxBoxBufferSize) = true
        /\ retained st' = retained (close_open_box EXIFExtractMetadata rel st)
        /\ osCurrentBox st' = ""%string
        /\ (forall rel', close_open_box EXIFExtractMetadata rel' st' = st')
        /\ (forall rest,
              Open_loop nMaxBoxBufferSize EXIFExtractMetadata
                (Box rel true szType nRawSize bResizeThrows bSetBufferOk :: rest)
                st
              = Open_loop nMaxBoxBufferSize EXIFExtractMetadata rest st'))
  /\ (forall events,
        allocs_bounded nMaxBoxBufferSize
          (outcome_state (Open nMaxBoxBufferSize EXIFExtractMetadata events)))
  /\ (forall events,
        Forall (over_ceiling nMaxBoxBufferSize szType) events ->
        metadata_absent szType
          (outcome_state (Open nMaxBoxBufferSize EXIFExtractMetadata events))).
Proof.
  intros Hrec. split; [|split].
  - intros rel nRawSize bResizeThrows bSetBufferOk st Hlt.
    destruct (close_open_box_buffer EXIFExtractMetadata rel st) as [Ha Hs].
    assert (Hstep :
              step nMaxBoxBufferSize EXIFExtractMetadata
                (Box rel true szType nRawSize bResizeThrows bSetBufferOk) st
              = Continue
                  (CPLError (W_BoxOverCeiling szType nRawSize nMaxBoxBufferSize)
                     (set_osCurrentBox ""
                        (close_open_box EXIFExtractMetadata rel st)))).
    { cbn [step negb]. rewrite Hrec.
      destruct (Z.ltb_spec nMaxBoxBufferSize nRawSize); [reflexivity | lia]. }
    eexists. split; [exact Hstep|].
    repeat split; try assumption.
    cbn [Open_loop]. now rewrite Hstep.
  - intros events. apply allocs_bounded_Open_loop. constructor.
  - intros events Hall.
    apply (untouched_Open_loop nMaxBoxBufferSize EXIFExtractMetadata szType events
             Hrec Hall initial_state).
    now apply untouched_initial.
Qed.

Lemma box_over_ceiling_skipped_witness :
  (exists st',
      OpenLoop.step OpenLoop.default_nMaxBoxBufferSize OpenLoop.no_EXIF
        (OpenLoop.Box OpenLoop.nothing_released true "xml " 200000000 false true)
        OpenLoop.initial_state
      = OpenLoop.Continue st'
      /\ OpenLoop.box_allocs st' = []
      /\ OpenLoop.messages st'
         = [OpenLoop.W_BoxOverCeiling "xml " 200000000
              OpenLoop.default_nMaxBoxBufferSize])
  /\ OpenLoop.metadata_absent "xml "
       (OpenLoop.outcome_state
          (OpenLoop.Open OpenLoop.default_nMaxBoxBufferSize OpenLoop.no_EXIF
             (OpenLoop.script_with_huge_xml OpenLoop.gray_4x4))).
Proof.
  destruct (box_over_ceiling_skipped OpenLoop.default_nMaxBoxBufferSize
              OpenLoop.no_EXIF "xml " eq_refl) as (Hturn & _ & Habsent).
  split.
  - destruct (Hturn OpenLoop.nothing_released 200000000 false true
                OpenLoop.initial_state eq_refl)
      as (st' & Hstep & Hallocs & _ & Hmsg & _).
    exists st'. split; [exact Hstep|]. split; [exact Hallocs | exact Hmsg].
  - apply Habsent. repeat constructor.
Defined.

(** ** Invariants of the loop of [Open] *)

Section Invariants.

Variable nMaxBoxBufferSize : Z.
Variable EXIFExtractMetadata : list Z -> list string.

Local Abbreviation ProcessCurrentBox :=
  (OpenLoop.ProcessCurrentBox EXIFExtractMetadata).
Local Abbreviation close_open_box :=
  (OpenLoop.close_open_box EXIFExtractMetadata).
Local Abbreviation step :=
  (OpenLoop.step nMaxBoxBufferSize EXIFExtractMetadata).
Local Abbreviation Open_loop :=
  (OpenLoop.Open_loop nMaxBoxBufferSize EXIFExtractMetadata).
Local Abbreviation Open :=
  (OpenLoop.Open nMaxBoxBufferSize EXIFExtractMetadata).

Ltac branches :=
  repeat match goal with
         | |- context [if ?c then _ else _] => destruct c eqn:?
         end.

(** A property that every turn and every message keeps holds when the loop
    is left, however it is left. *)
Lemma Open_loop_invariant (P : State -> Prop) :
  (forall m st, P st -> P (CPLError m st)) ->
  (forall ev st, P st -> P (control_state (step ev st))) ->
  forall events st, P st -> P (outcome_state (Open_loop events st)).
Proof.
  intros Hmsg Hstep. induction events as [|ev events IH]; intros st Hst;
    [exact Hst|].
  cbn [OpenLoop.Open_loop].
  pose proof (Hstep ev st Hst) as H.
  destruct (step ev st) as [st' | st' | st']; cbn [control_state] in H.
  - now apply IH.
  - unfold after_loop. destruct (bGotInfo st'); cbn [outcome_state]; auto.
  - exact H.
Qed.





(** Messages: the loop goes on or breaks with warnings only, and every
    [return false] follows a failure message. *)
Lemma close_open_box_messages rel st :
  forallb is_warning (messages st) = true ->
  forallb is_warning (messages (close_open_box rel st)) = true.
Proof.
  intros H. unfold OpenLoop.close_open_box, OpenLoop.ProcessCurrentBox.
  branches; cbn; rewrite ?forallb_app, ?H; reflexivity.
Qed.

Lemma step_messages ev st :
  forallb is_warning (messages st) = true ->
  match step ev st with
  | Continue st' | Break st' => forallb is_warning (messages st') = true
  | ReturnFalse st' =>
      exists msgs m, messages st' = msgs ++ [m]
                     /\ is_warning m = false
                     /\ forallb is_warning msgs = true
  end.
Proof.
  intros H.
  destruct ev as [rel | nRead ok | ok i | rel tok ty raw rt sb | | nrem rt sb | n];
    cbn [OpenLoop.step].
  - now apply close_open_box_messages.
  - branches; auto. eexists _, _. cbn. eauto.
  - branches; auto; eexists _, _; cbn; eauto.
  - pose proof (close_open_box_messages rel st H) as H'.
    branches; cbn; rewrite ?forallb_app, ?H'; reflexivity.
  - exact H.
  - branches; cbn; rewrite ?forallb_app, ?H; reflexivity.
  - cbn. now rewrite forallb_app, H.
Qed.

Lemma Open_loop_messages events :
  forall st ok st',
    forallb is_warning (messages st) = true ->
    Open_loop events st = Returned ok st' ->
    if ok then forallb is_warning (messages st') = true
    else exists msgs m, messages st' = msgs ++ [m]
                        /\ is_warning m = false
                        /\ forallb is_warning msgs = true.
Proof.
  induction events as [|ev events IH]; intros st ok st' Hst Hrun; [discriminate|].
  cbn [OpenLoop.Open_loop] in Hrun.
  pose proof (step_messages ev st Hst) as Hstep.
  destruct (step ev st) as [st1 | st1 | st1].
  - now apply (IH st1).
  - unfold after_loop in Hrun. destruct (bGotInfo st1); injection Hrun as <- <-.
    + exact Hstep.
    + exists (messages st1), E_NoBasicInfo. auto.
  - injection Hrun as <- <-. exact Hstep.
Qed.

(** The XMP packet: a turn leaves it as it is, or sets it, from nothing, to
    a string with the packet header. *)
Lemma ProcessCurrentBox_XMP rel st :
  m_osXMP (ProcessCurrentBox rel st) = m_osXMP st
  \/ (m_osXMP st = []
      /\ m_osXMP (ProcessCurrentBox rel st) <> []
      /\ firstn 9 (m_osXMP (ProcessCurrentBox rel st))
         = Jpeg.bytes_of_string "<?xpacket").
Proof.
  unfold OpenLoop.ProcessCurrentBox.
  destruct (String.eqb (osCurrentBox st) "xml " && (Jpeg.size (m_osXMP st) =? 0))
    eqn:Hx.
  - apply andb_true_iff in Hx as [_ Hempty]. apply Z.eqb_eq in Hempty.
    destruct (Jpeg.bytes_eqb _ _) eqn:Hp; [|left; reflexivity].
    right. apply JpegFacts.bytes_eqb_eq in Hp. cbn.
    split; [|split; [|exact Hp]].
    + destruct (m_osXMP st); [reflexivity | discriminate].
    + intros E. rewrite E in Hp. discriminate.
  - left. branches; reflexivity.
Qed.

Lemma step_XMP ev st :
  m_osXMP (control_state (step ev st)) = m_osXMP st
  \/ (m_osXMP st = []
      /\ firstn 9 (m_osXMP (control_state (step ev st)))
         = Jpeg.bytes_of_string "<?xpacket").
Proof.
  assert (C : forall rel,
             m_osXMP (close_open_box rel st) = m_osXMP st
             \/ (m_osXMP st = []
                 /\ firstn 9 (m_osXMP (close_open_box rel st))
                    = Jpeg.bytes_of_string "<?xpacket")).
  { intros rel. unfold OpenLoop.close_open_box.
    branches; auto.
    destruct (ProcessCurrentBox_XMP rel st) as [E | (E0 & _ & E)]; auto. }
  destruct ev as [rel | nRead ok | ok i | rel tok ty raw rt sb | | nrem rt sb | n];
    cbn [OpenLoop.step].
  - apply C.
  - branches; auto.
  - branches; auto.
  - specialize (C rel). branches; cbn; exact C.
  - auto.
  - branches; auto.
  - auto.
Qed.

Lemma step_buffer_size ev st :
  1024 * 1024 <= abyBoxBuffer_size st <= Z.max nMaxBoxBufferSize (1024 * 1024) ->
  1024 * 1024 <= abyBoxBuffer_size (control_state (step ev st))
  <= Z.max nMaxBoxBufferSize (1024 * 1024).
Proof.
  intros H.
  destruct ev as [rel | nRead ok | ok i | rel tok ty raw rt sb | | nrem rt sb | n];
    cbn [OpenLoop.step];
    try rewrite <- (proj2 (close_open_box_buffer EXIFExtractMetadata rel st)) in H.
  all: branches; cbn [control_state]; try exact H.
  all: repeat match goal with
              | E : (_ <? _) = false |- _ => apply Z.ltb_ge in E
              | E : (_ <? _) = true |- _ => apply Z.ltb_lt in E
              end; cbn in *; lia.
Qed.

End Invariants.



(** X15: [Open] fails exactly with a failure message: a run that returns true has
    emitted warnings only; a run that returns false has emitted warnings and
    then, last, one failure. *)
Theorem Open_fails_with_error nMaxBoxBufferSize EXIFExtractMetadata events ok st :
  Open nMaxBoxBufferSize EXIFExtractMetadata events = Returned ok st ->
  if ok then forallb is_warning (messages st) = true
  else exists msgs m, messages st = msgs ++ [m]
                      /\ is_warning m = false
                      /\ forallb is_warning msgs = true.
Proof.
  apply (Open_loop_messages nMaxBoxBufferSize EXIFExtractMetadata events
           initial_state ok st).
  reflexivity.
Qed.

Lemma Open_fails_with_error_witness :
  exists msgs m,
    OpenLoop.messages
      (OpenLoop.outcome_state
         (OpenLoop.Open OpenLoop.default_nMaxBoxBufferSize OpenLoop.no_EXIF
            [OpenLoop.NeedMoreInput 0 true]))
    = msgs ++ [m]
    /\ OpenLoop.is_warning m = false
    /\ forallb OpenLoop.is_warning msgs = true.
Proof.
  apply (Open_fails_with_error OpenLoop.default_nMaxBoxBufferSize
           OpenLoop.no_EXIF [OpenLoop.NeedMoreInput 0 true] false).
  reflexivity.
Defined.

(** X16: Whatever the stream, the XMP that [Open] retains is empty or begins with
    the packet header "<?xpacket". *)
Theorem retained_XMP_is_packet nMaxBoxBufferSize EXIFExtractMetadata events :
  is_packet
    (m_osXMP (outcome_state (Open nMaxBoxBufferSize EXIFExtractMetadata events))).
Proof.
  apply (Open_loop_invariant nMaxBoxBufferSize EXIFExtractMetadata
           (fun st => is_packet (m_osXMP st))).
  - auto.
  - intros ev st Hst.
    destruct (step_XMP nMaxBoxBufferSize EXIFExtractMetadata ev st)
      as [-> | [_ E]]; [exact Hst | now right].
  - now left.
Qed.

(** X17: The first XMP packet wins: once a packet is retained, no later box and
    no later event changes it. *)
Theorem first_XMP_wins nMaxBoxBufferSize EXIFExtractMetadata events st :
  m_osXMP st <> [] ->
  m_osXMP (outcome_state (Open_loop nMaxBoxBufferSize EXIFExtractMetadata events st))
  = m_osXMP st.
Proof.
  intros Hne.
  apply (Open_loop_invariant nMaxBoxBufferSize EXIFExtractMetadata
           (fun st' => m_osXMP st' = m_osXMP st)).
  - auto.
  - intros ev st' Hst'.
    destruct (step_XMP nMaxBoxBufferSize EXIFExtractMetadata ev st')
      as [E | [E _]]; congruence.
  - reflexivity.
Qed.

Lemma first_XMP_wins_witness :
  OpenLoop.m_osXMP
    (OpenLoop.outcome_state
       (OpenLoop.Open_loop OpenLoop.default_nMaxBoxBufferSize OpenLoop.no_EXIF
          [OpenLoop.Box OpenLoop.nothing_released true "xml " 10 false true;
           OpenLoop.Success
             {| OpenLoop.box_bytes := [60; 63; 120; 112; 97; 99; 107; 101; 116; 62];
                OpenLoop.nRemainingBytesInBuffer := 1024 * 1024 - 10;
                OpenLoop.bThrows := false |}]
          (OpenLoop.set_m_osXMP [60; 63] OpenLoop.initial_state)))
  = [60; 63].
Proof.
  apply (first_XMP_wins OpenLoop.default_nMaxBoxBufferSize OpenLoop.no_EXIF).
  discriminate.
Defined.

(** X18: The box buffer keeps a size between its initial mebibyte and the ceiling
    (or that mebibyte, if the ceiling is lower), whatever sizes the boxes of
    the stream declare and whichever allocations fail. *)
Theorem box_buffer_size_bounds nMaxBoxBufferSize EXIFExtractMetadata events :
  1024 * 1024
  <= abyBoxBuffer_size
       (outcome_state (Open nMaxBoxBufferSize EXIFExtractMetadata events))
  <= Z.max nMaxBoxBufferSize (1024 * 1024).
Proof.
  apply (Open_loop_invariant nMaxBoxBufferSize EXIFExtractMetadata
           (fun st => 1024 * 1024 <= abyBoxBuffer_size st
                      <= Z.max nMaxBoxBufferSize (1024 * 1024))).
  - auto.
  - apply step_buffer_size.
  - cbn. lia.
Qed.


(** ** The "Exif" box from [CreateCopy] to [Open] *)

Lemma CreateCopy_abyEXIF_marker tiff :
  Jpeg.CreateCopy_abyEXIF (Jpeg.EXIF_SIGNATURE ++ tiff)
                          (Jpeg.size (Jpeg.EXIF_SIGNATURE ++ tiff))
  = [0; 0; 0; 0] ++ tiff.
Proof.
  unfold Jpeg.CreateCopy_abyEXIF. cbn [repeat]. f_equal.
  unfold Jpeg.range. rewrite JpegFacts.skipn_size_app by reflexivity.
  apply firstn_all2. rewrite JpegFacts.size_app.
  change (Jpeg.size Jpeg.EXIF_SIGNATURE) with 6. unfold Jpeg.size. lia.
Qed.

(** X19: The EXIF payload survives the container: the box [CreateCopy] builds
    from the APP1 content "Exif\0\0" + TIFF is, once the engine hands it
    back in the box buffer, accepted by [ProcessCurrentBox], and the bytes
    retained in [m_abyEXIFBox] are exactly the TIFF part, so that the
    signature followed by them is the APP1 content again. *)
Theorem EXIF_box_round_trip EXIFExtractMetadata tiff slack st :
  osCurrentBox st = "Exif"%string ->
  m_aosEXIFMetadata st = [] ->
  m_abyEXIFBox st = [] ->
  8 < Jpeg.size tiff ->
  Jpeg.at_ tiff 0 = 0x4d \/ Jpeg.at_ tiff 0 = 0x49 ->
  let pabyEXIF := Jpeg.EXIF_SIGNATURE ++ tiff in
  let abyEXIF := Jpeg.CreateCopy_abyEXIF pabyEXIF (Jpeg.size pabyEXIF) in
  abyBoxBuffer_size st = Jpeg.size abyEXIF + Jpeg.size slack ->
  let st' :=
    ProcessCurrentBox EXIFExtractMetadata
      {| box_bytes := abyEXIF ++ slack;
         nRemainingBytesInBuffer := Jpeg.size slack;
         bThrows := false |} st in
  m_abyEXIFBox st' = tiff
  /\ Jpeg.EXIF_SIGNATURE ++ m_abyEXIFBox st' = pabyEXIF
  /\ m_aosEXIFMetadata st' = EXIFExtractMetadata (tiff ++ slack)
  /\ osCurrentBox st' = ""%string.
Proof.
  intros Hcur Hmd Hbox Hlen Horder pabyEXIF abyEXIF Hsize st'.
  assert (Eb : abyEXIF = [0; 0; 0; 0] ++ tiff)
    by apply CreateCopy_abyEXIF_marker.
  assert (Es : Jpeg.size abyEXIF = 4 + Jpeg.size tiff).
  { rewrite Eb, JpegFacts.size_app. reflexivity. }
  assert (E : m_abyEXIFBox st' = tiff
              /\ m_aosEXIFMetadata st' = EXIFExtractMetadata (tiff ++ slack)
              /\ osCurrentBox st' = ""%string).
  { subst st'. unfold ProcessCurrentBox.
    cbn [box_bytes nRemainingBytesInBuffer].
    rewrite Hcur, Hmd, Hsize, Eb. cbn [String.eqb Ascii.eqb Bool.eqb andb length Nat.eqb].
    replace (Jpeg.size ([0; 0; 0; 0] ++ tiff) + Jpeg.size slack - Jpeg.size slack)
      with (4 + Jpeg.size tiff) by (rewrite JpegFacts.size_app; change (Jpeg.size [0; 0; 0; 0]) with 4; lia).
    rewrite (proj2 (Z.ltb_lt 12 (4 + Jpeg.size tiff))) by lia.
    assert (A4 : Jpeg.at_ (([0; 0; 0; 0] ++ tiff) ++ slack) 4 = Jpeg.at_ tiff 0).
    { rewrite JpegFacts.at_app_l by (rewrite JpegFacts.size_app; change (Jpeg.size [0; 0; 0; 0]) with 4; lia).
      now apply JpegFacts.at_app_off. }
    assert (A0 : forall k, 0 <= k < 4 ->
                           Jpeg.at_ (([0; 0; 0; 0] ++ tiff) ++ slack) k = 0).
    { intros k Hk.
      rewrite JpegFacts.at_app_l by (rewrite JpegFacts.size_app; change (Jpeg.size [0; 0; 0; 0]) with 4; lia).
      rewrite JpegFacts.at_app_l by (change (Jpeg.size [0; 0; 0; 0]) with 4; lia).
      assert (Hc : k = 0 \/ k = 1 \/ k = 2 \/ k = 3) by lia.
      destruct Hc as [-> | [-> | [-> | ->]]]; reflexivity. }
    rewrite !A0 by lia. rewrite A4. cbn [Z.eqb andb].
    assert (T : (Jpeg.at_ tiff 0 =? 77) || (Jpeg.at_ tiff 0 =? 73) = true).
    { destruct Horder as [-> | ->]; reflexivity. }
    rewrite T. cbn [set_EXIF set_osCurrentBox m_abyEXIFBox m_aosEXIFMetadata
                    osCurrentBox].
    rewrite Hbox. cbn [app skipn].
    split; [|split; reflexivity].
    change (0 :: 0 :: 0 :: 0 :: tiff ++ slack)
      with ([0; 0; 0; 0] ++ tiff ++ slack).
    apply JpegFacts.range_app; [reflexivity | change (Jpeg.size [0; 0; 0; 0]) with 4; lia]. }
  destruct E as (E1 & E2 & E3).
  split; [exact E1|]. split; [now rewrite E1|]. split; assumption.
Qed.

Lemma EXIF_box_round_trip_witness :
  OpenLoop.m_abyEXIFBox
    (OpenLoop.ProcessCurrentBox OpenLoop.no_EXIF
       {| OpenLoop.box_bytes :=
            Jpeg.CreateCopy_abyEXIF
              (Jpeg.EXIF_SIGNATURE ++ [77; 77; 0; 42; 0; 0; 0; 8; 0; 0]) 16
            ++ [7; 7];
          OpenLoop.nRemainingBytesInBuffer := 2;
          OpenLoop.bThrows := false |}
       (OpenLoop.resize_abyBoxBuffer 16
          (OpenLoop.set_osCurrentBox "Exif" OpenLoop.initial_state)))
  = [77; 77; 0; 42; 0; 0; 0; 8; 0; 0].
Proof.
  apply (EXIF_box_round_trip OpenLoop.no_EXIF
           [77; 77; 0; 42; 0; 0; 0; 8; 0; 0] [7; 7]
           (OpenLoop.resize_abyBoxBuffer 16
              (OpenLoop.set_osCurrentBox "Exif" OpenLoop.initial_state))).
  - reflexivity.
  - reflexivity.
  - reflexivity.
  - cbn. lia.
  - left. reflexivity.
  - reflexivity.
Defined.

End OpenLoopFacts.

(** ** Pixel access *)

Module PixelsFacts.
Import Pixels.

(** Once the flag is set, [GetDecodedImage()] returns at once. *)
Lemma GetDecodedImage_after_failure env ds :
  m_bDecodingFailed ds = true -> GetDecodedImage env ds = Done ds.
Proof. intros H. unfold GetDecodedImage. now rewrite H. Qed.

(** Once the flag is set, a request leaves the dataset as it is: the flag
    stays set and the engine is not called.  A read of the whole image
    fails; a block read fails exactly when [m_abyImage] is empty. *)
Lemma serve_after_failure r env ds :
  m_bDecodingFailed ds = true ->
  serve r env ds = Done (answer_after_failure ds r, ds).
Proof.
  intros H. destruct r as [nBand nBlockYOff | a]; cbn [serve answer_after_failure].
  - unfold IReadBlock. rewrite GetDecodedImage_after_failure by assumption.
    now destruct (Jpeg.size (m_abyImage ds) =? 0).
  - unfold IRasterIO. rewrite H. now destruct (whole_image a ds).
Qed.

Lemma serve_all_after_failure rs ds :
  m_bDecodingFailed ds = true ->
  serve_all rs ds = Done (map (fun re => answer_after_failure ds (fst re)) rs, ds).
Proof.
  intros H. induction rs as [|[r env] rs IH]; cbn [serve_all map fst].
  - reflexivity.
  - now rewrite serve_after_failure, IH.
Qed.

(** The engine loop and the registration of buffers leave [m_abyImage]
    alone (its samples reach it through the output buffer). *)
Lemma register_extra_image ds answers todo :
  forall done, m_abyImage (register_extra ds answers done todo) = m_abyImage ds.
Proof.
  revert answers. induction todo as [|ch todo IH]; intros answers done;
    cbn [register_extra]; [reflexivity|].
  destruct answers as [|a answers]; [reflexivity|].
  destruct (buffer_size a); [|reflexivity].
  destruct (_ || _); [reflexivity | apply IH].
Qed.

Lemma decode_loop_image evs n :
  forall out ds out' ds',
    decode_loop evs n out ds = Done (out', ds') -> m_abyImage ds' = m_abyImage ds.
Proof.
  induction evs as [|ev evs IH]; intros out ds out' ds'; cbn [decode_loop];
    [discriminate|].
  destruct ev as [| nRead ok | | | primary extra | status].
  - intros [= _ <-]. reflexivity.
  - destruct (nRead =? 0); [intros [= _ <-]; reflexivity|].
    destruct (negb ok); [intros [= _ <-]; reflexivity|].
    intros H. now rewrite (IH _ _ _ _ H).
  - intros [= _ <-]. reflexivity.
  - intros H. now rewrite (IH _ _ _ _ H).
  - destruct (buffer_size primary); [|intros [= _ <-]; reflexivity].
    destruct (_ || _); [intros [= _ <-]; reflexivity|].
    match goal with
    | |- context [m_bDecodingFailed ?d] => set (ds2 := d)
    end.
    assert (E : m_abyImage ds2 = m_abyImage ds)
      by (subst ds2; cbn; now rewrite register_extra_image).
    destruct (m_bDecodingFailed ds2).
    + intros [= _ <-]. exact E.
    + intros H. now rewrite (IH _ _ _ _ H).
  - intros H. now rewrite (IH _ _ _ _ H).
Qed.

Lemma GetDecodedImage_into_image env n out ds out' ds' :
  GetDecodedImage_into env n out ds = Done (out', ds') ->
  m_abyImage ds' = m_abyImage ds.
Proof.
  unfold GetDecodedImage_into.
  destruct (negb (bSubscribeOk env)); [intros [= _ <-]; reflexivity|].
  destruct (decode_loop _ _ _ _) as [[out1 ds1]|] eqn:E; [|discriminate].
  apply decode_loop_image in E.
  destruct (Rescale.rescale_decoded _ _ _ _ _ _ _ _) as [out2 extra].
  intros [= _ <-]. exact E.
Qed.

Lemma allocate_extra_granted nSamples more count :
  forall done ds,
    snd (allocate_extra nSamples (repeat true count ++ more) done count ds) = true.
Proof.
  induction count as [|count IH]; intros done ds; cbn; [reflexivity | apply IH].
Qed.

(** When the allocator grants the buffers, a failure inside
    [GetDecodedImage()] leaves the cached image empty. *)
Lemma GetDecodedImage_failure_empties_image env ds ds' :
  allocations_succeed env ds ->
  m_abyImage ds = [] ->
  GetDecodedImage env ds = Done ds' ->
  m_bDecodingFailed ds' = true ->
  m_abyImage ds' = [].
Proof.
  intros [Himg [more Hextra]] Hempty. unfold GetDecodedImage.
  destruct (m_bDecodingFailed ds || _); [intros [= <-] _; exact Hempty|].
  destruct (_ <? _); [intros [= <-] _; exact Hempty|].
  rewrite Himg, Hextra. cbn [negb].
  match goal with
  | |- context [allocate_extra ?n ?a ?d ?c ?x] =>
      pose proof (allocate_extra_granted n more c d x) as Hok;
      destruct (allocate_extra n a d c x) as [ds1 ok]
  end.
  cbn [snd] in Hok. subst ok. cbn [negb].
  destruct (GetDecodedImage_into _ _ _ _) as [[out ds2]|]; [|discriminate].
  destruct (m_bDecodingFailed (set_m_abyImage out ds2)) eqn:F.
  - intros [= <-] _. reflexivity.
  - intros [= <-] F'. congruence.
Qed.

(** A first failure on a dataset that holds no cached image, with an
    allocator that grants the buffers, is permanent in the sense of C5:
    the image stays empty, and whatever is asked afterwards the dataset does
    not change, block reads and reads of the whole image fail, and other
    reads are handed to the generic implementation. *)
Lemma first_failure_is_permanent r env ds res ds' rs :
  allocations_succeed env ds ->
  m_abyImage ds = [] ->
  serve r env ds = Done (res, ds') ->
  m_bDecodingFailed ds' = true ->
  m_abyImage ds' = []
  /\ serve_all rs ds'
     = Done (map (fun re => match fst re with
                            | ReadBlock _ _ => Result CE_Failure
                            | RasterIO a =>
                                if whole_image a ds' then Result CE_Failure
                                else Delegated
                            end) rs, ds').
Proof.
  intros Halloc Hempty Hserve Hfailed.
  assert (E : m_abyImage ds' = []).
  { destruct r as [nBand nBlockYOff | a]; cbn [serve] in Hserve.
    - unfold IReadBlock in Hserve.
      destruct (GetDecodedImage env ds) as [ds1|] eqn:G; [|discriminate].
      destruct (Jpeg.size (m_abyImage ds1) =? 0); injection Hserve as _ <-;
        now apply (GetDecodedImage_failure_empties_image env ds ds1).
    - unfold IRasterIO in Hserve.
      destruct (whole_image a ds); [|injection Hserve as _ <-; exact Hempty].
      destruct (m_bDecodingFailed ds); [injection Hserve as _ <-; exact Hempty|].
      destruct (_ && _).
      + destruct (GetDecodedImage_into _ _ _ _) as [[out ds1]|] eqn:G;
          [|discriminate].
        apply GetDecodedImage_into_image in G.
        injection Hserve as _ <-. congruence.
      + destruct (GetDecodedImage env ds) as [ds1|] eqn:G; [|discriminate].
        destruct (Jpeg.size (m_abyImage ds1) =? 0); injection Hserve as _ <-;
          now apply (GetDecodedImage_failure_empties_image env ds ds1). }
  split; [exact E|].
  rewrite serve_all_after_failure by assumption. do 2 f_equal.
  apply map_ext. intros [[nBand nBlockYOff | a] env']; cbn; [|reflexivity].
  now rewrite E.
Qed.

(** A failure met by the engine inside [GetDecodedImage()] empties the
    cached image, and the block read that asked for it fails. *)
Lemma zero_byte_read_scenario :
  exists ds,
    IReadBlock 1 0 input_runs_dry gray_dataset = Done (CE_Failure, Samples [], ds)
    /\ m_bDecodingFailed ds = true
    /\ m_abyImage ds = [].
Proof. eexists. repeat split. Qed.

(** C5 at its failing input: the dataset has an extra channel that is not
    alpha; during the first block read the primary buffer is allocated and
    the resize of the extra-channel buffer throws.  The flag is set without
    the engine having run, yet [m_abyImage] keeps its two zero samples, and
    this block read and every later one return [CE_None] with those zeros. *)
Theorem block_read_succeeds_after_failed_allocation :
  exists ds,
    IReadBlock 1 0 extra_alloc_fails two_band_dataset
    = Done (CE_None, Samples [0; 0], ds)
    /\ m_bDecodingFailed ds = true
    /\ m_abyImage ds = [0; 0]
    /\ nEngineCalls ds = 0%nat
    /\ forall env, IReadBlock 1 0 env ds = Done (CE_None, Samples [0; 0], ds).
Proof. eexists. repeat split. Qed.

(** The same through the other door: a block read caches the image, a read
    of the whole image into the caller's buffer then fails in the engine and
    sets the flag, and block reads keep being served from the cache. *)
Lemma block_read_succeeds_after_failed_direct_decode :
  exists ds1 ds2,
    IReadBlock 1 0 engine_decodes gray_dataset
    = Done (CE_None, Samples [10; 20], ds1)
    /\ IRasterIO whole_gray_image input_runs_dry ds1 = Done (Result CE_Failure, ds2)
    /\ m_bDecodingFailed ds2 = true
    /\ forall env, IReadBlock 1 0 env ds2 = Done (CE_None, Samples [10; 20], ds2).
Proof. do 2 eexists. repeat split. Qed.

(** C9, as stated, fails: in [Open], the engine asking for more input and
    the file giving none ends the loop, and [Open] succeeds when the basic
    info was already received. *)
Lemma Open_succeeds_on_zero_byte_read :
  exists st,
    OpenLoop.Open OpenLoop.default_nMaxBoxBufferSize OpenLoop.no_EXIF
      [OpenLoop.BasicInfo true OpenLoop.gray_4x4; OpenLoop.NeedMoreInput 0 true]
    = OpenLoop.Returned true st.
Proof. eexists. reflexivity. Qed.

(** A script that does not end the loop can be extended. *)
Lemma decode_loop_app pre evs n :
  forall out ds,
    decode_loop pre n out ds = Starved ->
    exists out1 ds1,
      decode_loop (pre ++ evs) n out ds = decode_loop evs n out1 ds1.
Proof.
  induction pre as [|ev pre IH]; intros out ds; cbn [decode_loop app].
  - intros _. now exists out, ds.
  - destruct ev as [| nRead ok | | | primary extra | status]; try discriminate.
    + destruct (nRead =? 0); [discriminate|].
      destruct (negb ok); [discriminate | apply IH].
    + apply IH.
    + destruct (buffer_size primary); [|discriminate].
      destruct (_ || _); [discriminate|].
      destruct (m_bDecodingFailed _); [discriminate | apply IH].
    + apply IH.
Qed.

Lemma Open_loop_app nMaxBoxBufferSize EXIFExtractMetadata pre evs :
  forall st st1,
    OpenLoop.Open_loop nMaxBoxBufferSize EXIFExtractMetadata pre st
    = OpenLoop.Starved st1 ->
    OpenLoop.Open_loop nMaxBoxBufferSize EXIFExtractMetadata (pre ++ evs) st
    = OpenLoop.Open_loop nMaxBoxBufferSize EXIFExtractMetadata evs st1.
Proof.
  induction pre as [|ev pre IH]; intros st st1; cbn [OpenLoop.Open_loop app].
  - intros [= ->]. reflexivity.
  - destruct (OpenLoop.step _ _ ev st) as [st' | st' | st'].
    + apply IH.
    + unfold OpenLoop.after_loop. destruct (OpenLoop.bGotInfo st'); discriminate.
    + discriminate.
Qed.

(** C9, amended: in the pixel decode of [GetDecodedImage], whenever the
    engine needs more input and the read returns zero bytes, after any run of
    events that kept the loop going, the loop ends with the failure flag set,
    whatever would follow; in [Open] the same event ends the loop without an
    error, and [Open] fails only if the basic info was never received. *)
Theorem zero_byte_read_ends_decode :
  (forall pre bSetInputOk rest nOutputDataSize out ds,
      decode_loop pre nOutputDataSize out ds = Starved ->
      exists out' ds',
        decode_loop (pre ++ NeedMoreInput 0 bSetInputOk :: rest)
                    nOutputDataSize out ds
        = Done (out', ds')
        /\ m_bDecodingFailed ds' = true)
  /\ (forall nMaxBoxBufferSize EXIFExtractMetadata pre bSetInputOk rest st st1,
        OpenLoop.Open_loop nMaxBoxBufferSize EXIFExtractMetadata pre st
        = OpenLoop.Starved st1 ->
        OpenLoop.Open_loop nMaxBoxBufferSize EXIFExtractMetadata
          (pre ++ OpenLoop.NeedMoreInput 0 bSetInputOk :: rest) st
        = if OpenLoop.bGotInfo st1 then OpenLoop.Returned true st1
          else OpenLoop.Returned false
                 (OpenLoop.CPLError OpenLoop.E_NoBasicInfo st1)).
Proof.
  split.
  - intros pre ok rest n out ds Hpre.
    destruct (decode_loop_app pre (NeedMoreInput 0 ok :: rest) n out ds Hpre)
      as (out1 & ds1 & ->).
    now exists out1, (set_m_bDecodingFailed (engine_call ds1)).
  - intros nMax EXIF pre ok rest st st1 Hpre.
    now rewrite (Open_loop_app nMax EXIF pre _ st st1 Hpre).
Qed.

Lemma zero_byte_read_ends_decode_witness :
  (exists out' ds',
      Pixels.decode_loop
        ([Pixels.NeedMoreInput 1048576 true; Pixels.FullImage]
         ++ [Pixels.NeedMoreInput 0 true; Pixels.Success])
        2 [0; 0] Pixels.gray_dataset
      = Pixels.Done (out', ds')
      /\ Pixels.m_bDecodingFailed ds' = true)
  /\ OpenLoop.Open_loop OpenLoop.default_nMaxBoxBufferSize OpenLoop.no_EXIF
       ([OpenLoop.BasicInfo true OpenLoop.gray_4x4]
        ++ [OpenLoop.NeedMoreInput 0 true])
       OpenLoop.initial_state
     = OpenLoop.Returned true
         (OpenLoop.set_info true OpenLoop.gray_4x4 GDT_Byte 8 1 0
            OpenLoop.initial_state).
Proof.
  split.
  - apply (proj1 zero_byte_read_ends_decode). reflexivity.
  - apply (proj2 zero_byte_read_ends_decode OpenLoop.default_nMaxBoxBufferSize
             OpenLoop.no_EXIF [OpenLoop.BasicInfo true OpenLoop.gray_4x4]
             true [] OpenLoop.initial_state
             (OpenLoop.set_info true OpenLoop.gray_4x4 GDT_Byte 8 1 0
                OpenLoop.initial_state)).
    reflexivity.
Defined.

(** ** Caching and the direct path *)

Lemma GetDecodedImage_cached env ds :
  m_abyImage ds <> [] -> GetDecodedImage env ds = Done ds.
Proof.
  intros H. unfold GetDecodedImage.
  destruct (m_abyImage ds) as [|x v]; [congruence|].
  now rewrite orb_true_r.
Qed.




(** X25: Once the failure flag is set, requests change nothing: every request of
    a sequence, whatever the engine would answer, leaves the dataset as it
    is (no engine call, the flag stays), and a read of the whole image
    fails. *)
Theorem failed_dataset_is_frozen rs ds :
  m_bDecodingFailed ds = true ->
  serve_all rs ds
  = Done (map (fun re => answer_after_failure ds (fst re)) rs, ds)
  /\ forall a env,
       whole_image a ds = true ->
       IRasterIO a env ds = Done (Result CE_Failure, ds).
Proof.
  intros H. split; [now apply serve_all_after_failure|].
  intros a env Hw. unfold IRasterIO. now rewrite Hw, H.
Qed.

Lemma failed_dataset_is_frozen_witness :
  Pixels.serve_all
    [(Pixels.RasterIO Pixels.whole_gray_image, Pixels.engine_decodes)]
    (Pixels.set_m_bDecodingFailed Pixels.gray_dataset)
  = Pixels.Done
      ([Pixels.Result Pixels.CE_Failure],
       Pixels.set_m_bDecodingFailed Pixels.gray_dataset).
Proof.
  apply (proj1 (failed_dataset_is_frozen
                  [(Pixels.RasterIO Pixels.whole_gray_image,
                    Pixels.engine_decodes)]
                  (Pixels.set_m_bDecodingFailed Pixels.gray_dataset) eq_refl)).
Defined.

(** X26: The direct path of [IRasterIO] never touches the cache: when the whole
    image is read into a buffer in the native layout, [m_abyImage] is
    afterwards what it was before, and the result reports the failure flag. *)
Theorem direct_read_bypasses_cache a env ds res ds' :
  whole_image a ds = true ->
  m_bDecodingFailed ds = false ->
  bUseOutputBuffer a ds = true ->
  IRasterIO a env ds = Done (res, ds') ->
  m_abyImage ds' = m_abyImage ds
  /\ res = Result (if m_bDecodingFailed ds' then CE_Failure else CE_None).
Proof.
  intros Hw Hf Hd. unfold IRasterIO. rewrite Hw, Hf.
  unfold bUseOutputBuffer in Hd. rewrite Hd.
  destruct (GetDecodedImage_into _ _ _ _) as [[out ds1]|] eqn:E; [|discriminate].
  intros [= <- <-]. split; [|reflexivity].
  now apply GetDecodedImage_into_image in E.
Qed.

Lemma direct_read_bypasses_cache_witness :
  Pixels.m_abyImage
    (Pixels.set_m_abyExtraChannels []
       (Pixels.engine_call (Pixels.engine_call (Pixels.engine_call
          (Pixels.engine_call Pixels.gray_dataset)))))
  = Pixels.m_abyImage Pixels.gray_dataset.
Proof.
  apply (direct_read_bypasses_cache Pixels.whole_gray_image
           Pixels.engine_decodes Pixels.gray_dataset
           (Pixels.Result Pixels.CE_None)); reflexivity.
Defined.

Lemma AreSequentialBands_from panItems :
  forall i,
    AreSequentialBands panItems i = true
    <-> panItems = map (fun k => i + 1 + Z.of_nat k) (seq 0 (length panItems)).
Proof.
  induction panItems as [|b panItems IH]; intros i; cbn [AreSequentialBands].
  - split; reflexivity.
  - cbn [length seq map]. rewrite andb_true_iff, Z.eqb_eq, IH.
    rewrite <- seq_shift, map_map.
    split.
    + intros [-> E]. rewrite Z.add_0_r. f_equal.
      rewrite E at 1. apply map_ext. intros k. lia.
    + intros [= Eb E]. split; [lia|].
      rewrite E at 1. apply map_ext. intros k. lia.
Qed.

(** X27: The lambda [AreSequentialBands] of [IRasterIO] accepts exactly the band
    maps 1, 2, ..., n: one band out of place, repeated or missing in between
    sends the request to the slower copy. *)
Theorem AreSequentialBands_iff panBandMap :
  AreSequentialBands panBandMap 0 = true
  <-> panBandMap = map Z.of_nat (seq 1 (length panBandMap)).
Proof.
  rewrite AreSequentialBands_from, <- seq_shift, map_map.
  split; intros E; rewrite E at 1; apply map_ext; intros k; lia.
Qed.

(** ** Block reads against the decoded image *)

Lemma map_seq_shift {A} (g : nat -> A) start len :
  map g (seq start len) = map (fun b => g (b + start)%nat) (seq 0 len).
Proof.
  revert start. induction len as [|len IH]; intros start; [reflexivity|].
  cbn [seq map]. f_equal. rewrite IH.
  rewrite <- (seq_shift len 0), map_map. apply map_ext. intros b. f_equal. lia.
Qed.

Lemma flat_map_seq_mul {A} (g : nat -> A) P N :
  flat_map (fun p => map (fun b => g (b + p * N)%nat) (seq 0 N)) (seq 0 P)
  = map g (seq 0 (P * N)).
Proof.
  induction P as [|P IH]; [reflexivity|].
  rewrite seq_S, flat_map_app, IH. cbn [flat_map Nat.add].
  rewrite app_nil_r.
  replace (S P * N)%nat with (P * N + N)%nat by lia.
  rewrite seq_app, map_app. f_equal.
  cbn [Nat.add]. symmetry. apply map_seq_shift.
Qed.

Lemma flat_map_ext_in {A B} (f g : A -> list B) l :
  (forall a, In a l -> f a = g a) -> flat_map f l = flat_map g l.
Proof.
  induction l as [|a l IH]; intros H; [reflexivity|].
  cbn [flat_map]. rewrite (H a (or_introl eq_refl)), IH; [reflexivity|].
  intros b Hb. apply H. now right.
Qed.

Lemma map_nth_seq (v : list Z) :
  map (fun k => nth k v 0) (seq 0 (length v)) = v.
Proof.
  induction v as [|x v IH]; [reflexivity|].
  cbn [length seq map nth]. f_equal.
  rewrite <- seq_shift, map_map. exact IH.
Qed.

Lemma nth_map_seq (f : nat -> Z) n k :
  (k < n)%nat -> nth k (map f (seq 0 n)) 0 = f k.
Proof.
  intros H.
  rewrite (nth_indep _ 0 (f 0%nat)) by (rewrite length_map, length_seq; exact H).
  rewrite map_nth, seq_nth by exact H. reflexivity.
Qed.

Lemma block_inside_image nBand nBlockYOff ds :
  1 <= nBand <= nNonExtraBands ds ->
  0 <= nBlockYOff < nRasterYSize (geometry ds) ->
  0 <= nRasterXSize (geometry ds) ->
  Jpeg.size (m_abyImage ds)
  = nRasterXSize (geometry ds) * nRasterYSize (geometry ds) * nNonExtraBands ds ->
  block_inside nBand nBlockYOff ds = true.
Proof.
  intros Hb Hy HX Hsize. unfold block_inside, strided_inside.
  rewrite (proj2 (Z.leb_le _ _) (proj2 Hb)), Hsize.
  set (X := nRasterXSize (geometry ds)) in *.
  set (Y := nRasterYSize (geometry ds)) in *.
  set (N := nNonExtraBands ds) in *.
  destruct (Z.leb_spec X 0) as [H0|H0]; [reflexivity|]. cbn [orb].
  assert (Hrow : 0 <= nBlockYOff * X * N) by (apply Z.mul_nonneg_nonneg; nia).
  assert (Hnext : (nBlockYOff + 1) * (X * N) <= Y * (X * N))
    by (apply Z.mul_le_mono_nonneg_r; nia).
  assert (HXN : N <= X * N) by nia.
  rewrite !andb_true_iff, !Z.leb_le, !Z.ltb_lt. nia.
Qed.

Lemma block_row_cached nBand nBlockYOff env ds :
  m_abyImage ds <> [] ->
  nBand <= nNonExtraBands ds ->
  block_inside nBand nBlockYOff ds = true ->
  block_row nBand nBlockYOff env ds
  = map (fun x =>
           Jpeg.at_ (m_abyImage ds)
             ((nBand - 1)
              + (nBlockYOff * nRasterXSize (geometry ds) + Z.of_nat x)
                * nNonExtraBands ds))
        (seq 0 (Z.to_nat (nRasterXSize (geometry ds)))).
Proof.
  intros Himg Hb Hin. unfold block_row, IReadBlock.
  rewrite GetDecodedImage_cached by assumption.
  destruct (m_abyImage ds) as [|s v] eqn:E; [congruence|].
  change (Jpeg.size (s :: v) =? 0) with false. cbn match.
  now rewrite Hin, (proj2 (Z.leb_le _ _) Hb).
Qed.

(** X28: Block reads give back the decoded image: once the image is cached with
    one sample per pixel and colour band, the rows that [IReadBlock] copies
    for the bands that are not extra channels, taken row by row and pixel by
    pixel, are the samples of [m_abyImage] in their order, none lost and
    none read twice. *)
Theorem block_reads_tile_image env ds :
  m_abyImage ds <> [] ->
  0 <= nRasterXSize (geometry ds) ->
  0 <= nRasterYSize (geometry ds) ->
  0 <= nNonExtraBands ds ->
  Jpeg.size (m_abyImage ds)
  = nRasterXSize (geometry ds) * nRasterYSize (geometry ds) * nNonExtraBands ds ->
  image_from_blocks env ds = m_abyImage ds.
Proof.
  intros Himg HX HY HN Hsize. unfold image_from_blocks.
  set (X := Z.to_nat (nRasterXSize (geometry ds))).
  set (Y := Z.to_nat (nRasterYSize (geometry ds))).
  set (N := Z.to_nat (nNonExtraBands ds)).
  assert (EX : nRasterXSize (geometry ds) = Z.of_nat X) by (subst X; lia).
  assert (EN : nNonExtraBands ds = Z.of_nat N) by (subst N; lia).
  assert (EY : nRasterYSize (geometry ds) = Z.of_nat Y) by (subst Y; lia).
  assert (Hlen : length (m_abyImage ds) = (Y * (X * N))%nat).
  { unfold Jpeg.size in Hsize. rewrite EX, EY, EN in Hsize. nia. }
  set (g := fun k : nat => nth k (m_abyImage ds) 0).
  assert (Hcell : forall iY iX iBand,
             (iY < Y)%nat -> (iX < X)%nat -> (iBand < N)%nat ->
             nth iX (block_row (Z.of_nat iBand + 1) (Z.of_nat iY) env ds) 0
             = g (iBand + iX * N + iY * (X * N))%nat).
  { intros iY iX iBand HiY HiX HiB.
    rewrite block_row_cached
      by (assumption || lia || (apply block_inside_image; (assumption || lia))).
    fold X. rewrite nth_map_seq by exact HiX.
    rewrite EX, EN. subst g. cbn beta.
    replace (Z.of_nat iBand + 1 - 1
             + (Z.of_nat iY * Z.of_nat X + Z.of_nat iX) * Z.of_nat N)
      with (Z.of_nat (iBand + iX * N + iY * (X * N))) by nia.
    rewrite JpegFacts.at_nth.
    - now rewrite Nat2Z.id.
    - unfold Jpeg.size. rewrite Hlen. split; [lia|].
      apply inj_lt.
      assert (H1 : (S iX * N <= X * N)%nat) by (apply Nat.mul_le_mono_r; lia).
      assert (H2 : (S iY * (X * N) <= Y * (X * N))%nat)
        by (apply Nat.mul_le_mono_r; lia).
      rewrite Nat.mul_succ_l in H1, H2. lia. }
  rewrite <- (map_nth_seq (m_abyImage ds)) at 1. rewrite Hlen. fold g.
  rewrite <- (flat_map_seq_mul g Y (X * N)).
  apply flat_map_ext_in. intros iY HiY. apply in_seq in HiY.
  rewrite <- (flat_map_seq_mul (fun k => g (k + iY * (X * N))%nat) X N).
  apply flat_map_ext_in. intros iX HiX. apply in_seq in HiX.
  apply map_ext_in. intros iBand HiB. apply in_seq in HiB.
  apply Hcell; lia.
Qed.

Lemma block_reads_tile_image_witness :
  Pixels.image_from_blocks Pixels.input_runs_dry
    (Pixels.set_m_abyImage [10; 20; 30; 40; 50; 60]
       {| Pixels.geometry :=
            {| Pixels.nRasterXSize := 1; Pixels.nRasterYSize := 2;
               Pixels.nBands := 3; Pixels.m_nNonAlphaExtraChannels := 0;
               Pixels.m_nBits := 8; Pixels.eDT := GDT_Byte |};
          Pixels.m_bDecodingFailed := false;
          Pixels.m_abyImage := [];
          Pixels.m_abyExtraChannels := [];
          Pixels.nEngineCalls := 0 |})
  = [10; 20; 30; 40; 50; 60].
Proof.
  apply (block_reads_tile_image Pixels.input_runs_dry
           (Pixels.set_m_abyImage [10; 20; 30; 40; 50; 60]
              {| Pixels.geometry :=
                   {| Pixels.nRasterXSize := 1; Pixels.nRasterYSize := 2;
                      Pixels.nBands := 3; Pixels.m_nNonAlphaExtraChannels := 0;
                      Pixels.m_nBits := 8; Pixels.eDT := GDT_Byte |};
                 Pixels.m_bDecodingFailed := false;
                 Pixels.m_abyImage := [];
                 Pixels.m_abyExtraChannels := [];
                 Pixels.nEngineCalls := 0 |})).
  - discriminate.
  - cbn. lia.
  - cbn. lia.
  - cbn. lia.
  - reflexivity.
Defined.

End PixelsFacts.

(** ** Channel layout, bit depth and threads *)

Module LayoutFacts.
Import Layout.

Lemma cast_uint32_small z : 0 <= z < 2 ^ 32 -> cast_uint32 z = z.
Proof. intros H. unfold cast_uint32. now apply Z.mod_small. Qed.

Lemma for_range_empty lo hi : hi <= lo -> for_range lo hi = [].
Proof.
  intros H. unfold for_range.
  replace (Z.to_nat (hi - lo)) with 0%nat by lia. reflexivity.
Qed.

Lemma in_for_range lo hi k : In k (for_range lo hi) -> lo <= k < hi.
Proof.
  unfold for_range. intros H. apply in_map_iff in H as (j & <- & Hj).
  apply in_seq in Hj. lia.
Qed.

Lemma for_range_shift {A} (f g : Z -> A) lo hi d :
  (forall k, lo <= k < hi -> f k = g (k + d)) ->
  map f (for_range lo hi) = map g (for_range (lo + d) (hi + d)).
Proof.
  intros H. unfold for_range. rewrite !map_map.
  replace (hi + d - (lo + d)) with (hi - lo) by lia.
  apply map_ext_in. intros j Hj. apply in_seq in Hj.
  rewrite H by lia. f_equal. lia.
Qed.

Ltac shape_cbn :=
  cbn [basic_info bHasInterleavedAlphaBand OpenLoop.num_color_channels
       OpenLoop.num_extra_channels OpenLoop.alpha_bits
       OpenLoop.bits_per_sample];
  change (1 + 1) with 2; change (3 + 1) with 4.

(** The shape of every layout [CreateCopy] decides on. *)
Lemma channels_shape init nXSize nYSize eDT nBits bands c :
  CreateCopy_channels init nXSize nYSize eDT nBits bands = Some c ->
  initialized init ->
  GetRasterCount bands <= INT_MAX ->
  let info := basic_info c in
  (OpenLoop.num_color_channels info = 1 \/ OpenLoop.num_color_channels info = 3)
  /\ 0 <= alpha_count c <= OpenLoop.num_extra_channels info
  /\ alpha_count c <= 1
  /\ OpenLoop.num_color_channels info + OpenLoop.num_extra_channels info
     = GetRasterCount bands
  /\ (bHasInterleavedAlphaBand c = true ->
      OpenLoop.alpha_bits info = OpenLoop.bits_per_sample info
      /\ GetColorInterpretation bands (OpenLoop.num_color_channels info + 1)
         = GCI_AlphaBand)
  /\ (bHasInterleavedAlphaBand c = false -> OpenLoop.alpha_bits info = 0).
Proof.
  intros Hc (Hextra & Halpha & _) Hn. unfold CreateCopy_channels in Hc.
  assert (Hn0 : 0 <= GetRasterCount bands) by (unfold GetRasterCount; lia).
  change INT_MAX with 2147483647 in Hn.
  destruct ((nXSize <=? 0) || (nYSize <=? 0) || (GetRasterCount bands =? 0))
    eqn:Hchk; [discriminate|].
  apply orb_false_iff in Hchk as [_ Hcount]. apply Z.eqb_neq in Hcount.
  destruct (GDALDataType_eqb eDT GDT_Unknown); [discriminate|].
  assert (A : forall x, is_AlphaBand x = true -> x = GCI_AlphaBand)
    by (intros x; destruct x; (reflexivity || discriminate)).
  assert (Hcast3 : 3 <= GetRasterCount bands ->
                   cast_uint32 (GetRasterCount bands - 3)
                   = GetRasterCount bands - 3)
    by (intros; apply cast_uint32_small; change (2 ^ 32) with 4294967296; lia).
  assert (Hcast1 : cast_uint32 (GetRasterCount bands - 1)
                   = GetRasterCount bands - 1)
    by (apply cast_uint32_small; change (2 ^ 32) with 4294967296; lia).
  revert Hc.
  destruct (Z.eqb_spec (GetRasterCount bands) 1) as [E1|N1].
  { intros [= <-]. unfold alpha_count. shape_cbn. rewrite Hextra, Halpha, E1.
    repeat split; (lia || auto || discriminate). }
  destruct (Z.eqb_spec (GetRasterCount bands) 2) as [E2|N2].
  { destruct (is_AlphaBand (GetColorInterpretation bands 2)) eqn:Ha;
      intros [= <-]; unfold alpha_count; shape_cbn; rewrite ?Halpha, E2;
      repeat split; (lia || auto || discriminate). }
  specialize (Hcast3 ltac:(lia)).
  destruct (is_RedBand _ && is_GreenBand _ && is_BlueBand _).
  - destruct (Z.leb_spec 4 (GetRasterCount bands)) as [H4|H4]; cbn [andb].
    + destruct (is_AlphaBand (GetColorInterpretation bands 4)) eqn:Ha;
        intros [= <-]; unfold alpha_count; shape_cbn; rewrite ?Halpha, Hcast3;
        repeat split; (lia || auto || discriminate).
    + intros [= <-]. unfold alpha_count. shape_cbn. rewrite Halpha, Hcast3.
      repeat split; (lia || auto || discriminate).
  - intros [= <-]. unfold alpha_count. shape_cbn. rewrite Halpha, Hcast1.
    repeat split; (lia || auto || discriminate).
Qed.

(** X20: Whatever the source, the layout [CreateCopy] declares accounts for every
    source band once: one or three colour channels, the rest extra channels;
    an interleaved alpha band is the band right behind the colour channels
    and gets the bit depth of the image. *)
Theorem channels_cover_bands init nXSize nYSize eDT nBits bands c :
  CreateCopy_channels init nXSize nYSize eDT nBits bands = Some c ->
  initialized init ->
  GetRasterCount bands <= INT_MAX ->
  let info := basic_info c in
  (OpenLoop.num_color_channels info = 1 \/ OpenLoop.num_color_channels info = 3)
  /\ OpenLoop.num_color_channels info + OpenLoop.num_extra_channels info
     = GetRasterCount bands
  /\ nBaseChannels c <= GetRasterCount bands
  /\ (bHasInterleavedAlphaBand c = true ->
      OpenLoop.alpha_bits info = OpenLoop.bits_per_sample info
      /\ GetColorInterpretation bands (OpenLoop.num_color_channels info + 1)
         = GCI_AlphaBand)
  /\ (bHasInterleavedAlphaBand c = false -> OpenLoop.alpha_bits info = 0).
Proof.
  intros Hc Hinit Hn info.
  destruct (channels_shape _ _ _ _ _ _ _ Hc Hinit Hn)
    as (Hcolor & Ha & Ha1 & Hsum & Halpha & Hnone).
  fold info in Hcolor, Ha, Hsum, Halpha, Hnone.
  repeat split; try assumption; try (now apply Halpha).
  unfold nBaseChannels. fold info.
  change INT_MAX with 2147483647 in Hn.
  rewrite cast_int_small by (change (2 ^ 31) with 2147483648; lia). lia.
Qed.

Lemma channels_cover_bands_witness :
  OpenLoop.num_color_channels
    (basic_info
       {| basic_info :=
            {| OpenLoop.xsize := 4; OpenLoop.ysize := 4;
               OpenLoop.bits_per_sample := 8;
               OpenLoop.exponent_bits_per_sample := 0;
               OpenLoop.num_color_channels := 3;
               OpenLoop.num_extra_channels := 2;
               OpenLoop.alpha_bits := 8;
               OpenLoop.uses_original_profile := false |};
          bHasInterleavedAlphaBand := true |})
  + 2 = GetRasterCount rgba_plus_one.
Proof.
  apply (channels_cover_bands JxlEncoderInitBasicInfo 4 4 GDT_Byte 8
           rgba_plus_one).
  - reflexivity.
  - repeat split.
  - cbn. lia.
Defined.

(** X21: The two loops of [CreateCopy] over the extra channels agree: the buffer
    handed over for extra channel [k] is read from the source band whose
    interpretation and name were declared for channel [k], and the channels
    served are, in order, all those from the first one that is not the
    interleaved alpha up to the last. *)
Theorem extra_channel_indices_agree init nXSize nYSize eDT nBits bands c :
  CreateCopy_channels init nXSize nYSize eDT nBits bands = Some c ->
  initialized init ->
  GetRasterCount bands <= INT_MAX ->
  map fst (declared_extra_channels c bands) = extra_channel_buffers c bands
  /\ map fst (extra_channel_buffers c bands)
     = for_range (alpha_count c) (OpenLoop.num_extra_channels (basic_info c)).
Proof.
  intros Hc Hinit Hn.
  destruct (channels_shape _ _ _ _ _ _ _ Hc Hinit Hn)
    as (Hcolor & Ha & Ha1 & Hsum & _ & _).
  change INT_MAX with 2147483647 in Hn.
  set (color := OpenLoop.num_color_channels (basic_info c)) in *.
  set (extra := OpenLoop.num_extra_channels (basic_info c)) in *.
  set (a := alpha_count c) in *.
  assert (Hbase : nBaseChannels c = color + a).
  { unfold nBaseChannels. fold color a.
    apply cast_int_small. change (2 ^ 31) with 2147483648. lia. }
  assert (Hcast : cast_int extra = extra)
    by (apply cast_int_small; change (2 ^ 31) with 2147483648; lia).
  unfold extra_channel_buffers, declared_extra_channels.
  fold color extra a. rewrite Hbase, Hcast, <- Hsum.
  replace (color + extra) with (extra + (color + a - a)) by lia.
  replace (for_range (color + a) (extra + (color + a - a)))
    with (for_range (a + color) (extra + color)) by (f_equal; lia).
  split.
  - assert (E : (if 0 <? extra
                 then map (fun i =>
                             (cast_uint32 i, cast_int (1 + color + i),
                              is_AlphaBand
                                (GetColorInterpretation bands
                                   (cast_int (1 + color + i)))))
                          (for_range a extra)
                 else [])
                = map (fun i =>
                         (cast_uint32 i, cast_int (1 + color + i),
                          is_AlphaBand
                            (GetColorInterpretation bands
                               (cast_int (1 + color + i)))))
                      (for_range a extra)).
    { destruct (Z.ltb_spec 0 extra); [reflexivity|].
      now rewrite for_range_empty by lia. }
    rewrite E, map_map. cbn [fst].
    apply for_range_shift. intros k Hk.
    rewrite cast_uint32_small by (change (2 ^ 32) with 4294967296; lia).
    rewrite cast_int_small by (change (2 ^ 31) with 2147483648; lia).
    f_equal; lia.
  - rewrite map_map. cbn [fst].
    rewrite <- (map_id (for_range a extra)).
    symmetry. apply for_range_shift. intros k Hk. lia.
Qed.

Lemma extra_channel_indices_agree_witness :
  map fst
    (declared_extra_channels
       {| basic_info :=
            {| OpenLoop.xsize := 4; OpenLoop.ysize := 4;
               OpenLoop.bits_per_sample := 8;
               OpenLoop.exponent_bits_per_sample := 0;
               OpenLoop.num_color_channels := 3;
               OpenLoop.num_extra_channels := 2;
               OpenLoop.alpha_bits := 8;
               OpenLoop.uses_original_profile := false |};
          bHasInterleavedAlphaBand := true |}
       rgba_plus_one)
  = extra_channel_buffers
      {| basic_info :=
           {| OpenLoop.xsize := 4; OpenLoop.ysize := 4;
              OpenLoop.bits_per_sample := 8;
              OpenLoop.exponent_bits_per_sample := 0;
              OpenLoop.num_color_channels := 3;
              OpenLoop.num_extra_channels := 2;
              OpenLoop.alpha_bits := 8;
              OpenLoop.uses_original_profile := false |};
         bHasInterleavedAlphaBand := true |}
      rgba_plus_one.
Proof.
  apply (extra_channel_indices_agree JxlEncoderInitBasicInfo 4 4 GDT_Byte 8
           rgba_plus_one).
  - reflexivity.
  - repeat split.
  - cbn. lia.
Defined.

Lemma CreateCopy_nBits_Float32 opt md : CreateCopy_nBits GDT_Float32 opt md = 32.
Proof. unfold CreateCopy_nBits. destruct opt, md; reflexivity. Qed.

(** X22: From [CreateCopy] to [Open]: when the decoder reports the basic info
    that [CreateCopy] set, the data type [Open] derives is the source's
    exactly when the bit depth lies in the half of the range that belongs
    to that type (a Byte source written with NBITS above 8 comes back as
    UInt16 or is refused, a UInt16 source written with NBITS of 8 or less
    comes back as Byte); and then [Open] goes on with the band count and the
    bit depth of the source, and its bands carry the NBITS item exactly when
    the depth is below the width of the type. *)
Theorem reopened_type_and_bands nMaxBoxBufferSize EXIFExtractMetadata
    init nXSize nYSize eDT pszNBitsOption pszNBitsMetadata bands c :
  let nBits := CreateCopy_nBits eDT pszNBitsOption pszNBitsMetadata in
  CreateCopy_channels init nXSize nYSize eDT nBits bands = Some c ->
  initialized init ->
  GetRasterCount bands <= INT_MAX ->
  nXSize <= INT_MAX ->
  nYSize <= INT_MAX ->
  - 2 ^ 31 <= nBits < 2 ^ 31 ->
  (OpenLoop.derive_eDT (basic_info c) GDT_Unknown = eDT <-> NBITS_fits eDT nBits)
  /\ (NBITS_fits eDT nBits ->
      exists st,
        OpenLoop.step nMaxBoxBufferSize EXIFExtractMetadata
          (OpenLoop.BasicInfo true (basic_info c)) OpenLoop.initial_state
        = OpenLoop.Continue st
        /\ OpenLoop.eDT st = eDT
        /\ OpenLoop.l_nBands st = GetRasterCount bands
        /\ OpenLoop.m_nBits st = nBits
        /\ JPEGXLRasterBand_NBITS (OpenLoop.eDT st)
             (cast_int (OpenLoop.bits_per_sample (OpenLoop.info st)))
           = if nBits <? GDALGetDataTypeSize eDT then Some nBits else None).
Proof.
  intros nBits Hc Hinit Hn Hx Hy Hint.
  destruct (channels_shape _ _ _ _ _ _ _ Hc Hinit Hn)
    as (_ & _ & _ & Hsum & _ & _).
  destruct Hinit as (_ & _ & Hexp).
  assert (Hinfo : OpenLoop.xsize (basic_info c) = nXSize
                  /\ OpenLoop.ysize (basic_info c) = nYSize
                  /\ OpenLoop.bits_per_sample (basic_info c) = cast_uint32 nBits
                  /\ OpenLoop.exponent_bits_per_sample (basic_info c)
                     = (if GDALDataType_eqb eDT GDT_Float32 then 8 else 0)
                  /\ eDT <> GDT_Unknown).
  { unfold CreateCopy_channels in Hc.
    destruct (_ || _); [discriminate|].
    destruct (GDALDataType_eqb eDT GDT_Unknown) eqn:Hdt; [discriminate|].
    rewrite Hexp in Hc.
    assert (eDT <> GDT_Unknown) by (intros ->; discriminate).
    revert Hc.
    repeat match goal with
           | |- context [if ?b then _ else _] =>
               lazymatch b with
               | GDALDataType_eqb _ _ => fail
               | _ => destruct b
               end
           end; intros [= <-]; cbn; auto. }
  destruct Hinfo as (Ex & Ey & Ebits & Eexp & Hdt).
  assert (Hderive : OpenLoop.derive_eDT (basic_info c) GDT_Unknown = eDT
                    <-> NBITS_fits eDT nBits).
  { unfold OpenLoop.derive_eDT. rewrite Ebits, Eexp.
    change (2 ^ 31) with 2147483648 in Hint.
    assert (Hneg : nBits < 0 -> 16 < cast_uint32 nBits).
    { intros Hlt. unfold cast_uint32. change (2 ^ 32) with 4294967296.
      replace nBits with (nBits + 4294967296 + (-1) * 4294967296) by lia.
      rewrite Z.mod_add by lia. rewrite Z.mod_small; lia. }
    assert (Hpos : 0 <= nBits -> cast_uint32 nBits = nBits).
    { intros Hge. apply cast_uint32_small.
      change (2 ^ 32) with 4294967296. lia. }
    destruct eDT; [congruence| | |]; cbn [GDALDataType_eqb NBITS_fits Z.eqb].
    - destruct (Z.leb_spec (cast_uint32 nBits) 8) as [H8|H8].
      + split; [intros _|reflexivity].
        destruct (Z.lt_ge_cases nBits 0) as [Hlt|Hge];
          [specialize (Hneg Hlt); lia | rewrite Hpos in H8 by lia; lia].
      + split.
        * destruct (cast_uint32 nBits <=? 16); discriminate.
        * intros [H0 Hle]. rewrite Hpos in H8 by lia. lia.
    - destruct (Z.leb_spec (cast_uint32 nBits) 8) as [H8|H8].
      + split; [discriminate|]. intros [Hgt Hle].
        rewrite Hpos in H8 by lia. lia.
      + destruct (Z.leb_spec (cast_uint32 nBits) 16) as [H16|H16].
        * split; [intros _|reflexivity].
          destruct (Z.lt_ge_cases nBits 0) as [Hlt|Hge];
            [specialize (Hneg Hlt); lia | rewrite Hpos in H8, H16 by lia; lia].
        * split; [discriminate|]. intros [Hgt Hle].
          rewrite Hpos in H16 by lia. lia.
    - split; [intros _; exact I | reflexivity]. }
  split; [exact Hderive|].
  intros Hfits. pose proof (proj2 Hderive Hfits) as Hd.
  assert (Hbits : cast_uint32 nBits = nBits).
  { apply cast_uint32_small. change (2 ^ 32) with 4294967296.
    change (2 ^ 31) with 2147483648 in Hint.
    destruct eDT; cbn [NBITS_fits] in Hfits; try lia.
    - congruence.
    - subst nBits. rewrite CreateCopy_nBits_Float32. lia. }
  eexists. cbn [OpenLoop.step negb].
  rewrite Ex, Ey.
  rewrite (proj2 (Z.ltb_ge INT_MAX nXSize)) by lia.
  rewrite (proj2 (Z.ltb_ge INT_MAX nYSize)) by lia.
  cbn [orb OpenLoop.eDT OpenLoop.initial_state]. rewrite Hd.
  assert (Hne : GDALDataType_eqb eDT GDT_Unknown = false)
    by (destruct eDT; [congruence | reflexivity..]).
  rewrite Hne. split; [reflexivity|].
  cbn [OpenLoop.eDT OpenLoop.l_nBands OpenLoop.m_nBits OpenLoop.info
       OpenLoop.set_info].
  rewrite Ebits, Hbits. repeat split; [exact Hsum|].
  rewrite cast_int_small by exact Hint.
  unfold JPEGXLRasterBand_NBITS.
  destruct eDT; [congruence| | |]; cbn [GDALDataType_eqb GDALGetDataTypeSize andb orb].
  - now rewrite orb_false_r.
  - reflexivity.
  - subst nBits. rewrite CreateCopy_nBits_Float32. reflexivity.
Qed.

Lemma reopened_type_and_bands_witness :
  OpenLoop.derive_eDT
    {| OpenLoop.xsize := 4; OpenLoop.ysize := 4;
       OpenLoop.bits_per_sample := 12;
       OpenLoop.exponent_bits_per_sample := 0;
       OpenLoop.num_color_channels := 1;
       OpenLoop.num_extra_channels := 0;
       OpenLoop.alpha_bits := 0;
       OpenLoop.uses_original_profile := false |} GDT_Unknown = GDT_UInt16
  <-> NBITS_fits GDT_UInt16 12.
Proof.
  refine (proj1 (reopened_type_and_bands OpenLoop.default_nMaxBoxBufferSize
                   OpenLoop.no_EXIF JxlEncoderInitBasicInfo 4 4 GDT_UInt16
                   (Some 12) None [GCI_GrayIndex]
                   {| basic_info :=
                        {| OpenLoop.xsize := 4; OpenLoop.ysize := 4;
                           OpenLoop.bits_per_sample := 12;
                           OpenLoop.exponent_bits_per_sample := 0;
                           OpenLoop.num_color_channels := 1;
                           OpenLoop.num_extra_channels := 0;
                           OpenLoop.alpha_bits := 0;
                           OpenLoop.uses_original_profile := false |};
                      bHasInterleavedAlphaBand := false |}
                   _ _ _ _ _ _)).
  - reflexivity.
  - repeat split.
  - cbn. lia.
  - cbn. lia.
  - cbn. lia.
  - cbn. lia.
Defined.

(** X23: The thread count handed to the runner is at most 1024 and at most what
    the engine suggests, whatever NUM_THREADS holds; a negative count, which
    the cast to [uint32_t] turns into a huge one, means the largest count
    allowed. *)
Theorem nThreads_bounds pszNumThreads nCPUs atoi_pszNumThreads nSuggested :
  0 <= nSuggested ->
  0 <= nThreads pszNumThreads nCPUs atoi_pszNumThreads nSuggested <= 1024
  /\ nThreads pszNumThreads nCPUs atoi_pszNumThreads nSuggested <= nSuggested
  /\ (Jpeg.EQUAL pszNumThreads "ALL_CPUS" = false ->
      - 2 ^ 31 <= atoi_pszNumThreads < 0 ->
      nThreads pszNumThreads nCPUs atoi_pszNumThreads nSuggested
      = Z.min 1024 nSuggested).
Proof.
  intros Hs. unfold nThreads.
  set (req := if Jpeg.EQUAL pszNumThreads "ALL_CPUS" then nCPUs
              else atoi_pszNumThreads).
  assert (Hc : 0 <= cast_uint32 req < 2 ^ 32)
    by (unfold cast_uint32; apply Z.mod_pos_bound; reflexivity).
  split; [|split].
  - destruct (Z.ltb_spec 1024 (cast_uint32 req)); lia.
  - lia.
  - intros Hname Hneg. subst req. rewrite Hname.
    assert (E : cast_uint32 atoi_pszNumThreads = atoi_pszNumThreads + 2 ^ 32).
    { unfold cast_uint32.
      replace atoi_pszNumThreads
        with (atoi_pszNumThreads + 2 ^ 32 + (-1) * 2 ^ 32) at 1 by lia.
      rewrite Z.mod_add by (change (2 ^ 32) with 4294967296; lia).
      apply Z.mod_small. change (2 ^ 31) with 2147483648 in Hneg.
      change (2 ^ 32) with 4294967296. lia. }
    rewrite E. change (2 ^ 31) with 2147483648 in Hneg.
    change (2 ^ 32) with 4294967296.
    destruct (Z.ltb_spec 1024 (atoi_pszNumThreads + 4294967296)); [reflexivity|lia].
Qed.

Lemma nThreads_bounds_witness :
  nThreads "-1" 8 (-1) 4 = Z.min 1024 4.
Proof.
  apply (proj2 (proj2 (nThreads_bounds "-1" 8 (-1) 4 ltac:(lia)))).
  - reflexivity.
  - lia.
Defined.

End LayoutFacts.
